(** * go-olson-timezone: the local Olson time zone name

    A shallow embedding of the package [timezone] (files [timezone_unix.go],
    [timezone_windows.go] and [timezone.go]) and of the parts of the Go
    standard library its functions call, followed by the properties of the
    resolution algorithm.

    Go strings are byte strings: they are modelled by [string], one [ascii]
    per byte.  Every separator, cut set and pattern literal of the package is
    ASCII, and in UTF-8 no byte of a multi-byte character is an ASCII byte, so
    the byte-level reading of [strings.Split], [strings.Index], of the regular
    expression and of the others agrees with Go's reading by characters. *)

From Stdlib Require Import Ascii String ZArith Lia List.
From stdpp Require Import base option list strings gmap.

(** ** Outcomes of Go code: a value, or a run-time panic *)

Inductive exec (A : Type) : Type :=
| Ret (a : A)
| Panic.
Arguments Ret {A} a.
Arguments Panic {A}.

Definition bind_exec {A B} (m : exec A) (k : A -> exec B) : exec B :=
  match m with
  | Ret a => k a
  | Panic => Panic
  end.

Notation "x <-! m ;; k" := (bind_exec m (fun x => k))
  (at level 20, m at level 99, k at level 200, only parsing).

(** [for _, x := range xs { acc = body(acc, x) }] where the body may panic. *)
Fixpoint for_exec {A S} (xs : list A) (acc : S) (body : S -> A -> exec S) : exec S :=
  match xs with
  | [] => Ret acc
  | x :: xs' => acc' <-! body acc x ;; for_exec xs' acc' body
  end.

(** [len(s)] of a slice, as a Go [int]. *)
Definition len {A} (l : list A) : Z := Z.of_nat (length l).

(** [s[i]] on a slice: panics when the index is out of range. *)
Definition index {A} (l : list A) (i : Z) : exec A :=
  if bool_decide (0 <= i < len l)%Z then
    match l !! Z.to_nat i with
    | Some x => Ret x
    | None => Panic
    end
  else Panic.

(** [s[i:]] on a slice: panics unless [0 <= i <= len(s)]. *)
Definition slice_from {A} (l : list A) (i : Z) : exec (list A) :=
  if bool_decide (0 <= i <= len l)%Z then Ret (drop (Z.to_nat i) l) else Panic.

(** ** Package [strings] *)

Module strings.

(** [len(s)] of a string. *)
Definition len (s : string) : Z := Z.of_nat (String.length s).

Fixpoint drop (n : nat) (s : string) : string :=
  match n, s with
  | O, _ => s
  | S n', String _ s' => drop n' s'
  | S _, EmptyString => EmptyString
  end.

(** [s[i:]] on a string: panics unless [0 <= i <= len(s)]. *)
Definition slice_from (s : string) (i : Z) : exec string :=
  if bool_decide (0 <= i <= len s)%Z then Ret (drop (Z.to_nat i) s) else Panic.

Fixpoint HasPrefix (s prefix : string) : bool :=
  match prefix, s with
  | EmptyString, _ => true
  | String p prefix', String c s' =>
      if Ascii.eqb p c then HasPrefix s' prefix' else false
  | String _ _, EmptyString => false
  end.

(** [strings.Index]: the byte offset of the first instance of [substr] in
    [s], or -1. *)
Fixpoint Index (s substr : string) : Z :=
  if HasPrefix s substr then 0%Z
  else match s with
       | EmptyString => (-1)%Z
       | String _ s' =>
           let i := Index s' substr in
           if (i <? 0)%Z then (-1)%Z else (i + 1)%Z
       end.

Definition Contains (s substr : string) : bool := (0 <=? Index s substr)%Z.

(** [strings.Cut]: the text before and after the first instance of [sep]. *)
Fixpoint Cut (s sep : string) : option (string * string) :=
  if HasPrefix s sep then Some (EmptyString, drop (String.length sep) s)
  else match s with
       | EmptyString => None
       | String c s' =>
           match Cut s' sep with
           | Some (before, after) => Some (String c before, after)
           | None => None
           end
       end.

(** The loop of [genSplit]: at most [k] cuts at [sep], then the rest. *)
Fixpoint split_loop (k : nat) (s sep : string) : list string :=
  match k with
  | O => [s]
  | S k' =>
      match Cut s sep with
      | None => [s]
      | Some (before, after) => before :: split_loop k' after sep
      end
  end.

(** [strings.SplitN], for the non-empty separators the package passes (the
    empty separator, which explodes [s] into characters, is never used).
    [n < 0] asks for every piece: a non-empty separator occurs at most
    [len(s)] times. *)
Definition SplitN (s sep : string) (n : Z) : list string :=
  if (n =? 0)%Z then []
  else if (n <? 0)%Z then split_loop (String.length s) s sep
  else split_loop (Z.to_nat n - 1) s sep.

Definition Split (s sep : string) : list string := SplitN s sep (-1).

Fixpoint Join (elems : list string) (sep : string) : string :=
  match elems with
  | [] => EmptyString
  | [e] => e
  | e :: elems' => e +:+ sep +:+ Join elems' sep
  end.

(** [strings.ReplaceAll] for a non-empty [old]: the non-overlapping
    instances of [old], left to right, are the cuts of [Split]. *)
Definition ReplaceAll (s old new : string) : string :=
  if String.eqb old new then s else Join (Split s old) new.

Fixpoint in_cutset (c : ascii) (cutset : string) : bool :=
  match cutset with
  | EmptyString => false
  | String d cutset' => Ascii.eqb c d || in_cutset c cutset'
  end.

Fixpoint TrimLeft (s cutset : string) : string :=
  match s with
  | EmptyString => EmptyString
  | String c s' => if in_cutset c cutset then TrimLeft s' cutset else s
  end.

Fixpoint TrimRight (s cutset : string) : string :=
  match s with
  | EmptyString => EmptyString
  | String c s' =>
      match TrimRight s' cutset with
      | EmptyString => if in_cutset c cutset then EmptyString else String c EmptyString
      | r => String c r
      end
  end.

(** [strings.Trim] with an ASCII cut set works on bytes. *)
Definition Trim (s cutset : string) : string :=
  TrimLeft (TrimRight s cutset) cutset.

(** The white space of [unicode.IsSpace], as the UTF-8 encodings of its
    characters: the six ASCII ones, U+0085 and U+00A0 (two bytes), and
    U+1680, U+2000..U+200A, U+2028, U+2029, U+202F, U+205F, U+3000 (three
    bytes).  [space_size s] is the size of the white-space character [s]
    starts with, or 0. *)
Definition asciiSpace (c : ascii) : bool :=
  let n := nat_of_ascii c in
  (9 <=? n)%nat && (n <=? 13)%nat || (n =? 32)%nat.

Definition space3 (a b c : nat) : bool :=
  (a =? 225)%nat && (b =? 154)%nat && (c =? 128)%nat
  || (a =? 226)%nat && (b =? 128)%nat
       && ((128 <=? c)%nat && (c <=? 138)%nat
           || (c =? 168)%nat || (c =? 169)%nat || (c =? 175)%nat)
  || (a =? 226)%nat && (b =? 129)%nat && (c =? 159)%nat
  || (a =? 227)%nat && (b =? 128)%nat && (c =? 128)%nat.

Definition space_size (s : string) : nat :=
  match s with
  | EmptyString => 0
  | String a s1 =>
      if asciiSpace a then 1
      else match s1 with
           | EmptyString => 0
           | String b s2 =>
               if (nat_of_ascii a =? 194)%nat
                  && ((nat_of_ascii b =? 133)%nat || (nat_of_ascii b =? 160)%nat)
               then 2
               else match s2 with
                    | EmptyString => 0
                    | String c _ =>
                        if space3 (nat_of_ascii a) (nat_of_ascii b) (nat_of_ascii c)
                        then 3 else 0
                    end
           end
  end.

(** The same, read backwards from the end of the text ([r] is reversed). *)
Definition space_size_rev (r : string) : nat :=
  match r with
  | EmptyString => 0
  | String c r1 =>
      if asciiSpace c then 1
      else match r1 with
           | EmptyString => 0
           | String b r2 =>
               if (nat_of_ascii b =? 194)%nat
                  && ((nat_of_ascii c =? 133)%nat || (nat_of_ascii c =? 160)%nat)
               then 2
               else match r2 with
                    | EmptyString => 0
                    | String a _ =>
                        if space3 (nat_of_ascii a) (nat_of_ascii b) (nat_of_ascii c)
                        then 3 else 0
                    end
           end
  end.

Fixpoint trim_spaces (size : string -> nat) (fuel : nat) (s : string) : string :=
  match fuel with
  | O => s
  | S fuel' =>
      match size s with
      | O => s
      | n => trim_spaces size fuel' (drop n s)
      end
  end.

(** [strings.TrimSpace]: leading and trailing white space, as Unicode
    defines it, removed. *)
Definition TrimSpace (s : string) : string :=
  let l := trim_spaces space_size (String.length s) s in
  let r := String.rev l in
  String.rev (trim_spaces space_size_rev (String.length r) r).

End strings.

Definition slash : string := "/".
Definition space : string := " ".
Definition underscore : string := "_".
Definition hash : string := "#".
Definition LF : string := String "010" EmptyString.
Definition CR : string := String "013" EmptyString.
Definition TAB : string := String "009" EmptyString.
Definition quote : string := String "034" EmptyString.

(** ** Package [path/filepath], as on Unix *)

Module filepath.

(** The elements of a cleaned path, last first in [out]: empty and [.]
    elements vanish, [..] removes the element before it, is dropped at the
    root, and stays in front of a relative path. *)
Fixpoint clean_elems (rooted : bool) (elems out : list string) : list string :=
  match elems with
  | [] => rev out
  | e :: elems' =>
      if bool_decide (e = "" \/ e = ".") then clean_elems rooted elems' out
      else if bool_decide (e = "..") then
        match out with
        | last :: out' =>
            if bool_decide (last = "..") then clean_elems rooted elems' (e :: out)
            else clean_elems rooted elems' out'
        | [] => clean_elems rooted elems' (if rooted then [] else [e])
        end
      else clean_elems rooted elems' (e :: out)
  end.

Definition Clean (path : string) : string :=
  if bool_decide (path = "") then "."
  else
    let rooted := strings.HasPrefix path slash in
    let out := clean_elems rooted (strings.Split path slash) [] in
    if rooted then slash +:+ strings.Join out slash
    else if bool_decide (out = []) then "." else strings.Join out slash.

(** [filepath.Join]: the elements from the first non-empty one on, joined by
    the separator and cleaned; the empty string when there is none. *)
Fixpoint Join (elem : list string) : string :=
  match elem with
  | [] => ""
  | e :: elem' =>
      if bool_decide (e = "") then Join elem' else Clean (strings.Join elem slash)
  end.

Definition IsAbs (path : string) : bool := strings.HasPrefix path slash.

End filepath.

(** ** Package [regexp]

    The fragment of the syntax that [timezoneRegex] uses, matched by
    backtracking in the order of Go's leftmost-first semantics: the first
    alternative before the second, a star as long as possible first. *)

Module regexp.

Inductive Regexp : Type :=
| Lit (l : string)
| Cat (r1 r2 : Regexp)
| Alt (r1 r2 : Regexp)
| StarClass (p : ascii -> bool)
| Capture (i : nat) (name : string) (r : Regexp)
| BeginText
| EndText.

(** [\s] is the Perl class: tab, line feed, form feed, carriage return, space. *)
Definition perl_space (c : ascii) : bool :=
  let n := nat_of_ascii c in
  (n =? 9)%nat || (n =? 10)%nat || (n =? 12)%nat || (n =? 13)%nat || (n =? 32)%nat.

(** [.] without the [s] flag: anything but a line feed. *)
Definition any_char_not_nl (c : ascii) : bool := negb (nat_of_ascii c =? 10)%nat.

Fixpoint take (n : nat) (s : string) : string :=
  match n, s with
  | S n', String c s' => String c (take n' s')
  | _, _ => EmptyString
  end.

(** The text consumed between the rest [s] and the later rest [s']. *)
Definition consumed (s s' : string) : string :=
  take (String.length s - String.length s') s.

Fixpoint star (p : ascii -> bool) (s : string) (k : string -> option (list string))
  : option (list string) :=
  match s with
  | String c s' =>
      if p c then
        match star p s' k with
        | Some caps => Some caps
        | None => k s
        end
      else k s
  | EmptyString => k s
  end.

(** [run text r s caps k]: match [r] at the rest [s] of [text], then go on
    with [k]; [caps] holds the text of each group matched so far. *)
Fixpoint run (text : string) (r : Regexp) (s : string) (caps : list string)
    (k : string -> list string -> option (list string)) : option (list string) :=
  match r with
  | Lit l =>
      if strings.HasPrefix s l then k (strings.drop (String.length l) s) caps else None
  | Cat r1 r2 => run text r1 s caps (fun s' caps' => run text r2 s' caps' k)
  | Alt r1 r2 =>
      match run text r1 s caps k with
      | Some res => Some res
      | None => run text r2 s caps k
      end
  | StarClass p => star p s (fun s' => k s' caps)
  | Capture i _ r1 =>
      run text r1 s caps (fun s' caps' => k s' (<[i := consumed s s']> caps'))
  | BeginText =>
      if (String.length s =? String.length text)%nat then k s caps else None
  | EndText => if bool_decide (s = "") then k s caps else None
  end.

Fixpoint NumSubexp (r : Regexp) : nat :=
  match r with
  | Cat r1 r2 | Alt r1 r2 => NumSubexp r1 + NumSubexp r2
  | Capture _ _ r1 => S (NumSubexp r1)
  | _ => 0
  end.

Fixpoint capture_names (r : Regexp) : list string :=
  match r with
  | Cat r1 r2 | Alt r1 r2 => capture_names r1 ++ capture_names r2
  | Capture _ name r1 => name :: capture_names r1
  | _ => []
  end.

(** [SubexpNames]: the name of group 0, the whole match, is empty. *)
Definition SubexpNames (r : Regexp) : list string := "" :: capture_names r.

(** The leftmost match: the first start, from the left, where [r] matches. *)
Fixpoint find (text : string) (r : Regexp) (s : string) : option (list string) :=
  match run text r s (replicate (S (NumSubexp r)) "")
          (fun s' caps => Some (<[0 := consumed s s']> caps)) with
  | Some caps => Some caps
  | None =>
      match s with
      | String _ s' => find text r s'
      | EmptyString => None
      end
  end.

(** [FindStringSubmatch]: the match and the text of each group, or the nil
    slice. *)
Definition FindStringSubmatch (r : Regexp) (s : string) : list string :=
  match find s r s with
  | Some caps => caps
  | None => []
  end.

End regexp.

(** ** Package [bufio]: a [Scanner] with the default split function and
    buffer *)

Module bufio.

Definition MaxScanTokenSize : Z := 64 * 1024.

Fixpoint dropCR (data : string) : string :=
  match data with
  | EmptyString => EmptyString
  | String c EmptyString => if Ascii.eqb c "013" then EmptyString else data
  | String c data' => String c (dropCR data')
  end.

(** The tokens [Scan] delivers over [data] with [ScanLines]: the lines
    without their end-of-line marker, a last line without line feed when it
    is not empty.  A line must fit the buffer with its line feed; at the
    first line of [MaxScanTokenSize] bytes or more [Scan] returns false and
    the scan is over. *)
Fixpoint scan_loop (fuel : nat) (data : string) : list string :=
  match fuel with
  | O => []
  | S fuel' =>
      match strings.Cut data LF with
      | Some (line, rest) =>
          if (strings.len line <? MaxScanTokenSize)%Z
          then dropCR line :: scan_loop fuel' rest
          else []
      | None =>
          if bool_decide (data = "") then []
          else if (strings.len data <? MaxScanTokenSize)%Z then [dropCR data]
          else []
      end
  end.

Definition ScanLines (data : string) : list string :=
  scan_loop (S (String.length data)) data.

End bufio.

(** ** The world outside: environment, file system, registry

    The package only reads the world.  Each read is a total function of its
    arguments, and a call is recorded as an event, so that what a function
    reads, and in which order, is part of its outcome. *)

Inductive oserror : Type :=
| ErrNotExist
| ErrExist
| ErrPermission
| ErrOther.

Inductive result (A : Type) : Type :=
| Ok (a : A)
| Err (e : oserror).
Arguments Ok {A} a.
Arguments Err {A} e.

Record World : Type := {
  (** [os.Getenv]: the empty string for an unset variable *)
  env : string -> string;
  (** [os.ReadFile] *)
  file_data : string -> result string;
  (** [os.Open], and the bytes a [bufio.Scanner] then reads from the file *)
  open_data : string -> result string;
  (** [os.Lstat], the [Mode()] of the file info *)
  lstat_mode : string -> result Z;
  (** [os.Readlink] *)
  link_target : string -> result string;
  (** the error of [os.Stat], if any *)
  stat_err : string -> option oserror;
  (** [realpath.Realpath] *)
  real_path : string -> result string;
  (** [registry.OpenKey] under [LOCAL_MACHINE] with [QUERY_VALUE] *)
  registry_key : string -> result unit;
  (** [GetStringValue] of a value of an open key *)
  registry_string : string -> string -> result string
}.

Inductive Event : Type :=
| EvGetenv (key : string)
| EvReadFile (name : string)
| EvOpen (name : string)
| EvLstat (name : string)
| EvReadlink (name : string)
| EvStat (name : string)
| EvRealpath (path : string)
| EvOpenKey (path : string)
| EvGetStringValue (path name : string).

Definition IO (A : Type) : Type := World -> exec A * list Event.

Definition ret {A} (a : A) : IO A := fun _ => (Ret a, []).

Definition bind {A B} (m : IO A) (k : A -> IO B) : IO B :=
  fun w =>
    match m w with
    | (Ret a, t1) => let (r, t2) := k a w in (r, t1 ++ t2)
    | (Panic, t1) => (Panic, t1)
    end.

Notation "x <- m ;; k" := (bind m (fun x => k))
  (at level 20, m at level 99, k at level 200, only parsing).

Definition lift {A} (m : exec A) : IO A := fun _ => (m, []).

Definition read {A} (e : Event) (f : World -> A) : IO A := fun w => (Ret (f w), [e]).

(** [for _, x := range xs { acc = body(acc, x) }] *)
Fixpoint for_range {A S} (xs : list A) (acc : S) (body : S -> A -> IO S) : IO S :=
  match xs with
  | [] => ret acc
  | x :: xs' => acc' <- body acc x ;; for_range xs' acc' body
  end.

(** A Go [error]: [None] is [nil], [Some message] an error with its message. *)
Definition error : Type := option string.

Module errors.
Definition New (message : string) : error := Some message.
End errors.

Module os.

Definition PathSeparator : string := slash.
Definition ModeSymlink : Z := Z.shiftl 1 27.

Definition Getenv (key : string) : IO string := read (EvGetenv key) (fun w => env w key).
Definition ReadFile (name : string) : IO (result string) :=
  read (EvReadFile name) (fun w => file_data w name).
Definition Open (name : string) : IO (result string) :=
  read (EvOpen name) (fun w => open_data w name).
Definition Lstat (name : string) : IO (result Z) :=
  read (EvLstat name) (fun w => lstat_mode w name).
Definition Readlink (name : string) : IO (result string) :=
  read (EvReadlink name) (fun w => link_target w name).
Definition Stat (name : string) : IO (option oserror) :=
  read (EvStat name) (fun w => stat_err w name).

Definition IsExist (e : oserror) : bool :=
  match e with
  | ErrExist => true
  | _ => false
  end.

End os.

Module realpath.
(** [Realpath] of the library is taken to return, with a path or with an
    error: a panic inside the library is outside this model. *)
Definition Realpath (fpath : string) : IO (result string) :=
  read (EvRealpath fpath) (fun w => real_path w fpath).
End realpath.

Module registry.
Definition OpenKey (path : string) : IO (result unit) :=
  read (EvOpenKey path) (fun w => registry_key w path).
Definition GetStringValue (path name : string) : IO (result string) :=
  read (EvGetStringValue path name) (fun w => registry_string w path name).
End registry.

Module fmt.
(** [fmt.Sprintf] with the format of one string and a line feed *)
Definition Sprintf_s_LF (v : string) : string := v +:+ LF.
End fmt.

(** ** [parseEnv] and [fileExists]

    [timezone_unix.go] and [timezone_windows.go] hold the same text of both;
    the platforms differ in [os.PathSeparator] and [filepath.IsAbs].  The
    table [timezones] of the package is data: its keys are the canonical
    identifiers. *)

Section env.

Context (timezones : gmap string string).
Context (PathSeparator : string) (IsAbs : string -> bool).

(** [fileExists] checks if a file or directory exist. *)
Definition fileExists (fp : string) : IO bool :=
  err <- os.Stat fp ;;
  ret match err with
      | None => true
      | Some e => os.IsExist e
      end.

(** [parseEnv] parses timezone from TZ env var. *)
Definition parseEnv : IO string :=
  tzenv <- os.Getenv "TZ" ;;
  if bool_decide (tzenv = "") then ret ""
  else if bool_decide (is_Some (timezones !! tzenv)) then ret tzenv
  else
    (* filepath.IsAbs(tzenv) && fileExists(tzenv) *)
    is_file <- (if IsAbs tzenv then fileExists tzenv else ret false) ;;
    if is_file then
      (* it's a file specification *)
      let parts := strings.Split tzenv PathSeparator in
      (* is it a zone info zone? *)
      last_two <- lift (slice_from parts (len parts - 2)) ;;
      let joined := strings.Join last_two slash in
      if bool_decide (is_Some (timezones !! joined)) then ret joined
      else
        (* maybe it's a short one, like UTC? *)
        last <- lift (index parts (len parts - 1)) ;;
        if bool_decide (is_Some (timezones !! last)) then ret last
        else ret ""
    else ret "".

End env.

(** ** [timezone_unix.go] *)

Module Unix.

Import regexp.

(** The pattern of [timezoneRegex], piece by piece: the beginning of the
    text; white space; group 1, TIMEZONE or ZONE; white space; the equals
    sign; white space; a double quote; the group named tz, any characters
    but a line feed, as many as possible; a double quote; the end of the
    text. *)
Definition timezoneRegex : Regexp :=
  Cat BeginText
 (Cat (StarClass perl_space)
 (Cat (Capture 1 "" (Alt (Lit "TIMEZONE") (Lit "ZONE")))
 (Cat (StarClass perl_space)
 (Cat (Lit "=")
 (Cat (StarClass perl_space)
 (Cat (Lit quote)
 (Cat (Capture 2 "tz" (StarClass any_char_not_nl))
 (Cat (Lit quote)
      EndText)))))))).

(** The body of the loop over the lines of a configuration file. *)
Definition config_line (timezones : list string) (line : string) : exec (list string) :=
  (* get rid of host definitions and comments *)
  line <-! (if strings.Contains line space
            then index (strings.SplitN line space 2) 0
            else Ret line) ;;
  line <-! (if strings.Contains line hash
            then index (strings.SplitN line hash 2) 0
            else Ret line) ;;
  let line := strings.TrimSpace line in
  if bool_decide (line <> "")
  then Ret (timezones ++ [strings.ReplaceAll line space underscore])
  else Ret timezones.

(** [parseFromConfigFile] parses timezone from configuration files. *)
Definition parseFromConfigFile (paths : list string) : IO (list string) :=
  for_range paths [] (fun timezones configfile =>
    data <- os.ReadFile configfile ;;
    match data with
    | Err _ => ret timezones
    | Ok data =>
        let etctz := strings.Trim data (slash +:+ space +:+ TAB +:+ CR +:+ LF) in
        if bool_decide (etctz = "") then ret timezones
        else
          let lines := strings.Split (strings.ReplaceAll etctz (CR +:+ LF) LF) LF in
          lift (for_exec lines timezones config_line)
    end).

(** Reading a Go map at a key: the empty string for a missing key. *)
Definition map_get (m : gmap string string) (key : string) : string :=
  default "" (m !! key).

(** The body of the loop over the lines a scanner delivers. *)
Definition clock_line (timezones : list string) (line : string) : exec (list string) :=
  (* look for the TIMEZONE|ZONE= setting *)
  let match_ := FindStringSubmatch timezoneRegex line in
  paramsMap <-!
    for_exec (imap (fun i name => (Z.of_nat i, name)) (SubexpNames timezoneRegex))
      (∅ : gmap string string)
      (fun paramsMap '(i, name) =>
         if bool_decide (i > 0)%Z && bool_decide (i <= len match_)%Z
         then v <-! index match_ i ;; Ret (<[name := v]> paramsMap)
         else Ret paramsMap) ;;
  if bool_decide (size paramsMap = 0) || bool_decide (map_get paramsMap "tz" = "")
  then Ret timezones
  else Ret (timezones ++ [strings.ReplaceAll (map_get paramsMap "tz") space underscore]).

(** [parseFromClock] parses timezone from clock files.  The deferred
    [file.Close()] has no effect on what is read. *)
Definition parseFromClock (paths : list string) : IO (list string) :=
  for_range paths [] (fun timezones filename =>
    file <- os.Open filename ;;
    match file with
    | Err _ => ret timezones
    | Ok data => lift (for_exec (bufio.ScanLines data) timezones clock_line)
    end).

(** [parseSymlink] parses symbolic link to resolve timezone name. *)
Definition parseSymlink (path : string) : IO string :=
  fileInfo <- os.Lstat path ;;
  match fileInfo with
  | Err _ => ret ""
  | Ok mode =>
      (* is symlink? *)
      if bool_decide (Z.land mode os.ModeSymlink <> 0%Z) then
        tz <- os.Readlink path ;;
        match tz with
        | Err _ => ret ""
        | Ok tz =>
            let idx := strings.Index tz "zoneinfo/" in
            if bool_decide (idx = (-1)%Z) then ret ""
            else
              rest <- lift (strings.slice_from tz (idx + 9)) ;;
              ret (strings.ReplaceAll rest space underscore)
        end
      else ret ""
  end.

Fixpoint appendIfMissing_range (items slice : list string) (s : string) : list string :=
  match items with
  | [] => slice ++ [s]
  | item :: items' =>
      if bool_decide (item = s) then slice else appendIfMissing_range items' slice s
  end.

Definition appendIfMissing (slice : list string) (s : string) : list string :=
  appendIfMissing_range slice slice s.

(** The loop of [resolveTimezones] over the candidates: look them up under
    [zoneinfo], and find what they really point to. *)
Definition resolve_range (timezones : list string) (zoneinfo : string) : IO (list string) :=
  let depth := len (strings.Split zoneinfo os.PathSeparator) in
  for_range timezones [] (fun filtered tzname =>
    path <- realpath.Realpath (filepath.Join [zoneinfo; tzname]) ;;
    match path with
    | Err _ => ret filtered
    | Ok path =>
        parts <- lift (slice_from (strings.Split path os.PathSeparator) depth) ;;
        let name := strings.Join parts slash in
        ret (appendIfMissing filtered name)
    end).

Definition conflict_header : string :=
  "multiple conflicting time zone configurations found:" +:+ LF.
Definition conflict_advice : string :=
  "Fix the configuration, or set the time zone in a TZ environment variable".

(** [resolveTimezones] resolves conflicted timezones. Otherwise returns an
    error. *)
Definition resolveTimezones (timezones : list string) (zoneinfo : string)
  : IO (string * error) :=
  if bool_decide (len timezones = 0%Z) then ret ("", None)
  else if bool_decide (len timezones = 1%Z) then
    first <- lift (index timezones 0) ;; ret (first, None)
  else
    (* multiple configs. See if they match *)
    filtered <- resolve_range timezones zoneinfo ;;
    if bool_decide (len filtered = 1%Z) then
      first <- lift (index filtered 0) ;; ret (first, None)
    else if bool_decide (len filtered > 1)%Z then
      let message :=
        fold_left (fun message v => message +:+ fmt.Sprintf_s_LF v) filtered conflict_header in
      let message := message +:+ conflict_advice in
      ret ("", errors.New message)
    else ret ("", None).

Section name.

Context (timezones : gmap string string).

(** [Name] tries to find the local timezone configuration. *)
Definition Name : IO (string * error) :=
  (* first try the ENV setting *)
  tzenv <- parseEnv timezones os.PathSeparator filepath.IsAbs ;;
  if bool_decide (tzenv <> "") then ret (tzenv, None)
  else
    (* now look for distribution specific configuration files *)
    let timezones : list string := [] in
    from_config <- parseFromConfigFile ["/etc/timezone"; "/var/db/zoneinfo"] ;;
    let timezones := timezones ++ from_config in
    from_clock <- parseFromClock ["/etc/sysconfig/clock"; "/etc/conf.d/clock"] ;;
    let timezones := timezones ++ from_clock in
    parsed <- parseSymlink "/etc/localtime" ;;
    let timezones := if bool_decide (parsed <> "") then timezones ++ [parsed] else timezones in
    resolveTimezones timezones "/usr/share/zoneinfo".

End name.

End Unix.

(** ** [timezone_windows.go] *)

Module Windows.

Definition PathSeparator : string := "\".
Definition NUL : string := String "000" EmptyString.
Definition key_path : string := "SYSTEM\CurrentControlSet\Control\TimeZoneInformation".

Section name.

Context (timezones windowsTimezones : gmap string string).
(** [filepath.IsAbs] of the platform, a function of the path alone *)
Context (IsAbs : string -> bool).

(** [Name] tries to find the local timezone configuration. Windows is
    special. *)
Definition Name : IO (string * error) :=
  (* first try the ENV setting *)
  tzenv <- parseEnv timezones PathSeparator IsAbs ;;
  if bool_decide (tzenv <> "") then ret (tzenv, None)
  else
    key <- registry.OpenKey key_path ;;
    match key with
    | Err _ => ret ("", Some "failed to open registry key")
    | Ok _ =>
        tzwin <- registry.GetStringValue key_path "TimeZoneKeyName" ;;
        match tzwin with
        | Err _ => ret ("", Some "can not find windows timezone configuration")
        | Ok tzwin =>
            let tzwin := strings.ReplaceAll tzwin NUL "" in
            match windowsTimezones !! tzwin with
            | Some tz => ret (tz, None)
            | None =>
                (* try adding Standard Time, it seems to work a lot of times *)
                let tzwin := tzwin +:+ " Standard Time" in
                match windowsTimezones !! tzwin with
                | Some tz => ret (tz, None)
                | None => ret ("", Some ("windows timezone '" +:+ tzwin +:+ "' not found"))
                end
            end
        end
    end.

End name.

End Windows.

(** ** [timezone.go]: the other platforms *)

Module Other.

(** [Name] always return an error as it's not implemented yet for current
    os. *)
Definition Name (GOOS : string) : IO (string * error) :=
  ret ("", Some ("name not implemented for '" +:+ GOOS +:+ "'")).

(** The stub of the unnamed source file, with a fixed message. *)
Definition Name_plain : IO (string * error) :=
  ret ("", Some "name not implemented").

End Other.

(** * The specification's words

    Definitions that follow the sentences of the specification, to be
    compared with the functions above. *)

Module Spec.

(** A canonical identifier: a name, not the empty string, that is a key of
    the table of the time zones. *)
Definition canonical (timezones : gmap string string) (zone : string) : Prop :=
  zone <> "" /\ is_Some (timezones !! zone).

(** The depth of the zone database root: the number of segments of its
    path. *)
Definition depth (root : string) : nat := length (strings.Split root slash).

(** A candidate joined under the root and resolved to its real path; [None]
    when it cannot be resolved. *)
Definition resolve (w : World) (root tzname : string) : option string :=
  match real_path w (filepath.Join [root; tzname]) with
  | Ok path => Some path
  | Err _ => None
  end.

Definition survivors (w : World) (root : string) (candidates : list string) : list string :=
  omap (resolve w root) candidates.

(** The identifier of a real path: the leading components, as many as the
    root has segments, dropped, the remainder joined by slashes. *)
Definition identifier (root path : string) : string :=
  strings.Join (drop (depth root) (strings.Split path slash)) slash.

(** Duplicates removed, the first of each kept in its place. *)
Fixpoint distinct (l : list string) : list string :=
  match l with
  | [] => []
  | x :: l' => x :: filter (fun y => y <> x) (distinct l')
  end.

Definition identifiers (w : World) (root : string) (candidates : list string) : list string :=
  distinct (identifier root <$> survivors w root candidates).

(** A real path with fewer components than the root has segments. *)
Definition shallow (root path : string) : Prop :=
  (length (strings.Split path slash) < depth root)%nat.

#[global] Instance shallow_dec root path : Decision (shallow root path).
Proof. unfold shallow. apply _. Defined.

End Spec.

(** * The functions' values

    The value of a loop body when the world is fixed, for use in the
    proofs. *)

Module Value.

(** The step of the loop of [resolveTimezones]. *)
Definition resolve_step (w : World) (root : string) (filtered : list string) (tzname : string)
  : exec (list string) :=
  match Spec.resolve w root tzname with
  | None => Ret filtered
  | Some path =>
      parts <-! slice_from (strings.Split path slash) (len (strings.Split root slash)) ;;
      Ret (Unix.appendIfMissing filtered (strings.Join parts slash))
  end.

(** The pieces of a split at a character, when the text grows by one
    character in front. *)
Definition cons_first (a : ascii) (pieces : list string) : list string :=
  match pieces with
  | [] => [String a ""]
  | piece :: pieces' => String a piece :: pieces'
  end.

(** The step of the loop of [parseFromClock] over the names of the groups:
    the text of group [i] goes into the map under its name. *)
Definition params_step (match_ : list string) (paramsMap : gmap string string)
    (group : Z * string) : exec (gmap string string) :=
  let '(i, name) := group in
  if bool_decide (i > 0)%Z && bool_decide (i <= len match_)%Z
  then v <-! index match_ i ;; Ret (<[name := v]> paramsMap)
  else Ret paramsMap.

End Value.

Module SpecMessage.

(** Each identifier on a line of its own. *)
Fixpoint listing (ids : list string) : string :=
  match ids with
  | [] => ""
  | v :: ids' => v +:+ LF +:+ listing ids'
  end.

(** The text of the conflict error. *)
Definition conflict_message (ids : list string) : string :=
  "multiple conflicting time zone configurations found:" +:+ LF
  +:+ listing ids
  +:+ "Fix the configuration, or set the time zone in a TZ environment variable".

End SpecMessage.

Module SpecOutcome.

(** A candidate that cannot be resolved under the root. *)
Definition unresolvable (w : World) (root tzname : string) : Prop :=
  Spec.resolve w root tzname = None.

End SpecOutcome.

(** * Worlds and tables to run the functions in *)

Module Example.

(** A table with three of the canonical identifiers. *)
Definition timezones : gmap string string :=
  {[ "UTC" := "UTC";
     "America/Sao_Paulo" := "America/Sao_Paulo";
     "Africa/Harare" := "Africa/Harare" ]}.

(** A table with two of the names of Windows and their zones. *)
Definition windowsTimezones : gmap string string :=
  {[ "W. Europe Standard Time" := "Europe/Berlin";
     "UTC" := "Etc/UTC" ]}.

(** Nothing set, nothing on disk, no registry. *)
Definition bare : World := {|
  env := fun _ => "";
  file_data := fun _ => Err ErrNotExist;
  open_data := fun _ => Err ErrNotExist;
  lstat_mode := fun _ => Err ErrNotExist;
  link_target := fun _ => Err ErrNotExist;
  stat_err := fun _ => Some ErrNotExist;
  real_path := fun _ => Err ErrNotExist;
  registry_key := fun _ => Err ErrNotExist;
  registry_string := fun _ _ => Err ErrNotExist
|}.

(** The directories and zone files of the zone database: each is its own
    real path, but for [UTC], a link to [Etc/UTC]. *)
Definition zone_files : list string :=
  [ "/usr"; "/usr/share"; "/usr/share/zoneinfo";
    "/usr/share/zoneinfo/America/Sao_Paulo";
    "/usr/share/zoneinfo/America/Los_Angeles";
    "/usr/share/zoneinfo/Africa/Harare";
    "/usr/share/zoneinfo/Etc/UTC" ].

Definition zone_real_path (path : string) : result string :=
  if bool_decide (path = "/usr/share/zoneinfo/UTC") then Ok "/usr/share/zoneinfo/Etc/UTC"
  else if bool_decide (path ∈ zone_files) then Ok path
  else Err ErrNotExist.

(** A machine with the zone database and nothing else. *)
Definition zonedb : World := {|
  env := fun _ => "";
  file_data := fun _ => Err ErrNotExist;
  open_data := fun _ => Err ErrNotExist;
  lstat_mode := fun _ => Err ErrNotExist;
  link_target := fun _ => Err ErrNotExist;
  stat_err := fun path => if bool_decide (path ∈ zone_files) then None else Some ErrNotExist;
  real_path := zone_real_path;
  registry_key := fun _ => Err ErrNotExist;
  registry_string := fun _ _ => Err ErrNotExist
|}.

(** A machine whose [/usr/share/zoneinfo] is a link to the directory [/tz],
    with the zone files [UTC] and [Etc/UTC] in it. *)
Definition linked_real_path (path : string) : result string :=
  if bool_decide (path = "/usr/share/zoneinfo") then Ok "/tz"
  else if bool_decide (path = "/usr/share/zoneinfo/UTC") then Ok "/tz/UTC"
  else if bool_decide (path = "/usr/share/zoneinfo/Etc/UTC") then Ok "/tz/Etc/UTC"
  else Err ErrNotExist.

Definition linked : World := {|
  env := fun _ => "";
  file_data := fun _ => Err ErrNotExist;
  open_data := fun _ => Err ErrNotExist;
  lstat_mode := fun _ => Err ErrNotExist;
  link_target := fun _ => Err ErrNotExist;
  stat_err := fun _ => Some ErrNotExist;
  real_path := linked_real_path;
  registry_key := fun _ => Err ErrNotExist;
  registry_string := fun _ _ => Err ErrNotExist
|}.

(** The same machine with [TZ] set. *)
Definition with_TZ (value : string) (w : World) : World := {|
  env := fun key => if bool_decide (key = "TZ") then value else env w key;
  file_data := file_data w;
  open_data := open_data w;
  lstat_mode := lstat_mode w;
  link_target := link_target w;
  stat_err := stat_err w;
  real_path := real_path w;
  registry_key := registry_key w;
  registry_string := registry_string w
|}.

(** The same machine with a file at [name], readable and openable. *)
Definition with_file (name data : string) (w : World) : World := {|
  env := env w;
  file_data := fun path => if bool_decide (path = name) then Ok data else file_data w path;
  open_data := fun path => if bool_decide (path = name) then Ok data else open_data w path;
  lstat_mode := lstat_mode w;
  link_target := link_target w;
  stat_err := stat_err w;
  real_path := real_path w;
  registry_key := registry_key w;
  registry_string := registry_string w
|}.

(** The same machine with something at [name], for [os.Stat]. *)
Definition with_existing (name : string) (w : World) : World := {|
  env := env w;
  file_data := file_data w;
  open_data := open_data w;
  lstat_mode := lstat_mode w;
  link_target := link_target w;
  stat_err := fun path => if bool_decide (path = name) then None else stat_err w path;
  real_path := real_path w;
  registry_key := registry_key w;
  registry_string := registry_string w
|}.

(** The same machine with a symbolic link at [name] to [target]. *)
Definition with_link (name target : string) (w : World) : World := {|
  env := env w;
  file_data := file_data w;
  open_data := open_data w;
  lstat_mode := fun path =>
    if bool_decide (path = name) then Ok (Z.lor os.ModeSymlink 511) else lstat_mode w path;
  link_target := fun path => if bool_decide (path = name) then Ok target else link_target w path;
  stat_err := stat_err w;
  real_path := real_path w;
  registry_key := registry_key w;
  registry_string := registry_string w
|}.

(** The same machine with a value of the registry under the key of the time
    zone information. *)
Definition with_registry (name value : string) (w : World) : World := {|
  env := env w;
  file_data := file_data w;
  open_data := open_data w;
  lstat_mode := lstat_mode w;
  link_target := link_target w;
  stat_err := stat_err w;
  real_path := real_path w;
  registry_key := fun path =>
    if bool_decide (path = Windows.key_path) then Ok tt else registry_key w path;
  registry_string := fun path key =>
    if bool_decide (path = Windows.key_path /\ key = name) then Ok value
    else registry_string w path key
|}.

(** A machine whose [/etc/timezone] and [/etc/localtime] name two zones. *)
Definition disagreeing : World :=
  with_link "/etc/localtime" "/usr/share/zoneinfo/Africa/Harare"
    (with_file "/etc/timezone" ("America/Sao_Paulo" +:+ LF) zonedb).

(** A text doubled [n] times. *)
Fixpoint doubled (n : nat) (s : string) : string :=
  match n with
  | O => s
  | S n' => doubled n' (s +:+ s)
  end.

(** A clock file whose first line has 65536 letters, and whose second line
    is a setting. *)
Definition long_line : string := doubled 16 "a".
Definition clock_after_long_line : string :=
  long_line +:+ LF +:+ "ZONE=" +:+ quote +:+ "UTC" +:+ quote +:+ LF.

End Example.

Module SpecReturn.

(** A returned pair is sound when an error comes with the empty string, and
    a non-empty identifier with no error. *)
Definition sound (r : exec (string * error)) : Prop :=
  forall (name : string) (err : error),
    r = Ret (name, err) ->
    (err <> None -> name = "") /\ (name <> "" -> err = None).

End SpecReturn.

(** * What a call reads *)

Module Reads.

(** The answer of the world to one read. *)
Inductive Answer : Type :=
| AString (s : string)
| AData (r : result string)
| AMode (r : result Z)
| AStat (e : option oserror)
| AKey (r : result unit).

Definition observe (w : World) (e : Event) : Answer :=
  match e with
  | EvGetenv key => AString (env w key)
  | EvReadFile name => AData (file_data w name)
  | EvOpen name => AData (open_data w name)
  | EvLstat name => AMode (lstat_mode w name)
  | EvReadlink name => AData (link_target w name)
  | EvStat name => AStat (stat_err w name)
  | EvRealpath path => AData (real_path w path)
  | EvOpenKey path => AKey (registry_key w path)
  | EvGetStringValue path name => AData (registry_string w path name)
  end.

(** Two worlds agree on a trace when they answer each of its reads alike. *)
Definition agree (w1 w2 : World) (trace : list Event) : Prop :=
  Forall (fun e => observe w1 e = observe w2 e) trace.

(** A computation is determined by its reads when a world that agrees with
    [w1] on what the computation reads in [w1] gives the same outcome and
    the same trace. *)
Definition determined {A} (m : IO A) : Prop :=
  forall w1 w2 : World, agree w1 w2 (snd (m w1)) -> m w2 = m w1.

(** Two calls, one after the other, in the same world. *)
Definition twice {A} (m : IO A) : IO (A * A) :=
  first <- m ;; second <- m ;; ret (first, second).

End Reads.

(** * The probes, in the words of the specification *)

Module SpecConfig.

(** The text before the first [c]; all of it when there is none. *)
Fixpoint before (c : ascii) (s : string) : string :=
  match s with
  | EmptyString => EmptyString
  | String a s' => if Ascii.eqb a c then EmptyString else String a (before c s')
  end.

(** Each space turned into an underscore. *)
Fixpoint underscores (s : string) : string :=
  match s with
  | EmptyString => EmptyString
  | String a s' => String (if Ascii.eqb a " " then "_"%char else a) (underscores s')
  end.

(** The content without the slashes and the white space around it. *)
Definition stripped (content : string) : string :=
  strings.Trim content (slash +:+ space +:+ TAB +:+ CR +:+ LF).

(** The lines of a text, ended by LF or CR LF. *)
Definition lines (text : string) : list string :=
  strings.Split (strings.ReplaceAll text (CR +:+ LF) LF) LF.

(** What a line gives: nothing, or its name. *)
Definition entry (line : string) : list string :=
  let name := strings.TrimSpace (before "#" (before " " line)) in
  if bool_decide (name = "") then [] else [underscores name].

Definition entries (content : string) : list string :=
  flat_map entry (lines (stripped content)).

(** What the probe gives for a list of files: the entries of each file that
    can be read, in order. *)
Definition probe (w : World) (paths : list string) : list string :=
  flat_map (fun path => match file_data w path with
                        | Ok content => entries content
                        | Err _ => []
                        end) paths.

End SpecConfig.

Module SpecClock.

Import regexp.

Fixpoint all (p : ascii -> bool) (s : string) : bool :=
  match s with
  | EmptyString => true
  | String c s' => p c && all p s'
  end.

(** [s] without its longest prefix of characters of [p]. *)
Fixpoint skip (p : ascii -> bool) (s : string) : string :=
  match s with
  | EmptyString => EmptyString
  | String c s' => if p c then skip p s' else s
  end.

(** The rest of [s] after the literal [l], if [s] starts with it. *)
Definition after (l s : string) : option string :=
  if strings.HasPrefix s l then Some (strings.drop (String.length l) s) else None.

(** The text before the double quote that ends [s], when no line feed
    stands in it. *)
Fixpoint quoted (s : string) : option string :=
  match s with
  | EmptyString => None
  | String c s' =>
      match quoted s' with
      | Some value => if any_char_not_nl c then Some (String c value) else None
      | None => if bool_decide (s = quote) then Some "" else None
      end
  end.

Definition key_of (s : string) : option (string * string) :=
  match after "TIMEZONE" s with
  | Some rest => Some ("TIMEZONE", rest)
  | None =>
      match after "ZONE" s with
      | Some rest => Some ("ZONE", rest)
      | None => None
      end
  end.

(** The key and the value of a line that matches the pattern, read from
    left to right. *)
Definition setting (line : string) : option (string * string) :=
  match key_of (skip perl_space line) with
  | None => None
  | Some (key, s2) =>
      match after "=" (skip perl_space s2) with
      | None => None
      | Some s3 =>
          match after quote (skip perl_space s3) with
          | None => None
          | Some s4 =>
              match quoted s4 with
              | None => None
              | Some value => Some (key, value)
              end
          end
      end
  end.

(** The pattern as the specification words it: optional white space, the
    key TIMEZONE or ZONE, optional white space, the equals sign, optional
    white space, the value between double quotes. *)
Definition matches (line key value : string) : Prop :=
  exists ws1 ws2 ws3 : string,
    line = ws1 +:+ key +:+ ws2 +:+ "=" +:+ ws3 +:+ quote +:+ value +:+ quote
    /\ all perl_space ws1 = true
    /\ (key = "TIMEZONE" \/ key = "ZONE")
    /\ all perl_space ws2 = true
    /\ all perl_space ws3 = true
    /\ all any_char_not_nl value = true.

(** What a line gives: the value of a matching line, its spaces as
    underscores, unless it is empty. *)
Definition entry (line : string) : list string :=
  match setting line with
  | Some (_, value) =>
      if bool_decide (value = "") then [] else [SpecConfig.underscores value]
  | None => []
  end.

(** The lines of a file as they stand in it: the text between line feeds,
    and the text after the last line feed when there is some. *)
Fixpoint raw_lines_loop (fuel : nat) (data : string) : list string :=
  match fuel with
  | O => []
  | S fuel' =>
      match strings.Cut data LF with
      | Some (line, rest) => line :: raw_lines_loop fuel' rest
      | None => if bool_decide (data = "") then [] else [data]
      end
  end.

Definition raw_lines (data : string) : list string :=
  raw_lines_loop (S (String.length data)) data.

(** The lines of a file, each without a carriage return at its end. *)
Definition lines (data : string) : list string := bufio.dropCR <$> raw_lines data.

(** A line that fits the buffer of a scanner with its line feed. *)
Definition fits (line : string) : bool := (strings.len line <? bufio.MaxScanTokenSize)%Z.

(** The lines before the first that does not fit. *)
Fixpoint fitting (raw : list string) : list string :=
  match raw with
  | [] => []
  | line :: raw' => if fits line then line :: fitting raw' else []
  end.

(** The lines of a file that a scanner delivers. *)
Definition delivered (data : string) : list string :=
  bufio.dropCR <$> fitting (raw_lines data).

(** What the probe gives for a list of files: the entries of the lines
    delivered of each file that can be opened, in order. *)
Definition probe (w : World) (paths : list string) : list string :=
  flat_map (fun path => match open_data w path with
                        | Ok data => flat_map entry (delivered data)
                        | Err _ => []
                        end) paths.

(** The same from every line of each file. *)
Definition probe_all_lines (w : World) (paths : list string) : list string :=
  flat_map (fun path => match open_data w path with
                        | Ok data => flat_map entry (lines data)
                        | Err _ => []
                        end) paths.

End SpecClock.

Module SpecSymlink.

(** A file mode with the bit of a symbolic link, bit 27, set. *)
Definition is_symlink (mode : Z) : bool := Z.testbit mode 27.

(** The zone named by the target of a link: the text after the first
    [zoneinfo/], its spaces as underscores; the empty string when the target
    has no [zoneinfo/]. *)
Definition zone_of_target (target : string) : string :=
  match strings.Cut target "zoneinfo/" with
  | Some (_, after) => SpecConfig.underscores after
  | None => ""
  end.

(** What the probe gives for a path, and what it reads. *)
Definition probe (w : World) (path : string) : string * list Event :=
  match lstat_mode w path with
  | Err _ => ("", [EvLstat path])
  | Ok mode =>
      if is_symlink mode then
        match link_target w path with
        | Err _ => ("", [EvLstat path; EvReadlink path])
        | Ok target => (zone_of_target target, [EvLstat path; EvReadlink path])
        end
      else ("", [EvLstat path])
  end.

End SpecSymlink.

Module SpecEnv.

Section table.

Context (timezones : gmap string string).

(** The name that an absolute path of an existing file gives: its last two
    components joined by a slash when they are a key of the table, else its
    last component when that is one, else nothing. *)
Definition of_path (tzenv : string) : string :=
  let parts := strings.Split tzenv slash in
  let joined := strings.Join (drop (length parts - 2) parts) slash in
  if bool_decide (is_Some (timezones !! joined)) then joined
  else
    let name := default "" (last parts) in
    if bool_decide (is_Some (timezones !! name)) then name else "".

(** What the environment probe gives on Unix, and what it reads. *)
Definition probe (w : World) : string * list Event :=
  let tzenv := env w "TZ" in
  if bool_decide (tzenv = "") then ("", [EvGetenv "TZ"])
  else if bool_decide (is_Some (timezones !! tzenv)) then (tzenv, [EvGetenv "TZ"])
  else if filepath.IsAbs tzenv then
    (match stat_err w tzenv with
     | None => of_path tzenv
     | Some e => if os.IsExist e then of_path tzenv else ""
     end, [EvGetenv "TZ"; EvStat tzenv])
  else ("", [EvGetenv "TZ"]).

End table.

End SpecEnv.

Module SpecEntry.

(** The candidates of the entry point on Unix, in the order of the probes:
    the configuration files, the clock files, the link. *)
Definition candidates (w : World) : list string :=
  SpecConfig.probe w ["/etc/timezone"; "/var/db/zoneinfo"]
  ++ SpecClock.probe w ["/etc/sysconfig/clock"; "/etc/conf.d/clock"]
  ++ (let parsed := fst (SpecSymlink.probe w "/etc/localtime") in
      if bool_decide (parsed = "") then [] else [parsed]).

(** A raw candidate: not empty, and with no space in it. *)
Definition raw (candidate : string) : Prop :=
  candidate <> ""
  /\ SpecClock.all (fun c => negb (Ascii.eqb c " ")) candidate = true.

End SpecEntry.

(** * Paths and names of zones *)

Module SpecPath.

(** A text with no character [c] in it. *)
Definition free_of (c : ascii) (s : string) : bool :=
  SpecClock.all (fun a => negb (Ascii.eqb a c)) s.

(** A proper component of a path: not empty, neither [.] nor [..], and
    with no slash in it. *)
Definition component (e : string) : bool :=
  negb (String.eqb e "") && negb (String.eqb e ".") && negb (String.eqb e "..")
  && free_of "/" e.

(** A relative path of proper components, as [America/Sao_Paulo]. *)
Definition relative (path : string) : bool :=
  forallb component (strings.Split path slash).

(** An absolute path of proper components, as [/usr/share/zoneinfo]. *)
Definition absolute (path : string) : bool :=
  match path with
  | String c rest => Ascii.eqb c "/" && relative rest
  | EmptyString => false
  end.

End SpecPath.

Module SpecZone.

(** A visible ASCII character other than the number sign. *)
Definition plain (c : ascii) : bool :=
  let n := nat_of_ascii c in
  (33 <=? n)%nat && (n <=? 126)%nat && negb (n =? 35)%nat.

(** The name of a zone: a relative path of proper components, made of
    plain characters. *)
Definition name (zone : string) : bool :=
  SpecPath.relative zone && SpecClock.all plain zone.

(** The characters that the configuration file probe trims off a content. *)
Definition trim_cutset : string := slash +:+ space +:+ TAB +:+ CR +:+ LF.

End SpecZone.

Module SpecRegistry.

(** A text without its characters [c]. *)
Fixpoint without (c : ascii) (s : string) : string :=
  match s with
  | EmptyString => EmptyString
  | String a s' => if Ascii.eqb a c then without c s' else String a (without c s')
  end.

(** The zone of a name read from the registry: the zone of the name
    without its NUL bytes when the table has it, else the zone of that name
    with [Standard Time] after it, else an error that names the latter. *)
Definition zone_of (windowsTimezones : gmap string string) (value : string)
  : string * error :=
  let tzwin := without "000" value in
  match windowsTimezones !! tzwin with
  | Some tz => (tz, None)
  | None =>
      match windowsTimezones !! (tzwin +:+ " Standard Time") with
      | Some tz => (tz, None)
      | None => ("", Some ("windows timezone '" +:+ tzwin +:+ " Standard Time' not found"))
      end
  end.

End SpecRegistry.

(** * Properties *)

(** ** Running computations *)

Lemma bind_value {A B} (m : IO A) (k : A -> IO B) w :
  fst (bind m k w) = bind_exec (fst (m w)) (fun a => fst (k a w)).
Proof.
  unfold bind. destruct (m w) as [[a|] t1]; simpl; [|done].
  by destruct (k a w).
Qed.

Lemma bind_trace_ret {A B} (m : IO A) (k : A -> IO B) w a t1 :
  m w = (Ret a, t1) -> bind m k w = (fst (k a w), t1 ++ snd (k a w)).
Proof. intros Hm. unfold bind. rewrite Hm. by destruct (k a w). Qed.

Lemma bind_panic {A B} (m : IO A) (k : A -> IO B) w t1 :
  m w = (Panic, t1) -> bind m k w = (Panic, t1).
Proof. intros Hm. unfold bind. by rewrite Hm. Qed.

Lemma bind_ret {A B} (a : A) (k : A -> IO B) w : bind (ret a) k w = k a w.
Proof. unfold bind, ret. by destruct (k a w). Qed.

Lemma bind_lift_ret {A B} (a : A) (k : A -> IO B) w : bind (lift (Ret a)) k w = k a w.
Proof. apply bind_ret. Qed.

Lemma for_range_value {A S} (xs : list A) (acc : S) (body : S -> A -> IO S) w :
  fst (for_range xs acc body w) = for_exec xs acc (fun acc x => fst (body acc x w)).
Proof.
  revert acc. induction xs as [|x xs IH]; intros acc; simpl; [done|].
  rewrite bind_value. destruct (fst (body acc x w)); simpl; [apply IH | done].
Qed.

Lemma for_exec_app {A S} (xs ys : list A) (acc : S) (body : S -> A -> exec S) :
  for_exec (xs ++ ys) acc body = (acc' <-! for_exec xs acc body ;; for_exec ys acc' body).
Proof.
  revert acc. induction xs as [|x xs IH]; intros acc; simpl; [done|].
  destruct (body acc x); simpl; [apply IH | done].
Qed.

Lemma len_nil {A} : len (@nil A) = 0%Z.
Proof. done. Qed.

Lemma len_cons {A} (x : A) l : len (x :: l) = (1 + len l)%Z.
Proof. unfold len. simpl. lia. Qed.

Lemma len_nonneg {A} (l : list A) : (0 <= len l)%Z.
Proof. unfold len. lia. Qed.

Lemma index_0 {A} (x : A) l : index (x :: l) 0 = Ret x.
Proof.
  unfold index. rewrite bool_decide_true; [done|].
  rewrite len_cons. pose proof (len_nonneg l). lia.
Qed.

(** ** The resolver *)

Section resolver.

Import Unix Spec.

Lemma appendIfMissing_range_spec items slice s :
  appendIfMissing_range items slice s = if decide (s ∈ items) then slice else slice ++ [s].
Proof.
  induction items as [|item items IH]; cbn [appendIfMissing_range].
  - destruct (decide (s ∈ [])) as [Hin|]; [|done]. by apply not_elem_of_nil in Hin.
  - rewrite IH. case_bool_decide as Heq.
    + subst. destruct (decide (s ∈ s :: items)) as [|Hn]; [done|]. destruct Hn. left.
    + destruct (decide (s ∈ items)) as [Hin|Hin].
      * rewrite decide_True; [done | by right].
      * rewrite decide_False; [done|]. intros [->|?]%elem_of_cons; done.
Qed.

Lemma appendIfMissing_spec slice s :
  appendIfMissing slice s = if decide (s ∈ slice) then slice else slice ++ [s].
Proof. apply appendIfMissing_range_spec. Qed.

Lemma distinct_filter (P : string -> Prop) `{!forall x, Decision (P x)} l :
  distinct (filter P l) = filter P (distinct l).
Proof.
  induction l as [|x l IH]; [done|]. cbn [distinct].
  rewrite !filter_cons. destruct (decide (P x)) as [Hx|Hx]; cbn [distinct].
  - f_equal. rewrite IH, !list_filter_filter. apply list_filter_iff. intros y. tauto.
  - rewrite IH, list_filter_filter. apply list_filter_iff.
    intros y. split; [|tauto]. intros Hy. split; [done|]. by intros ->.
Qed.

Lemma elem_of_distinct x l : x ∈ distinct l <-> x ∈ l.
Proof.
  induction l as [|y l IH]; [done|]. cbn [distinct].
  rewrite !elem_of_cons, list_elem_of_filter, IH.
  destruct (decide (x = y)); tauto.
Qed.

Lemma NoDup_distinct l : NoDup (distinct l).
Proof.
  induction l as [|x l IH]; cbn [distinct]; [constructor|].
  constructor; [|by apply NoDup_filter].
  rewrite list_elem_of_filter. tauto.
Qed.

(** The accumulation of [appendIfMissing] over a list is [distinct]. *)
Lemma foldl_appendIfMissing l acc :
  foldl appendIfMissing acc l = acc ++ distinct (filter (fun y => y ∉ acc) l).
Proof.
  revert acc. induction l as [|x l IH]; intros acc; cbn [foldl].
  - by rewrite filter_nil, app_nil_r.
  - rewrite IH, appendIfMissing_spec, filter_cons.
    destruct (decide (x ∈ acc)) as [Hin|Hin].
    + rewrite decide_False; [done | tauto].
    + rewrite decide_True by done. cbn [distinct]. rewrite <- app_assoc. cbn [app]. do 2 f_equal.
      rewrite <- distinct_filter, list_filter_filter. f_equal.
      apply list_filter_iff. intros y. rewrite elem_of_app, list_elem_of_singleton.
      tauto.
Qed.

Lemma for_exec_ext {A S} (xs : list A) (acc : S) (f g : S -> A -> exec S) :
  (forall acc x, f acc x = g acc x) -> for_exec xs acc f = for_exec xs acc g.
Proof.
  intros Hfg. revert acc. induction xs as [|x xs IH]; intros acc; simpl; [done|].
  rewrite Hfg. destruct (g acc x); simpl; [apply IH | done].
Qed.

Lemma filter_all {A} (P : A -> Prop) `{!forall x, Decision (P x)} (l : list A) :
  (forall x, P x) -> filter P l = l.
Proof.
  intros HP. induction l as [|x l IH]; [done|].
  rewrite filter_cons_True by done. by rewrite IH.
Qed.

Lemma foldl_appendIfMissing_nil l : foldl appendIfMissing [] l = distinct l.
Proof.
  rewrite foldl_appendIfMissing. cbn [app].
  rewrite filter_all; [done|]. intros x. apply not_elem_of_nil.
Qed.

Lemma resolve_range_value w tzs root :
  fst (resolve_range tzs root w) = for_exec tzs [] (Value.resolve_step w root).
Proof.
  unfold resolve_range. rewrite for_range_value. apply for_exec_ext.
  intros filtered tzname. rewrite bind_value. unfold Value.resolve_step, resolve.
  cbn [realpath.Realpath read fst bind_exec].
  destruct (real_path w _) as [path|e]; [|done].
  rewrite bind_value. cbn [lift fst]. unfold os.PathSeparator.
  by destruct (slice_from _ _).
Qed.

Lemma slice_from_deep {A B} (l : list A) (l' : list B) :
  (length l' <= length l)%nat -> slice_from l (len l') = Ret (drop (length l') l).
Proof.
  intros Hn. unfold slice_from, len. rewrite bool_decide_true by lia.
  by rewrite Nat2Z.id.
Qed.

Lemma slice_from_shallow {A B} (l : list A) (l' : list B) :
  (length l < length l')%nat -> slice_from l (len l') = Panic.
Proof. intros Hn. unfold slice_from, len. rewrite bool_decide_false by lia. done. Qed.

Lemma resolve_steps_deep w root tzs acc :
  Forall (fun path => ~ shallow root path) (survivors w root tzs) ->
  for_exec tzs acc (Value.resolve_step w root)
  = Ret (foldl appendIfMissing acc (identifier root <$> survivors w root tzs)).
Proof.
  revert acc. induction tzs as [|tz tzs IH]; intros acc Hdeep; [done|].
  cbn [for_exec]. unfold survivors in *. cbn [omap list_omap] in *.
  unfold Value.resolve_step at 1. destruct (resolve w root tz) as [path|]; cbn [bind_exec].
  - apply Forall_cons in Hdeep as [Hpath Hdeep].
    rewrite slice_from_deep by (unfold shallow, depth in Hpath; lia).
    cbn [bind_exec fmap list_fmap foldl]. by apply IH.
  - by apply IH.
Qed.

Lemma resolve_steps_shallow w root tzs acc :
  Exists (shallow root) (survivors w root tzs) ->
  for_exec tzs acc (Value.resolve_step w root) = Panic.
Proof.
  revert acc. induction tzs as [|tz tzs IH]; intros acc Hsh.
  { by apply Exists_nil in Hsh. }
  cbn [for_exec]. unfold survivors in *. cbn [omap list_omap] in *.
  unfold Value.resolve_step at 1. destruct (resolve w root tz) as [path|]; cbn [bind_exec].
  - destruct (decide (shallow root path)) as [Hpath|Hpath].
    + by rewrite slice_from_shallow.
    + rewrite slice_from_deep by (unfold shallow, depth in Hpath; lia).
      cbn [bind_exec]. apply IH. apply Exists_cons in Hsh as [?|?]; done.
  - by apply IH.
Qed.

(** The loop ends without panic exactly when no survivor is shallow, and
    then holds the distinct identifiers, in the order they were seen
    first. *)
Lemma resolve_range_identifiers w tzs root ids :
  fst (resolve_range tzs root w) = Ret ids <->
  Forall (fun path => ~ shallow root path) (survivors w root tzs)
  /\ ids = identifiers w root tzs.
Proof.
  rewrite resolve_range_value.
  destruct (decide (Exists (shallow root) (survivors w root tzs))) as [Hsh|Hdeep].
  - rewrite resolve_steps_shallow by done. split; [done|].
    intros [Hdeep _]. apply Exists_exists in Hsh as (path & Hin & Hpath).
    rewrite Forall_forall in Hdeep. by destruct (Hdeep path Hin).
  - apply not_Exists_Forall in Hdeep; [|apply _].
    rewrite resolve_steps_deep by done. rewrite foldl_appendIfMissing_nil.
    unfold identifiers. split; [intros [= <-] | intros [_ ->]]; done.
Qed.

Lemma string_app_cons (x : ascii) (a b : string) : String x a +:+ b = String x (a +:+ b).
Proof. reflexivity. Qed.

Lemma string_app_nil_l (a : string) : "" +:+ a = a.
Proof. reflexivity. Qed.

Lemma string_app_assoc (a b c : string) : (a +:+ b) +:+ c = a +:+ (b +:+ c).
Proof.
  induction a as [|x a IH]; [done|]. rewrite !string_app_cons. by f_equal.
Qed.

Lemma string_app_nil_r (a : string) : a +:+ "" = a.
Proof.
  induction a as [|x a IH]; [done|]. rewrite string_app_cons. by f_equal.
Qed.

Lemma fold_left_listing ids header :
  fold_left (fun message v => message +:+ fmt.Sprintf_s_LF v) ids header
  = header +:+ SpecMessage.listing ids.
Proof.
  revert header. induction ids as [|v ids IH]; intros header; simpl.
  - by rewrite string_app_nil_r.
  - rewrite IH. unfold fmt.Sprintf_s_LF. by rewrite !string_app_assoc.
Qed.

Lemma resolveTimezones_value w tzs root :
  fst (resolveTimezones tzs root w)
  = match tzs with
    | [] => Ret ("", None)
    | [tz] => Ret (tz, None)
    | _ =>
        filtered <-! fst (resolve_range tzs root w) ;;
        match filtered with
        | [] => Ret ("", None)
        | [id] => Ret (id, None)
        | _ => Ret ("", Some (SpecMessage.conflict_message filtered))
        end
    end.
Proof.
  unfold resolveTimezones. destruct tzs as [|tz [|tz' tzs]]; [done | done |].
  rewrite bool_decide_false by (rewrite !len_cons; pose proof (len_nonneg tzs); lia).
  rewrite bool_decide_false by (rewrite !len_cons; pose proof (len_nonneg tzs); lia).
  rewrite bind_value. destruct (fst (resolve_range _ _ _)) as [filtered|]; [|done].
  cbn [bind_exec]. destruct filtered as [|id [|id' filtered]]; [done | done |].
  rewrite bool_decide_false by (rewrite !len_cons; pose proof (len_nonneg filtered); lia).
  rewrite bool_decide_true by (rewrite !len_cons; pose proof (len_nonneg filtered); lia).
  cbn [ret fst errors.New]. rewrite fold_left_listing.
  unfold SpecMessage.conflict_message, conflict_header, conflict_advice.
  by rewrite !string_app_assoc.
Qed.

(** C3: with exactly one candidate the resolver returns it as it is, with
    no error, and reads nothing of the world: the trace of its events is
    empty.  So the outcome is the same in every world, also in one where the
    candidate does not resolve. *)
Theorem resolveTimezones_single_candidate (w : World) (tzname root : string) :
  resolveTimezones [tzname] root w = (Ret (tzname, None), [])
  /\ (forall w' : World,
        SpecOutcome.unresolvable w' root tzname ->
        resolveTimezones [tzname] root w' = resolveTimezones [tzname] root w).
Proof.
  assert (forall w0, resolveTimezones [tzname] root w0 = (Ret (tzname, None), [])) as Hone.
  { intros w0. unfold resolveTimezones.
    rewrite bool_decide_false by (rewrite len_cons, len_nil; lia).
    rewrite bool_decide_true by (rewrite len_cons, len_nil; lia).
    by rewrite index_0, bind_lift_ret. }
  split; [apply Hone|]. intros w' _. by rewrite !Hone.
Qed.

(** X24: with two or more candidates, when the loop over them ends with two
    or more identifiers (it ends unless a candidate resolves to a path with
    fewer components than the root, see [resolve_range_identifiers]), these
    are the distinct identifiers of the candidates that resolve, and the
    resolver fails with the error whose message is the header line, each
    identifier on a line of its own, and the closing advice. *)
Theorem resolveTimezones_conflict (w : World) (tzs : list string) (root : string)
    (ids : list string) :
  (2 <= length tzs)%nat ->
  fst (resolve_range tzs root w) = Ret ids ->
  (2 <= length ids)%nat ->
  ids = identifiers w root tzs
  /\ NoDup ids
  /\ fst (resolveTimezones tzs root w) = Ret ("", Some (SpecMessage.conflict_message ids))
  /\ SpecMessage.conflict_message ids
     = "multiple conflicting time zone configurations found:" +:+ LF
       +:+ SpecMessage.listing ids
       +:+ "Fix the configuration, or set the time zone in a TZ environment variable".
Proof.
  intros Htzs Hrange Hids.
  pose proof (proj1 (resolve_range_identifiers _ _ _ _) Hrange) as [_ Heq].
  split; [done|]. split; [subst ids; apply NoDup_distinct|]. split; [|done].
  rewrite resolveTimezones_value, Hrange.
  destruct tzs as [|tz [|tz' tzs]]; [simpl in Htzs; lia | simpl in Htzs; lia |].
  cbn [bind_exec]. destruct ids as [|id [|id' ids]]; [simpl in Hids; lia | simpl in Hids; lia | done].
Qed.

(** C2: two or more distinct identifiers that survive do not always give
    the conflict error.  When two candidates resolve to real paths with two
    distinct identifiers and another candidate resolves to a real path with
    fewer components than the root has segments, the slice expression of
    the loop is out of range for the latter and the resolver panics: it
    returns no error and no message. *)
Theorem resolveTimezones_conflict_panics (w : World) (tzs : list string) (root : string)
    (path1 path2 : string) :
  (2 <= length tzs)%nat ->
  path1 ∈ survivors w root tzs ->
  path2 ∈ survivors w root tzs ->
  ~ shallow root path1 ->
  ~ shallow root path2 ->
  identifier root path1 <> identifier root path2 ->
  Exists (shallow root) (survivors w root tzs) ->
  fst (resolveTimezones tzs root w) = Panic
  /\ (forall message : string,
        fst (resolveTimezones tzs root w) <> Ret ("", Some message)).
Proof.
  intros Hlen _ _ _ _ _ Hshallow.
  assert (fst (resolveTimezones tzs root w) = Panic) as Hpanic.
  { rewrite resolveTimezones_value, resolve_range_value.
    rewrite resolve_steps_shallow by done.
    destruct tzs as [|tz [|tz' tzs]]; [simpl in Hlen; lia | simpl in Hlen; lia | done]. }
  split; [done|]. intros message. by rewrite Hpanic.
Qed.

Lemma resolveTimezones_conflict_panics_witness :
  fst (resolveTimezones ["America/Sao_Paulo"; "Africa/Harare"; ".."] "/usr/share/zoneinfo"
         Example.zonedb) = Panic
  /\ (forall message : string,
        fst (resolveTimezones ["America/Sao_Paulo"; "Africa/Harare"; ".."]
               "/usr/share/zoneinfo" Example.zonedb)
        <> Ret ("", Some message)).
Proof.
  apply (resolveTimezones_conflict_panics Example.zonedb
           ["America/Sao_Paulo"; "Africa/Harare"; ".."] "/usr/share/zoneinfo"
           "/usr/share/zoneinfo/America/Sao_Paulo" "/usr/share/zoneinfo/Africa/Harare").
  - simpl. lia.
  - apply (bool_decide_unpack _). vm_compute. exact I.
  - apply (bool_decide_unpack _). vm_compute. exact I.
  - apply (bool_decide_unpack _). vm_compute. exact I.
  - apply (bool_decide_unpack _). vm_compute. exact I.
  - apply (bool_decide_unpack _). vm_compute. exact I.
  - apply (bool_decide_unpack _). vm_compute. exact I.
Defined.

Lemma survivors_nil w root tzs :
  survivors w root tzs = [] <-> Forall (SpecOutcome.unresolvable w root) tzs.
Proof.
  unfold survivors, SpecOutcome.unresolvable.
  induction tzs as [|tz tzs IH]; cbn [omap list_omap].
  - split; [constructor | done].
  - rewrite Forall_cons. destruct (resolve w root tz); [|by rewrite IH; intuition].
    split; [done | intros [? _]; done].
Qed.

Lemma distinct_nil l : distinct l = [] <-> l = [].
Proof. destruct l; [done | split; discriminate]. Qed.

Lemma identifiers_nil w root tzs :
  identifiers w root tzs = [] <-> Forall (SpecOutcome.unresolvable w root) tzs.
Proof.
  unfold identifiers. rewrite distinct_nil, <- survivors_nil.
  destruct (survivors w root tzs); [done | split; discriminate].
Qed.

(** C4, as the code has it: the resolver returns the empty string with no
    error when the list is empty and when, of two or more candidates, none
    resolves; and besides only when the one candidate is the empty string
    itself, or when the one identifier left of two or more candidates is the
    empty string. *)
Theorem resolveTimezones_empty_result (w : World) (tzs : list string) (root : string) :
  fst (resolveTimezones tzs root w) = Ret ("", None) <->
    tzs = []
    \/ ((2 <= length tzs)%nat /\ Forall (SpecOutcome.unresolvable w root) tzs)
    \/ tzs = [""]
    \/ ((2 <= length tzs)%nat /\ fst (resolve_range tzs root w) = Ret [""]).
Proof.
  rewrite resolveTimezones_value.
  destruct tzs as [|tz [|tz' tzs]].
  - split; [by left | done].
  - split.
    + intros [= ->]. by right; right; left.
    + intros [?|[[Hlen _]|[[= ->]|[Hlen _]]]]; [done | simpl in Hlen; lia | done | simpl in Hlen; lia].
  - assert (2 <= length (tz :: tz' :: tzs))%nat as Hlen by (simpl; lia).
    destruct (fst (resolve_range _ _ _)) as [ids|] eqn:Hrange; cbn [bind_exec].
    + pose proof (proj1 (resolve_range_identifiers _ _ _ _) Hrange) as [_ Hids].
      destruct ids as [|id [|id' ids]].
      * split; [|done]. intros _. right; left. split; [done|].
        by apply identifiers_nil.
      * split.
        -- intros [= ->]. by right; right; right.
        -- intros [?|[[_ Hun]|[?|[_ [= ->]]]]]; [done | | done | done].
           apply identifiers_nil in Hun. congruence.
      * split; [done|].
        intros [?|[[_ Hun]|[?|[_ ?]]]]; [done | | done | done].
        apply identifiers_nil in Hun. congruence.
    + split; [done|].
      intros [?|[[_ Hun]|[?|[_ ?]]]]; [done | | done | done].
      apply survivors_nil in Hun.
      assert (fst (resolve_range (tz :: tz' :: tzs) root w)
              = Ret (identifiers w root (tz :: tz' :: tzs))) as Heq; [|congruence].
      apply resolve_range_identifiers. split; [|done].
      rewrite Hun. constructor.
Qed.

(** C4 as stated, with exactly the two situations, does not hold: one
    candidate that is the empty string is returned as it is, the empty
    string with no error, and the list is neither empty nor of two or more
    candidates. *)
Lemma resolveTimezones_empty_result_single_candidate :
  ~ (forall (w : World) (tzs : list string) (root : string),
       fst (resolveTimezones tzs root w) = Ret ("", None) ->
       tzs = []
       \/ ((2 <= length tzs)%nat /\ Forall (SpecOutcome.unresolvable w root) tzs)).
Proof.
  intros Hall.
  destruct (Hall Example.bare [""] "/usr/share/zoneinfo" eq_refl) as [Hnil|[Hlen _]].
  - discriminate Hnil.
  - simpl in Hlen. lia.
Qed.

(** C1: the resolver does not return for every list and every root.  When
    a candidate resolves to a real path with fewer components than the root
    has segments, the slice expression of the loop is out of range and the
    resolver panics. *)
Theorem resolveTimezones_shallow_path_panics (w : World) (tzs : list string) (root : string) :
  (2 <= length tzs)%nat ->
  Exists (shallow root) (survivors w root tzs) ->
  fst (resolveTimezones tzs root w) = Panic.
Proof.
  intros Hlen Hshallow. rewrite resolveTimezones_value, resolve_range_value.
  rewrite resolve_steps_shallow by done.
  destruct tzs as [|tz [|tz' tzs]]; [simpl in Hlen; lia | simpl in Hlen; lia | done].
Qed.

Lemma resolveTimezones_shallow_path_panics_witness :
  fst (resolveTimezones [".."; ".."] "/usr/share/zoneinfo" Example.zonedb) = Panic
  /\ fst (resolveTimezones ["UTC"; "Etc/UTC"] "/usr/share/zoneinfo" Example.linked) = Panic.
Proof.
  split.
  - apply resolveTimezones_shallow_path_panics.
    + simpl. lia.
    + apply (bool_decide_unpack _). vm_compute. exact I.
  - apply resolveTimezones_shallow_path_panics.
    + simpl. lia.
    + apply (bool_decide_unpack _). vm_compute. exact I.
Defined.

Lemma distinct_sublist l : distinct l `sublist_of` l.
Proof.
  induction l as [|x l IH]; cbn [distinct]; [done|].
  apply sublist_skip. etrans; [apply sublist_filter | done].
Qed.

(** X1: the resolver on two or more candidates none of which resolves to a
    shallow path: the loop holds the distinct identifiers of the survivors
    in first-seen order, and one identifier alone is returned with no
    error. *)
Theorem resolveTimezones_unique (w : World) (tzs : list string) (root : string) :
  (2 <= length tzs)%nat ->
  Forall (fun path => ~ shallow root path) (survivors w root tzs) ->
  fst (resolve_range tzs root w) = Ret (identifiers w root tzs)
  /\ NoDup (identifiers w root tzs)
  /\ identifiers w root tzs `sublist_of` (identifier root <$> survivors w root tzs)
  /\ (forall id, id ∈ identifiers w root tzs <-> id ∈ (identifier root <$> survivors w root tzs))
  /\ (forall id, identifiers w root tzs = [id] ->
        fst (resolveTimezones tzs root w) = Ret (id, None)).
Proof.
  intros Hlen Hdeep.
  assert (fst (resolve_range tzs root w) = Ret (identifiers w root tzs)) as Hrange.
  { by apply resolve_range_identifiers. }
  split; [done|]. split; [apply NoDup_distinct|]. split; [apply distinct_sublist|].
  split; [intros id; apply elem_of_distinct|]. intros id Hid.
  rewrite resolveTimezones_value, Hrange, Hid.
  destruct tzs as [|tz [|tz' tzs]]; [simpl in Hlen; lia | simpl in Hlen; lia | done].
Qed.

Lemma resolveTimezones_unique_witness :
  fst (resolveTimezones ["UTC"; "Etc/UTC"] "/usr/share/zoneinfo" Example.zonedb)
  = Ret ("Etc/UTC", None).
Proof.
  refine (proj2 (proj2 (proj2 (proj2 (resolveTimezones_unique Example.zonedb
    ["UTC"; "Etc/UTC"] "/usr/share/zoneinfo" _ _)))) "Etc/UTC" _).
  - simpl. lia.
  - apply (bool_decide_unpack _). vm_compute. exact I.
  - vm_compute. reflexivity.
Defined.

Lemma resolveTimezones_conflict_witness :
  fst (resolveTimezones ["America/Sao_Paulo"; "America/Los_Angeles"; "Africa/Harare"]
         "/usr/share/zoneinfo" Example.zonedb)
  = Ret ("", Some (SpecMessage.conflict_message
                     ["America/Sao_Paulo"; "America/Los_Angeles"; "Africa/Harare"])).
Proof.
  refine (proj1 (proj2 (proj2 (resolveTimezones_conflict Example.zonedb
    ["America/Sao_Paulo"; "America/Los_Angeles"; "Africa/Harare"] "/usr/share/zoneinfo"
    ["America/Sao_Paulo"; "America/Los_Angeles"; "Africa/Harare"] _ _ _)))).
  - simpl. lia.
  - vm_compute. reflexivity.
  - simpl. lia.
Defined.

End resolver.

(** ** The entry point *)

Section entry.

Import Unix.

Context (timezones : gmap string string).

Lemma parseEnv_canonical (PathSeparator : string) (IsAbs : string -> bool) (w : World)
    (zone : string) :
  Spec.canonical timezones zone -> env w "TZ" = zone ->
  parseEnv timezones PathSeparator IsAbs w = (Ret zone, [EvGetenv "TZ"]).
Proof.
  intros [Hne Hkey] Henv. unfold parseEnv, bind, os.Getenv, read.
  rewrite Henv, bool_decide_false, bool_decide_true by done. done.
Qed.

(** C5: when [TZ] holds a canonical identifier, a key of the table,
    [Name] returns it with no error, and the one event of the call is the
    reading of [TZ]: no file is read or opened, no link is examined, no path
    is resolved, so that no probe and no resolver loop has run. *)
Theorem Name_TZ_canonical (w : World) (zone : string) :
  Spec.canonical timezones zone ->
  env w "TZ" = zone ->
  Name timezones w = (Ret (zone, None), [EvGetenv "TZ"]).
Proof.
  intros Hcanonical Henv. unfold Name.
  rewrite (bind_trace_ret _ _ w zone [EvGetenv "TZ"]) by by apply parseEnv_canonical.
  destruct Hcanonical as [Hne _]. by rewrite bool_decide_true.
Qed.

Lemma sound_no_error (name : string) : SpecReturn.sound (Ret (name, None)).
Proof. intros name' err [= <- <-]. split; [done | done]. Qed.

Lemma sound_empty_name (err : error) : SpecReturn.sound (Ret ("", err)).
Proof. intros name' err' [= <- <-]. split; [done | done]. Qed.

Lemma sound_panic : SpecReturn.sound Panic.
Proof. intros name err Heq. discriminate Heq. Qed.

Lemma sound_bind {A} (m : IO A) (k : A -> IO (string * error)) w :
  (forall a, SpecReturn.sound (fst (k a w))) -> SpecReturn.sound (fst (bind m k w)).
Proof.
  intros Hk. rewrite bind_value. destruct (fst (m w)); cbn [bind_exec]; [apply Hk | apply sound_panic].
Qed.

Lemma resolveTimezones_sound w tzs root : SpecReturn.sound (fst (resolveTimezones tzs root w)).
Proof.
  rewrite resolveTimezones_value. destruct tzs as [|tz [|tz' tzs]].
  - apply sound_no_error.
  - apply sound_no_error.
  - destruct (fst (resolve_range _ _ _)) as [[|id [|id' ids]]|]; cbn [bind_exec].
    + apply sound_no_error.
    + apply sound_no_error.
    + apply sound_empty_name.
    + apply sound_panic.
Qed.

Lemma Unix_Name_sound w : SpecReturn.sound (fst (Name timezones w)).
Proof.
  unfold Name. apply sound_bind. intros tzenv.
  case_bool_decide; [apply sound_no_error|].
  do 3 (apply sound_bind; intros ?). apply resolveTimezones_sound.
Qed.

Lemma Windows_Name_sound windowsTimezones IsAbs w :
  SpecReturn.sound (fst (Windows.Name timezones windowsTimezones IsAbs w)).
Proof.
  unfold Windows.Name. apply sound_bind. intros tzenv.
  case_bool_decide; [apply sound_no_error|].
  apply sound_bind. intros [[]|e]; [|apply sound_empty_name].
  apply sound_bind. intros [tzwin|e]; [|apply sound_empty_name].
  destruct (windowsTimezones !! _); [apply sound_no_error|].
  destruct (windowsTimezones !! _); [apply sound_no_error | apply sound_empty_name].
Qed.

(** C9: whatever [Name] returns, on Unix, on Windows and on the other
    platforms, and whatever the resolver returns, an error comes with the
    empty string and a non-empty identifier with no error. *)
Theorem error_comes_with_empty_name (windowsTimezones : gmap string string)
    (IsAbs : string -> bool) (GOOS : string) (w : World)
    (candidates : list string) (zoneinfo : string) :
  SpecReturn.sound (fst (Name timezones w))
  /\ SpecReturn.sound (fst (Windows.Name timezones windowsTimezones IsAbs w))
  /\ SpecReturn.sound (fst (Other.Name GOOS w))
  /\ SpecReturn.sound (fst (Other.Name_plain w))
  /\ SpecReturn.sound (fst (resolveTimezones candidates zoneinfo w)).
Proof.
  split; [apply Unix_Name_sound|].
  split; [apply Windows_Name_sound|].
  split; [apply sound_empty_name|].
  split; [apply sound_empty_name | apply resolveTimezones_sound].
Qed.

End entry.

Lemma Name_TZ_canonical_witness :
  Unix.Name Example.timezones (Example.with_TZ "America/Sao_Paulo" Example.zonedb)
  = (Ret ("America/Sao_Paulo", None), [EvGetenv "TZ"]).
Proof.
  apply Name_TZ_canonical.
  - split; [discriminate|]. apply (bool_decide_unpack _). vm_compute. exact I.
  - reflexivity.
Defined.

(** ** One call, one outcome *)

Section reads.

Import Reads.

Lemma determined_ret {A} (a : A) : determined (ret a).
Proof. by intros w1 w2 _. Qed.

Lemma determined_lift {A} (m : exec A) : determined (lift m).
Proof. by intros w1 w2 _. Qed.

Lemma determined_bind {A B} (m : IO A) (k : A -> IO B) :
  determined m -> (forall a, determined (k a)) -> determined (bind m k).
Proof.
  intros Hm Hk w1 w2. unfold bind.
  destruct (m w1) as [[a|] t1] eqn:Hm1.
  - destruct (k a w1) as [r t2] eqn:Hk1. cbn [snd]. intros Hagree.
    apply Forall_app in Hagree as [H1 H2].
    rewrite (Hm w1 w2), Hm1 by by rewrite Hm1.
    by rewrite (Hk a w1 w2), Hk1 by by rewrite Hk1.
  - cbn [snd]. intros Hagree. by rewrite (Hm w1 w2), Hm1 by by rewrite Hm1.
Qed.

Lemma determined_for_range {A S} (xs : list A) (acc : S) (body : S -> A -> IO S) :
  (forall acc x, determined (body acc x)) -> determined (for_range xs acc body).
Proof.
  intros Hbody. revert acc. induction xs as [|x xs IH]; intros acc; cbn [for_range].
  - apply determined_ret.
  - apply determined_bind; [apply Hbody | intros acc'; apply IH].
Qed.

Lemma determined_read {A} (e : Event) (f : World -> A) :
  (forall w1 w2, observe w1 e = observe w2 e -> f w1 = f w2) -> determined (read e f).
Proof.
  intros Hf w1 w2 Hagree. unfold read in *. cbn [snd] in Hagree.
  apply Forall_cons in Hagree as [He _]. by rewrite (Hf w1 w2 He).
Qed.

Lemma determined_Getenv key : determined (os.Getenv key).
Proof. apply determined_read. by intros w1 w2 [= ->]. Qed.

Lemma determined_ReadFile name : determined (os.ReadFile name).
Proof. apply determined_read. by intros w1 w2 [= ->]. Qed.

Lemma determined_Open name : determined (os.Open name).
Proof. apply determined_read. by intros w1 w2 [= ->]. Qed.

Lemma determined_Lstat name : determined (os.Lstat name).
Proof. apply determined_read. by intros w1 w2 [= ->]. Qed.

Lemma determined_Readlink name : determined (os.Readlink name).
Proof. apply determined_read. by intros w1 w2 [= ->]. Qed.

Lemma determined_Stat name : determined (os.Stat name).
Proof. apply determined_read. by intros w1 w2 [= ->]. Qed.

Lemma determined_Realpath path : determined (realpath.Realpath path).
Proof. apply determined_read. by intros w1 w2 [= ->]. Qed.

Lemma determined_OpenKey path : determined (registry.OpenKey path).
Proof. apply determined_read. by intros w1 w2 [= ->]. Qed.

Lemma determined_GetStringValue path name : determined (registry.GetStringValue path name).
Proof. apply determined_read. by intros w1 w2 [= ->]. Qed.

Create HintDb determined.
#[local] Hint Resolve determined_ret determined_lift determined_Getenv determined_ReadFile
  determined_Open determined_Lstat determined_Readlink determined_Stat determined_Realpath
  determined_OpenKey determined_GetStringValue : determined.

(** One step through a computation: a bind, a loop, a branch. *)
Ltac determined_step :=
  match goal with
  | |- determined (bind _ _) => apply determined_bind; [|intros ?]
  | |- determined (for_range _ _ _) => apply determined_for_range; intros ? ?
  | |- determined (if ?b then _ else _) => destruct b
  | |- determined (match ?x with _ => _ end) => destruct x
  | |- determined _ => solve [auto with determined]
  end.

Lemma determined_fileExists fp : determined (fileExists fp).
Proof. unfold fileExists. repeat determined_step. Qed.

Lemma determined_parseEnv timezones PathSeparator IsAbs :
  determined (parseEnv timezones PathSeparator IsAbs).
Proof.
  unfold parseEnv. pose proof determined_fileExists. repeat determined_step.
Qed.

Lemma determined_parseFromConfigFile paths : determined (Unix.parseFromConfigFile paths).
Proof. unfold Unix.parseFromConfigFile. repeat determined_step. Qed.

Lemma determined_parseFromClock paths : determined (Unix.parseFromClock paths).
Proof. unfold Unix.parseFromClock. repeat determined_step. Qed.

Lemma determined_parseSymlink path : determined (Unix.parseSymlink path).
Proof. unfold Unix.parseSymlink. repeat determined_step. Qed.

Lemma determined_resolveTimezones tzs zoneinfo : determined (Unix.resolveTimezones tzs zoneinfo).
Proof. unfold Unix.resolveTimezones, Unix.resolve_range. repeat determined_step. Qed.


End reads.


(** ** Strings *)

Section string_facts.

Import strings.

Lemma HasPrefix_char (c a : ascii) (s : string) :
  HasPrefix (String a s) (String c "") = Ascii.eqb c a.
Proof. cbn. destruct (Ascii.eqb c a); [by destruct s | done]. Qed.

Lemma Cut_char_cons (c a : ascii) (s : string) :
  Cut (String a s) (String c "")
  = if Ascii.eqb c a then Some ("", s)
    else match Cut s (String c "") with
         | Some (before, after) => Some (String a before, after)
         | None => None
         end.
Proof.
  cbn [Cut]. rewrite HasPrefix_char. by destruct (Ascii.eqb c a).
Qed.

Lemma Cut_char_nil (c : ascii) : Cut "" (String c "") = None.
Proof. done. Qed.

Lemma Index_Cut (s sep : string) :
  Index s sep = match Cut s sep with
                | Some (before, _) => len before
                | None => (-1)%Z
                end.
Proof.
  induction s as [|a s IH]; cbn [Index Cut].
  - by destruct (HasPrefix "" sep).
  - destruct (HasPrefix (String a s) sep); [done|].
    rewrite IH. destruct (Cut s sep) as [[before after]|]; [|done].
    unfold len. cbn [String.length].
    destruct (Z.ltb_spec (Z.of_nat (String.length before)) 0); lia.
Qed.

Lemma Contains_Cut (s sep : string) :
  Contains s sep = bool_decide (is_Some (Cut s sep)).
Proof.
  unfold Contains. rewrite Index_Cut. destruct (Cut s sep) as [[before after]|].
  - rewrite bool_decide_true by done. unfold len. apply Z.leb_le. lia.
  - rewrite bool_decide_false; [done|]. by intros [? ?].
Qed.

Lemma Cut_char_before (c : ascii) (s : string) :
  SpecConfig.before c s
  = match Cut s (String c "") with
    | Some (before, _) => before
    | None => s
    end.
Proof.
  induction s as [|a s IH]; [done|]. rewrite Cut_char_cons. cbn [SpecConfig.before].
  rewrite Ascii.eqb_sym. destruct (Ascii.eqb c a); [done|].
  rewrite IH. by destruct (Cut s (String c "")) as [[before after]|].
Qed.

(** The first piece of a split in two at a character is the text before
    it. *)
Lemma SplitN_2_first (c : ascii) (s : string) :
  (if Contains s (String c "") then index (SplitN s (String c "") 2) 0 else Ret s)
  = Ret (SpecConfig.before c s).
Proof.
  rewrite Contains_Cut, Cut_char_before. unfold SplitN. cbn [Z.eqb Z.ltb Z.compare].
  change (Z.to_nat 2 - 1)%nat with 1%nat. cbn [split_loop].
  destruct (Cut s (String c "")) as [[before after]|].
  - rewrite bool_decide_true by done. apply index_0.
  - rewrite bool_decide_false; [done|]. by intros [? ?].
Qed.

Lemma split_loop_char_cons (k : nat) (c a : ascii) (s : string) :
  split_loop (S k) (String a s) (String c "")
  = if Ascii.eqb c a then "" :: split_loop k s (String c "")
    else Value.cons_first a (split_loop (S k) s (String c "")).
Proof.
  cbn [split_loop]. rewrite Cut_char_cons. destruct (Ascii.eqb c a); [done|].
  by destruct (Cut s (String c "")) as [[before after]|].
Qed.

Lemma split_loop_nonempty (k : nat) (s sep : string) : split_loop k s sep <> [].
Proof. destruct k; cbn [split_loop]; [done|]. by destruct (Cut s sep) as [[? ?]|]. Qed.

Lemma Join_cons (e : string) (elems : list string) (sep : string) :
  elems <> [] -> Join (e :: elems) sep = e +:+ sep +:+ Join elems sep.
Proof. by destruct elems. Qed.

Lemma Join_cons_first (a : ascii) (pieces : list string) (sep : string) :
  pieces <> [] -> Join (Value.cons_first a pieces) sep = String a (Join pieces sep).
Proof.
  destruct pieces as [|piece [|piece' pieces]]; [done | done |]. intros _.
  cbn [Value.cons_first Join]. by rewrite string_app_cons.
Qed.

Lemma ReplaceAll_space (s : string) :
  ReplaceAll s space underscore = SpecConfig.underscores s.
Proof.
  unfold ReplaceAll, Split, SplitN. cbn [String.eqb Ascii.eqb Bool.eqb space underscore Z.eqb Z.ltb Z.compare].
  assert (forall k, (String.length s <= k)%nat ->
            Join (split_loop k s " ") "_" = SpecConfig.underscores s) as Hk; [|by apply Hk].
  induction s as [|a s IH]; intros k Hlen.
  - by destruct k.
  - destruct k as [|k]; [cbn in Hlen; lia|]. cbn [String.length] in Hlen.
    rewrite split_loop_char_cons. cbn [SpecConfig.underscores]. rewrite Ascii.eqb_sym.
    destruct (Ascii.eqb a " ").
    + rewrite Join_cons by apply split_loop_nonempty.
      rewrite string_app_nil_l. change ("_" +:+ ?x) with (String "_" x).
      f_equal. apply IH. lia.
    + rewrite Join_cons_first by apply split_loop_nonempty. f_equal. apply IH. lia.
Qed.

End string_facts.

(** ** The configuration file probe *)

Section config_file.

Import Unix.

Lemma config_line_entry (timezones : list string) (line : string) :
  config_line timezones line = Ret (timezones ++ SpecConfig.entry line).
Proof.
  unfold config_line, space, hash.
  rewrite SplitN_2_first. cbn [bind_exec].
  rewrite SplitN_2_first. cbn [bind_exec].
  unfold SpecConfig.entry.
  destruct (decide (strings.TrimSpace (SpecConfig.before "#" (SpecConfig.before " " line)) = ""))
    as [Heq|Hne].
  - rewrite Heq. by rewrite app_nil_r.
  - rewrite bool_decide_true, bool_decide_false by done.
    by rewrite <- ReplaceAll_space.
Qed.

Lemma for_exec_config_line (lines timezones : list string) :
  for_exec lines timezones config_line = Ret (timezones ++ flat_map SpecConfig.entry lines).
Proof.
  revert timezones. induction lines as [|line lines IH]; intros timezones; cbn [for_exec flat_map].
  - by rewrite app_nil_r.
  - rewrite config_line_entry. cbn [bind_exec]. rewrite IH. by rewrite app_assoc.
Qed.

Lemma parseFromConfigFile_from (w : World) (paths timezones : list string) :
  for_range paths timezones (fun timezones configfile =>
    data <- os.ReadFile configfile ;;
    match data with
    | Err _ => ret timezones
    | Ok data =>
        let etctz := strings.Trim data (slash +:+ space +:+ TAB +:+ CR +:+ LF) in
        if bool_decide (etctz = "") then ret timezones
        else
          let lines := strings.Split (strings.ReplaceAll etctz (CR +:+ LF) LF) LF in
          lift (for_exec lines timezones config_line)
    end) w
  = (Ret (timezones ++ SpecConfig.probe w paths), EvReadFile <$> paths).
Proof.
  revert timezones. induction paths as [|path paths IH]; intros timezones.
  - cbn. by rewrite app_nil_r.
  - cbn [for_range]. unfold bind at 1. unfold bind at 1. cbn [os.ReadFile read].
    unfold SpecConfig.probe. cbn [flat_map]. fold (SpecConfig.probe w paths).
    destruct (file_data w path) as [content|e].
    + cbn zeta. case_bool_decide as Hempty.
      * cbn [ret app]. rewrite IH. cbn [fmap list_fmap app]. do 3 f_equal.
        unfold SpecConfig.entries, SpecConfig.stripped. by rewrite Hempty.
      * cbn [lift]. rewrite for_exec_config_line, IH. cbn [fmap list_fmap app].
        by rewrite <- app_assoc.
    + cbn [ret app]. by rewrite IH.
Qed.


End config_file.

(** ** The regular expression *)

Section regex_facts.

Import regexp SpecClock.

Lemma star_skip (p : ascii -> bool) (s : string) (k : string -> option (list string)) :
  (forall c t, p c = true -> k (String c t) = None) ->
  star p s k = k (skip p s).
Proof.
  intros Hk. induction s as [|c s IH]; [done|]. cbn [star skip].
  destruct (p c) eqn:Hc; [|done].
  rewrite IH. destruct (k (skip p s)); [done|]. by apply Hk.
Qed.

Lemma star_quoted (s : string) (k : string -> option (list string)) :
  (forall t, t <> quote -> k t = None) ->
  star any_char_not_nl s k
  = match quoted s with
    | Some _ => k quote
    | None => None
    end.
Proof.
  intros Hk. induction s as [|c s IH]; cbn [star quoted].
  - by apply Hk.
  - destruct (any_char_not_nl c) eqn:Hc.
    + rewrite IH. destruct (quoted s) as [value|].
      * destruct (k quote) eqn:Hq; [done|].
        destruct (decide (String c s = quote)) as [->|Hne]; [done | by apply Hk].
      * case_bool_decide as Heq; [by rewrite Heq | by apply Hk].
    + destruct (quoted s) as [value|].
      * apply Hk. intros [= -> _]. done.
      * rewrite bool_decide_false; [by apply Hk; intros [= -> _] | by intros [= -> _]].
Qed.

Lemma quoted_app (s value : string) : quoted s = Some value -> s = value +:+ quote.
Proof.
  revert value. induction s as [|c s IH]; intros value; cbn [quoted]; [done|].
  destruct (quoted s) as [value'|].
  - destruct (any_char_not_nl c); [|done]. intros [= <-].
    rewrite string_app_cons. f_equal. by apply IH.
  - case_bool_decide as Heq; [|done]. by intros [= <-].
Qed.

Lemma quoted_all (s value : string) :
  quoted s = Some value -> all any_char_not_nl value = true.
Proof.
  revert value. induction s as [|c s IH]; intros value; cbn [quoted]; [done|].
  destruct (quoted s) as [value'|].
  - destruct (any_char_not_nl c) eqn:Hc; [|done]. intros [= <-].
    cbn [all]. rewrite Hc. by apply IH.
  - case_bool_decide; [|done]. by intros [= <-].
Qed.

Lemma quoted_complete (value : string) :
  all any_char_not_nl value = true -> quoted (value +:+ quote) = Some value.
Proof.
  induction value as [|c value IH]; [done|]. cbn [all]. intros [Hc Hall]%andb_true_iff.
  rewrite string_app_cons. cbn [quoted]. by rewrite IH, Hc.
Qed.

End regex_facts.

(** ** [timezoneRegex] on a line *)

Section regex_clock.

Import regexp SpecClock.

Lemma find_anchored (text : string) (r : Regexp) (s : string) :
  (String.length s < String.length text)%nat -> find text (Cat BeginText r) s = None.
Proof.
  induction s as [|c s IH]; intros Hlen; cbn [find run].
  - destruct (Nat.eqb_spec (String.length "") (String.length text)) as [Heq|_]; [lia | done].
  - destruct (Nat.eqb_spec (String.length (String c s)) (String.length text)) as [Heq|_]; [lia|].
    apply IH. cbn [String.length] in Hlen. lia.
Qed.

Lemma find_at_start (text : string) (r : Regexp) :
  find text (Cat BeginText r) text
  = run text r text (replicate (S (NumSubexp r)) "")
      (fun s' caps => Some (<[0 := consumed text s']> caps)).
Proof.
  assert (forall s, find text (Cat BeginText r) s
            = match run text (Cat BeginText r) s (replicate (S (NumSubexp r)) "")
                      (fun s' caps => Some (<[0 := consumed s s']> caps)) with
              | Some caps => Some caps
              | None => match s with
                        | String _ s' => find text (Cat BeginText r) s'
                        | EmptyString => None
                        end
              end) as Hfind by (by intros []).
  rewrite Hfind. cbn [run]. rewrite Nat.eqb_refl.
  destruct (run text r text _ _); [done|].
  destruct text as [|c s]; [done|]. apply find_anchored. cbn [String.length]. lia.
Qed.

Lemma HasPrefix_app (s l : string) :
  strings.HasPrefix s l = true -> s = l +:+ strings.drop (String.length l) s.
Proof.
  revert s. induction l as [|d l IH]; intros s; [done|].
  destruct s as [|c s]; cbn [strings.HasPrefix]; [done|].
  destruct (Ascii.eqb_spec d c) as [->|]; [|done]. intros Hpre.
  cbn [String.length strings.drop]. rewrite string_app_cons. f_equal. by apply IH.
Qed.

Lemma HasPrefix_app_l (l s : string) : strings.HasPrefix (l +:+ s) l = true.
Proof.
  induction l as [|d l IH]; [by destruct s|]. rewrite string_app_cons.
  cbn [strings.HasPrefix]. by rewrite Ascii.eqb_refl.
Qed.

Lemma drop_app_l (l s : string) : strings.drop (String.length l) (l +:+ s) = s.
Proof. induction l as [|d l IH]; [done|]. by rewrite string_app_cons. Qed.

Lemma string_length_app (a b : string) :
  String.length (a +:+ b) = (String.length a + String.length b)%nat.
Proof.
  induction a as [|x a IH]; [done|]. rewrite string_app_cons. cbn [String.length].
  by rewrite IH.
Qed.

Lemma take_app_l (a b : string) : take (String.length a) (a +:+ b) = a.
Proof.
  induction a as [|x a IH]; [by destruct b|]. rewrite string_app_cons.
  cbn [String.length take]. by rewrite IH.
Qed.

Lemma consumed_app (a b : string) : consumed (a +:+ b) b = a.
Proof.
  unfold consumed. rewrite string_length_app.
  replace (String.length a + String.length b - String.length b)%nat
    with (String.length a) by lia.
  apply take_app_l.
Qed.

Lemma consumed_prefix (s l : string) :
  strings.HasPrefix s l = true -> consumed s (strings.drop (String.length l) s) = l.
Proof.
  intros Hpre. rewrite (HasPrefix_app s l Hpre) at 1. apply consumed_app.
Qed.

Lemma consumed_all (s : string) : consumed s "" = s.
Proof. rewrite <- (string_app_nil_r s) at 1. apply consumed_app. Qed.

Lemma after_Some (l s rest : string) : after l s = Some rest -> s = l +:+ rest.
Proof.
  unfold after. destruct (strings.HasPrefix s l) eqn:Hpre; [|done].
  intros [= <-]. by apply HasPrefix_app.
Qed.

Lemma after_app (l s : string) : after l (l +:+ s) = Some s.
Proof. unfold after. by rewrite HasPrefix_app_l, drop_app_l. Qed.

Lemma after_white (p : ascii -> bool) (c d : ascii) (l t : string) :
  p c = true -> p d = false -> after (String d l) (String c t) = None.
Proof.
  intros Hc Hd. unfold after. cbn [strings.HasPrefix].
  destruct (Ascii.eqb_spec d c) as [->|]; [congruence | done].
Qed.

Section run.

Context (text : string).

Lemma run_cat_lit (l : string) (r : Regexp) s caps k :
  run text (Cat (Lit l) r) s caps k
  = match after l s with
    | Some s' => run text r s' caps k
    | None => None
    end.
Proof. cbn [run]. unfold after. by destruct (strings.HasPrefix s l). Qed.

Lemma run_cat_star (p : ascii -> bool) (r : Regexp) s caps k :
  (forall c t, p c = true -> run text r (String c t) caps k = None) ->
  run text (Cat (StarClass p) r) s caps k = run text r (skip p s) caps k.
Proof. intros Hr. cbn [run]. by rewrite star_skip. Qed.

Lemma run_cat_star_lit (p : ascii -> bool) (d : ascii) (l : string) (r : Regexp) s caps k :
  p d = false ->
  run text (Cat (StarClass p) (Cat (Lit (String d l)) r)) s caps k
  = match after (String d l) (skip p s) with
    | Some s' => run text r s' caps k
    | None => None
    end.
Proof.
  intros Hd. rewrite run_cat_star, run_cat_lit; [done|].
  intros c t Hc. by rewrite run_cat_lit, (after_white p).
Qed.

Lemma run_key (r : Regexp) s caps k :
  run text (Cat (Capture 1 "" (Alt (Lit "TIMEZONE") (Lit "ZONE"))) r) s caps k
  = match key_of s with
    | Some (key, rest) => run text r rest (<[1 := key]> caps) k
    | None => None
    end.
Proof.
  cbn [run]. unfold key_of, after.
  destruct (strings.HasPrefix s "TIMEZONE") eqn:HT.
  - rewrite consumed_prefix by done.
    assert (strings.HasPrefix s "ZONE" = false) as ->.
    { destruct s as [|c s]; [done|]. cbn [strings.HasPrefix] in *.
      destruct (Ascii.eqb_spec "T" c) as [<-|]; [done | discriminate]. }
    by destruct (run _ _ _ _ _).
  - destruct (strings.HasPrefix s "ZONE") eqn:HZ; [|done].
    by rewrite consumed_prefix.
Qed.

Lemma key_of_white (c : ascii) (t : string) : perl_space c = true -> key_of (String c t) = None.
Proof.
  intros Hc. unfold key_of. by rewrite !(after_white perl_space).
Qed.

Lemma run_value s caps k :
  run text (Cat (Capture 2 "tz" (StarClass any_char_not_nl)) (Cat (Lit quote) EndText)) s caps k
  = match quoted s with
    | Some value => k "" (<[2 := value]> caps)
    | None => None
    end.
Proof.
  cbn [run]. rewrite star_quoted.
  - destruct (quoted s) as [value|] eqn:Hq; [|done].
    apply quoted_app in Hq as ->. by rewrite consumed_app.
  - intros t Hne. destruct (strings.HasPrefix t quote) eqn:Hpre; [|done].
    rewrite bool_decide_false; [done|]. intros Hrest.
    apply HasPrefix_app in Hpre. rewrite Hrest in Hpre. by rewrite string_app_nil_r in Hpre.
Qed.

End run.

(** The match of [timezoneRegex] on a line: the line, the key and the
    value, for a line with a setting, and no match for any other. *)
Lemma FindStringSubmatch_setting (line : string) :
  FindStringSubmatch Unix.timezoneRegex line
  = match setting line with
    | Some (key, value) => [line; key; value]
    | None => []
    end.
Proof.
  unfold FindStringSubmatch, Unix.timezoneRegex. rewrite find_at_start.
  rewrite run_cat_star by (intros c t Hc; by rewrite run_key, key_of_white).
  rewrite run_key. unfold setting.
  destruct (key_of (skip perl_space line)) as [[key s2]|]; [|done].
  rewrite run_cat_star_lit; [|reflexivity].
  destruct (after "=" (skip perl_space s2)) as [s3|]; [|done].
  rewrite (run_cat_star_lit line perl_space "034" ""); [|reflexivity].
  fold quote.
  destruct (after quote (skip perl_space s3)) as [s4|]; [|done].
  rewrite run_value. destruct (quoted s4) as [value|]; [|done].
  by rewrite consumed_all.
Qed.

End regex_clock.
Section clock.
Import regexp SpecClock Unix.

Lemma clock_line_entry (timezones : list string) (line : string) :
  clock_line timezones line = Ret (timezones ++ entry line).
Proof.
  unfold clock_line, entry. rewrite FindStringSubmatch_setting.
  change (SubexpNames timezoneRegex) with [""; ""; "tz"].
  cbn [imap for_exec bind_exec compose].
  destruct (setting line) as [[key value]|].
  - change (bool_decide (Z.of_nat 0 > 0)%Z) with false.
    change (bool_decide (Z.of_nat 1 > 0)%Z) with true.
    change (bool_decide (Z.of_nat 2 > 0)%Z) with true.
    change (bool_decide (Z.of_nat 1 <= len [line; key; value])%Z) with true.
    change (bool_decide (Z.of_nat 2 <= len [line; key; value])%Z) with true.
    change (index [line; key; value] (Z.of_nat 1)) with (Ret key).
    change (index [line; key; value] (Z.of_nat 2)) with (Ret value).
    cbn [andb bind_exec].
    rewrite (bool_decide_false (size _ = 0)).
    2: { rewrite map_size_empty_iff. apply insert_non_empty. }
    unfold map_get. rewrite lookup_insert_eq. cbn [default orb id].
    destruct (bool_decide (value = "")); [by rewrite app_nil_r|].
    by rewrite ReplaceAll_space.
  - change (len (@nil string)) with 0%Z.
    change (bool_decide (Z.of_nat 0 > 0)%Z) with false.
    change (bool_decide (Z.of_nat 1 <= 0)%Z) with false.
    change (bool_decide (Z.of_nat 2 <= 0)%Z) with false.
    rewrite !andb_false_r. cbn [andb bind_exec].
    rewrite bool_decide_true by apply map_size_empty. by rewrite app_nil_r.
Qed.

Lemma for_exec_clock_line (lines timezones : list string) :
  for_exec lines timezones clock_line = Ret (timezones ++ flat_map entry lines).
Proof.
  revert timezones. induction lines as [|line lines IH]; intros timezones; cbn [for_exec flat_map].
  - by rewrite app_nil_r.
  - rewrite clock_line_entry. cbn [bind_exec]. rewrite IH. by rewrite app_assoc.
Qed.

Lemma scan_loop_delivered (fuel : nat) (data : string) :
  bufio.scan_loop fuel data = bufio.dropCR <$> fitting (raw_lines_loop fuel data).
Proof.
  revert data. induction fuel as [|fuel IH]; intros data; [done|].
  cbn [bufio.scan_loop raw_lines_loop].
  destruct (strings.Cut data LF) as [[line rest]|].
  - cbn [fitting]. unfold fits at 1. destruct (_ <? _)%Z; [|done].
    cbn [fmap list_fmap]. by rewrite IH.
  - case_bool_decide; [done|]. cbn [fitting]. unfold fits. by destruct (_ <? _)%Z.
Qed.

Lemma ScanLines_delivered (data : string) : bufio.ScanLines data = delivered data.
Proof. apply scan_loop_delivered. Qed.

Lemma fitting_all (raw : list string) :
  Forall (fun line => fits line = true) raw -> fitting raw = raw.
Proof.
  induction 1 as [|line raw Hline _ IH]; [done|]. cbn [fitting]. by rewrite Hline, IH.
Qed.

Lemma parseFromClock_from (w : World) (paths timezones : list string) :
  for_range paths timezones (fun timezones filename =>
    file <- os.Open filename ;;
    match file with
    | Err _ => ret timezones
    | Ok data => lift (for_exec (bufio.ScanLines data) timezones clock_line)
    end) w
  = (Ret (timezones ++ probe w paths), EvOpen <$> paths).
Proof.
  revert timezones. induction paths as [|path paths IH]; intros timezones.
  - cbn. by rewrite app_nil_r.
  - cbn [for_range]. unfold bind at 1. unfold bind at 1. cbn [os.Open read].
    unfold probe. cbn [flat_map]. fold (probe w paths).
    destruct (open_data w path) as [data|e].
    + cbn [lift]. rewrite for_exec_clock_line, IH, ScanLines_delivered.
      cbn [fmap list_fmap app]. by rewrite <- app_assoc.
    + cbn [ret app]. by rewrite IH.
Qed.

Lemma parseFromClock_probe (w : World) (paths : list string) :
  parseFromClock paths w = (Ret (probe w paths), EvOpen <$> paths).
Proof. unfold parseFromClock. by rewrite parseFromClock_from. Qed.

End clock.

(** ** The pattern, in words *)

Section pattern.

Import regexp SpecClock.

Lemma skip_split (p : ascii -> bool) (s : string) :
  exists ws, s = ws +:+ skip p s /\ all p ws = true.
Proof.
  induction s as [|c s (ws & Heq & Hall)]; [by exists ""|]. cbn [skip].
  destruct (p c) eqn:Hc; [|by exists ""].
  exists (String c ws). rewrite string_app_cons. cbn [all]. rewrite Hc, Hall.
  split; [by f_equal | done].
Qed.

Lemma skip_all_app (p : ascii -> bool) (ws : string) (d : ascii) (rest : string) :
  all p ws = true -> p d = false -> skip p (ws +:+ String d rest) = String d rest.
Proof.
  intros Hall Hd. induction ws as [|c ws IH].
  - cbn [skip]. rewrite string_app_nil_l. cbn [skip]. by rewrite Hd.
  - cbn [all] in Hall. apply andb_true_iff in Hall as [Hc Hall].
    rewrite string_app_cons. cbn [skip]. rewrite Hc. by apply IH.
Qed.

Lemma key_of_Some (s key rest : string) :
  key_of s = Some (key, rest) -> s = key +:+ rest /\ (key = "TIMEZONE" \/ key = "ZONE").
Proof.
  unfold key_of. destruct (after "TIMEZONE" s) as [r|] eqn:HT.
  - intros [= <- <-]. split; [by apply after_Some | by left].
  - destruct (after "ZONE" s) as [r|] eqn:HZ; [|done].
    intros [= <- <-]. split; [by apply after_Some | by right].
Qed.

Lemma key_of_app (key rest : string) :
  key = "TIMEZONE" \/ key = "ZONE" -> key_of (key +:+ rest) = Some (key, rest).
Proof.
  intros [->| ->]; unfold key_of.
  - by rewrite after_app.
  - by rewrite after_app.
Qed.

(** A line has a setting exactly when it is made as the pattern says. *)
Lemma setting_matches (line key value : string) :
  setting line = Some (key, value) <-> matches line key value.
Proof.
  unfold setting, matches. split.
  - destruct (skip_split perl_space line) as (ws1 & Hline & Hws1).
    destruct (key_of (skip perl_space line)) as [[key' s2]|] eqn:Hkey; [|done].
    apply key_of_Some in Hkey as [Hs1 Hkey].
    destruct (skip_split perl_space s2) as (ws2 & Hs2 & Hws2).
    destruct (after "=" (skip perl_space s2)) as [s3|] eqn:Heq; [|done].
    apply after_Some in Heq.
    destruct (skip_split perl_space s3) as (ws3 & Hs3 & Hws3).
    destruct (after quote (skip perl_space s3)) as [s4|] eqn:Hquote; [|done].
    apply after_Some in Hquote.
    destruct (quoted s4) as [value'|] eqn:Hvalue; [|done].
    intros [= -> ->]. exists ws1, ws2, ws3.
    split; [|repeat split; try done; by apply (quoted_all s4)].
    apply quoted_app in Hvalue.
    rewrite Hline, Hs1, Hs2, Heq, Hs3, Hquote, Hvalue at 1. done.
  - intros (ws1 & ws2 & ws3 & -> & Hws1 & Hkey & Hws2 & Hws3 & Hvalue).
    assert (skip perl_space
              (ws1 +:+ key +:+ ws2 +:+ "=" +:+ ws3 +:+ quote +:+ value +:+ quote)
            = key +:+ ws2 +:+ "=" +:+ ws3 +:+ quote +:+ value +:+ quote) as ->.
    { destruct Hkey as [->| ->]; by apply skip_all_app. }
    rewrite key_of_app by done.
    assert (skip perl_space (ws2 +:+ "=" +:+ ws3 +:+ quote +:+ value +:+ quote)
            = "=" +:+ ws3 +:+ quote +:+ value +:+ quote) as ->
      by by apply skip_all_app.
    rewrite after_app.
    assert (skip perl_space (ws3 +:+ quote +:+ value +:+ quote)
            = quote +:+ value +:+ quote) as ->
      by by apply skip_all_app.
    rewrite after_app. by rewrite quoted_complete.
Qed.

End pattern.

(** ** No index out of range in [parseFromClock] *)

Section clock_safety.

Import regexp Unix.

Lemma star_length (P : list string -> Prop) (p : ascii -> bool) (s : string)
    (k : string -> option (list string)) :
  (forall s' res, k s' = Some res -> P res) ->
  forall res, star p s k = Some res -> P res.
Proof.
  intros Hk. induction s as [|c s IH]; cbn [star]; [by apply Hk|].
  destruct (p c); [|by apply Hk].
  destruct (star p s k) as [res'|]; [|by apply Hk].
  intros res [= <-]. by apply IH.
Qed.

Lemma run_length (text : string) (r : Regexp) (n : nat) :
  forall s caps (k : string -> list string -> option (list string)),
    length caps = n ->
    (forall s' caps' res, length caps' = n -> k s' caps' = Some res -> length res = n) ->
    forall res, run text r s caps k = Some res -> length res = n.
Proof.
  induction r as [l|r1 IH1 r2 IH2|r1 IH1 r2 IH2|p|i name r1 IH1| |];
    intros s caps k Hcaps Hk res; cbn [run].
  - destruct (strings.HasPrefix s l); [by apply Hk | done].
  - apply IH1; [done|]. intros s' caps' res' Hcaps'. by apply IH2.
  - destruct (run text r1 s caps k) as [res'|] eqn:Hrun.
    + intros [= <-]. by apply (IH1 s caps k).
    + by apply IH2.
  - apply (star_length (fun res => length res = n)). intros s' res'. by apply Hk.
  - apply IH1; [done|]. intros s' caps' res' Hcaps'. apply Hk.
    by rewrite length_insert.
  - destruct (_ =? _)%nat; [by apply Hk | done].
  - case_bool_decide; [by apply Hk | done].
Qed.

Lemma find_length (text : string) (r : Regexp) (s : string) (res : list string) :
  find text r s = Some res -> length res = S (NumSubexp r).
Proof.
  induction s as [|c s IH]; cbn [find].
  - destruct (run _ _ _ _ _) as [res'|] eqn:Hrun; [|done]. intros [= <-].
    revert Hrun. apply run_length; [by rewrite length_replicate|].
    intros s' caps' res Hcaps' [= <-]. by rewrite length_insert.
  - destruct (run _ _ _ _ _) as [res'|] eqn:Hrun; [|done]. intros [= <-].
    revert Hrun. apply run_length; [by rewrite length_replicate|].
    intros s' caps' res Hcaps' [= <-]. by rewrite length_insert.
Qed.

Lemma capture_names_length (r : Regexp) : length (capture_names r) = NumSubexp r.
Proof.
  induction r; cbn [capture_names NumSubexp]; rewrite ?length_app; cbn [length]; lia.
Qed.

(** The slice of a match is nil, or as long as the list of the names. *)
Lemma FindStringSubmatch_length (r : Regexp) (s : string) :
  FindStringSubmatch r s = []
  \/ length (FindStringSubmatch r s) = length (SubexpNames r).
Proof.
  unfold FindStringSubmatch, SubexpNames.
  destruct (find s r s) as [res|] eqn:Hfind; [right | by left].
  cbn [length]. rewrite capture_names_length. by apply find_length in Hfind.
Qed.

Lemma index_in_range {A} (l : list A) (i : Z) :
  (0 <= i < len l)%Z -> exists x, index l i = Ret x.
Proof.
  intros Hi. unfold index. rewrite bool_decide_true by done.
  destruct (lookup_lt_is_Some_2 l (Z.to_nat i)) as [x ->]; [unfold len in Hi; lia|].
  by exists x.
Qed.

Lemma params_step_nil (paramsMap : gmap string string) (i : Z) (name : string) :
  Value.params_step [] paramsMap (i, name) = Ret paramsMap.
Proof.
  unfold Value.params_step. change (len (@nil string)) with 0%Z.
  destruct (decide (i > 0)%Z).
  - rewrite (bool_decide_false (i <= 0)%Z) by lia. by rewrite andb_false_r.
  - by rewrite (bool_decide_false (i > 0)%Z).
Qed.

Lemma params_range_total (match_ names : list string) (n : nat)
    (paramsMap : gmap string string) :
  match_ = [] \/ (n + length names <= length match_)%nat ->
  exists m,
    for_exec (imap (fun i name => (Z.of_nat (n + i), name)) names) paramsMap
      (Value.params_step match_) = Ret m.
Proof.
  revert n paramsMap. induction names as [|name names IH]; intros n paramsMap Hlen.
  - by exists paramsMap.
  - rewrite imap_cons. cbn [for_exec].
    assert (exists m, Value.params_step match_ paramsMap (Z.of_nat (n + 0), name) = Ret m)
      as [m ->].
    { destruct Hlen as [->|Hlen]; [rewrite params_step_nil; by eexists|].
      unfold Value.params_step. destruct (_ && _); [|by eexists].
      destruct (index_in_range match_ (Z.of_nat (n + 0))) as [v ->]; [|by eexists].
      unfold len. cbn [length] in Hlen. lia. }
    cbn [bind_exec].
    rewrite (imap_ext _ (fun i name => (Z.of_nat (S n + i), name))).
    + apply IH. destruct Hlen as [?|Hlen]; [by left | right]. cbn [length] in Hlen. lia.
    + intros i x _. cbn [compose]. do 2 f_equal. lia.
Qed.

(** C10: [parseFromClock] does not panic.  The slice of a match is nil or
    as long as the names of the groups; on the nil slice the guard of the
    loop is false at every index and nothing is read; on a slice as long as
    the names every index of the loop is in range; so the loop over the
    names, the body of the loop over the lines and the function all
    return. *)
Theorem parseFromClock_never_panics :
  (forall line,
     FindStringSubmatch timezoneRegex line = []
     \/ length (FindStringSubmatch timezoneRegex line) = length (SubexpNames timezoneRegex))
  /\ (forall paramsMap i name, Value.params_step [] paramsMap (i, name) = Ret paramsMap)
  /\ (forall match_ names : list string,
        match_ = [] \/ length match_ = length names ->
        exists paramsMap,
          for_exec (imap (fun i name => (Z.of_nat i, name)) names) ∅
            (Value.params_step match_) = Ret paramsMap)
  /\ (forall timezones line, exists timezones', clock_line timezones line = Ret timezones')
  /\ (forall paths w, exists timezones, fst (parseFromClock paths w) = Ret timezones).
Proof.
  split; [intros line; apply FindStringSubmatch_length|].
  split; [apply params_step_nil|].
  assert (forall match_ names : list string,
            match_ = [] \/ length match_ = length names ->
            exists paramsMap,
              for_exec (imap (fun i name => (Z.of_nat i, name)) names) ∅
                (Value.params_step match_) = Ret paramsMap) as Hrange.
  { intros match_ names Hlen.
    apply (params_range_total match_ names 0 ∅).
    destruct Hlen as [?|Hlen]; [by left | right; lia]. }
  split; [done|].
  assert (forall timezones line, exists timezones', clock_line timezones line = Ret timezones')
    as Hline.
  { intros timezones line. unfold clock_line.
    destruct (Hrange (FindStringSubmatch timezoneRegex line) (SubexpNames timezoneRegex))
      as [paramsMap Hmap]; [apply FindStringSubmatch_length|].
    change (for_exec (imap (fun i name => (Z.of_nat i, name)) (SubexpNames timezoneRegex)) ∅
              (Value.params_step (FindStringSubmatch timezoneRegex line)) = Ret paramsMap)
      in Hmap.
    unfold Value.params_step in Hmap. rewrite Hmap. cbn [bind_exec].
    destruct (_ || _); by eexists. }
  split; [done|].
  intros paths w. unfold parseFromClock. rewrite for_range_value.
  generalize (@nil string) as timezones.
  induction paths as [|path paths IH]; intros timezones; cbn [for_exec]; [by eexists|].
  rewrite bind_value. cbn [os.Open read fst bind_exec].
  destruct (open_data w path) as [data|e]; cbn [ret lift fst].
  - assert (exists timezones', for_exec (bufio.ScanLines data) timezones clock_line
                              = Ret timezones') as [timezones' ->].
    { generalize (bufio.ScanLines data) as lines. intros lines. revert timezones.
      induction lines as [|line lines IHl]; intros timezones; cbn [for_exec]; [by eexists|].
      destruct (Hline timezones line) as [timezones' ->]. cbn [bind_exec]. apply IHl. }
    cbn [bind_exec]. apply IH.
  - cbn [bind_exec]. apply IH.
Qed.

End clock_safety.

(** ** The key=value probe *)

Section clock_probe.

Import regexp SpecClock Unix.

(** C7, as the code has it: the probe opens each file of the list, once and
    in order; of a file that can be opened, the lines that the scanner
    delivers, those before the first line of 65536 bytes or more, give a
    candidate each when they match the pattern with a value that is not
    empty, the value with its spaces as underscores; the pattern is the one
    the specification words.  Where every line of the file fits the buffer,
    these are all the lines of the file.  A file with the one line of a ZONE
    setting gives its value, a file with no matching line gives nothing. *)
Theorem parseFromClock_settings (w : World) (paths : list string) :
  parseFromClock paths w = (Ret (probe w paths), EvOpen <$> paths)
  /\ (forall line,
        FindStringSubmatch timezoneRegex line
        = match setting line with
          | Some (key, value) => [line; key; value]
          | None => []
          end)
  /\ (forall line key value, setting line = Some (key, value) <-> matches line key value)
  /\ (forall data, bufio.ScanLines data = delivered data)
  /\ (forall data,
        Forall (fun line => fits line = true) (raw_lines data) ->
        delivered data = lines data)
  /\ parseFromClock ["/etc/sysconfig/clock"]
       (Example.with_file "/etc/sysconfig/clock"
          ("ZONE=" +:+ quote +:+ "America/Sao_Paulo" +:+ quote) Example.bare)
     = (Ret ["America/Sao_Paulo"], [EvOpen "/etc/sysconfig/clock"])
  /\ parseFromClock ["/etc/sysconfig/clock"]
       (Example.with_file "/etc/sysconfig/clock"
          ("# clock settings" +:+ LF +:+ "UTC=true" +:+ LF) Example.bare)
     = (Ret [], [EvOpen "/etc/sysconfig/clock"]).
Proof.
  split; [apply parseFromClock_probe|].
  split; [apply FindStringSubmatch_setting|].
  split; [apply setting_matches|].
  split; [apply ScanLines_delivered|].
  split; [|by vm_compute].
  intros data Hfit. unfold delivered, lines. by rewrite fitting_all.
Qed.

(** C7 as stated, for every line of every file, does not hold: a setting
    on a line after a line of 65536 letters gives no candidate, for the
    scan ends at the long line. *)
Lemma parseFromClock_setting_after_long_line :
  ~ (forall (w : World) (paths : list string),
       fst (parseFromClock paths w) = Ret (probe_all_lines w paths)).
Proof.
  intros Hall.
  specialize (Hall
    (Example.with_file "/etc/sysconfig/clock" Example.clock_after_long_line Example.bare)
    ["/etc/sysconfig/clock"]).
  vm_compute in Hall. discriminate Hall.
Qed.

End clock_probe.

(** ** The link probe *)

Section symlink.

Import Unix.

Lemma Cut_app (s sep before after : string) :
  strings.Cut s sep = Some (before, after) -> s = before +:+ sep +:+ after.
Proof.
  revert before. induction s as [|c s IH]; intros before; cbn [strings.Cut].
  - destruct (strings.HasPrefix "" sep) eqn:Hpre; [|done].
    intros [= <- <-]. by apply HasPrefix_app in Hpre.
  - destruct (strings.HasPrefix (String c s) sep) eqn:Hpre.
    + intros [= <- <-]. by apply HasPrefix_app in Hpre.
    + destruct (strings.Cut s sep) as [[before' after']|]; [|done].
      intros [= <- <-]. rewrite string_app_cons. f_equal. by apply IH.
Qed.

Lemma slice_from_app (before rest : string) :
  strings.slice_from (before +:+ rest) (strings.len before) = Ret rest.
Proof.
  unfold strings.slice_from, strings.len. rewrite string_length_app.
  rewrite bool_decide_true by lia. rewrite Nat2Z.id. f_equal. apply drop_app_l.
Qed.

Lemma land_ModeSymlink (mode : Z) :
  Z.land mode os.ModeSymlink = if SpecSymlink.is_symlink mode then os.ModeSymlink else 0%Z.
Proof.
  unfold SpecSymlink.is_symlink. change os.ModeSymlink with (2 ^ 27)%Z.
  apply Z.bits_inj'. intros n Hn. rewrite Z.land_spec, Z.pow2_bits_eqb by lia.
  destruct (Z.eqb_spec 27 n) as [<-|Hne].
  - destruct (Z.testbit mode 27); [by rewrite Z.pow2_bits_true | by rewrite Z.bits_0].
  - rewrite andb_false_r.
    destruct (Z.testbit mode 27); [by rewrite Z.pow2_bits_false | by rewrite Z.bits_0].
Qed.

Lemma parseSymlink_probe (w : World) (path : string) :
  parseSymlink path w
  = (Ret (fst (SpecSymlink.probe w path)), snd (SpecSymlink.probe w path)).
Proof.
  unfold parseSymlink, SpecSymlink.probe, bind.
  cbn [os.Lstat os.Readlink read].
  destruct (lstat_mode w path) as [mode|e]; [|done].
  rewrite land_ModeSymlink. destruct (SpecSymlink.is_symlink mode); [|done].
  rewrite bool_decide_true by done. cbn [app].
  destruct (link_target w path) as [target|e]; [|done].
  unfold SpecSymlink.zone_of_target. rewrite Index_Cut.
  destruct (strings.Cut target "zoneinfo/") as [[before after]|] eqn:Hcut; [|done].
  rewrite bool_decide_false by (unfold strings.len; lia).
  apply Cut_app in Hcut as ->. cbn [lift].
  replace (strings.len before + 9)%Z with (strings.len (before +:+ "zoneinfo/")).
  2: { unfold strings.len. rewrite string_length_app. cbn [String.length]. lia. }
  rewrite <- string_app_assoc, slice_from_app. cbn [ret app fst snd].
  by rewrite ReplaceAll_space.
Qed.

(** X2: the link probe.  A path that is no symbolic link, or cannot be examined
    or read, gives the empty string; a link gives the text of its target
    after the first [zoneinfo/], its spaces as underscores, and the empty
    string when the target has none.  The slice of the target is always in
    range: the probe returns in every world. *)
Theorem parseSymlink_target (w : World) (path : string) :
  parseSymlink path w
  = (Ret (fst (SpecSymlink.probe w path)), snd (SpecSymlink.probe w path))
  /\ SpecSymlink.zone_of_target "testdata/zoneinfo/America/Sao_Paulo" = "America/Sao_Paulo"
  /\ SpecSymlink.zone_of_target "/usr/share/zoneinfo/America/Port of Spain"
     = "America/Port_of_Spain"
  /\ SpecSymlink.zone_of_target "/etc/localtime.real" = "".
Proof. split; [apply parseSymlink_probe | by vm_compute]. Qed.

End symlink.

(** ** The environment probe and the entry point, on Unix *)

Section unix_entry.

Import Unix.

Context (timezones : gmap string string).

Lemma Split_absolute (tzenv : string) :
  filepath.IsAbs tzenv = true -> (2 <= length (strings.Split tzenv slash))%nat.
Proof.
  unfold filepath.IsAbs, strings.Split, strings.SplitN, slash.
  cbn [Z.eqb Z.ltb Z.compare].
  destruct tzenv as [|c tzenv]; [done|]. rewrite HasPrefix_char.
  intros Hc. cbn [String.length]. rewrite split_loop_char_cons, Hc. cbn [length].
  pose proof (split_loop_nonempty (String.length tzenv) tzenv "/") as Hne.
  destruct (strings.split_loop _ _ _); [done | cbn [length]; lia].
Qed.

Lemma slice_from_last_two {A} (l : list A) :
  (2 <= length l)%nat -> slice_from l (len l - 2) = Ret (drop (length l - 2) l).
Proof.
  intros Hlen. unfold slice_from, len. rewrite bool_decide_true by lia.
  do 2 f_equal. lia.
Qed.

Lemma index_last (l : list string) :
  (1 <= length l)%nat -> index l (len l - 1) = Ret (default "" (last l)).
Proof.
  intros Hlen. unfold index, len. rewrite bool_decide_true by lia.
  rewrite last_lookup. replace (Z.to_nat (Z.of_nat (length l) - 1)) with (pred (length l)) by lia.
  destruct (lookup_lt_is_Some_2 l (pred (length l))) as [x ->]; [lia | done].
Qed.

Lemma parseEnv_value (w : World) :
  parseEnv timezones os.PathSeparator filepath.IsAbs w
  = (Ret (fst (SpecEnv.probe timezones w)), snd (SpecEnv.probe timezones w)).
Proof.
  unfold parseEnv, SpecEnv.probe, bind. cbn [os.Getenv read].
  case_bool_decide; [done|]. case_bool_decide; [done|].
  destruct (filepath.IsAbs (env w "TZ")) eqn:Habs; [|done].
  cbn [fileExists bind os.Stat read ret app]. unfold fileExists, bind. cbn [os.Stat read ret].
  assert (lift (slice_from (strings.Split (env w "TZ") os.PathSeparator)
                  (len (strings.Split (env w "TZ") os.PathSeparator) - 2)) w
          = (Ret (drop (length (strings.Split (env w "TZ") slash) - 2)
                    (strings.Split (env w "TZ") slash)), [])) as Hslice.
  { unfold lift, os.PathSeparator. rewrite slice_from_last_two; [done|].
    by apply Split_absolute. }
  assert (lift (index (strings.Split (env w "TZ") os.PathSeparator)
                  (len (strings.Split (env w "TZ") os.PathSeparator) - 1)) w
          = (Ret (default "" (last (strings.Split (env w "TZ") slash))), [])) as Hlast.
  { unfold lift, os.PathSeparator. rewrite index_last; [done|].
    pose proof (Split_absolute _ Habs). lia. }
  assert (forall exists_ : bool,
    (if exists_
     then
       let parts := strings.Split (env w "TZ") os.PathSeparator in
       bind (lift (slice_from parts (len parts - 2))) (fun last_two =>
         let joined := strings.Join last_two slash in
         if bool_decide (is_Some (timezones !! joined)) then ret joined
         else bind (lift (index parts (len parts - 1))) (fun last =>
           if bool_decide (is_Some (timezones !! last)) then ret last else ret ""))
     else ret "") w
    = (Ret (if exists_ then SpecEnv.of_path timezones (env w "TZ") else ""), [])) as Hbody.
  { intros [|]; [|done]. cbn zeta. unfold bind at 1. rewrite Hslice.
    unfold SpecEnv.of_path. cbn zeta. case_bool_decide; [done|].
    unfold bind. rewrite Hlast. by case_bool_decide. }
  destruct (stat_err w (env w "TZ")) as [e|].
  - specialize (Hbody (os.IsExist e)). cbn zeta in Hbody.
    unfold bind in Hbody |- *. cbn [app]. destruct (os.IsExist e).
    + by rewrite Hbody.
    + done.
  - specialize (Hbody true). cbn zeta in Hbody. unfold bind in Hbody |- *.
    cbn [app]. by rewrite Hbody.
Qed.

(** X3: the environment probe on Unix returns in every world, and gives what
    the specification says: the value of [TZ] when it is a key of the table;
    for an absolute path of an existing file its last two components when
    they are a key, else its last component when that is one; and nothing
    otherwise.  The file system is asked only about an absolute path that
    is no key. *)
Theorem parseEnv_probe (w : World) :
  parseEnv timezones os.PathSeparator filepath.IsAbs w
  = (Ret (fst (SpecEnv.probe timezones w)), snd (SpecEnv.probe timezones w))
  /\ parseEnv Example.timezones os.PathSeparator filepath.IsAbs
       (Example.with_TZ "/tmp/zones/America/Sao_Paulo"
          (Example.with_existing "/tmp/zones/America/Sao_Paulo" Example.bare))
     = (Ret "America/Sao_Paulo",
        [EvGetenv "TZ"; EvStat "/tmp/zones/America/Sao_Paulo"])
  /\ parseEnv Example.timezones os.PathSeparator filepath.IsAbs
       (Example.with_TZ "/tmp/zones/UTC/UTC"
          (Example.with_existing "/tmp/zones/UTC/UTC" Example.bare))
     = (Ret "UTC", [EvGetenv "TZ"; EvStat "/tmp/zones/UTC/UTC"])
  /\ parseEnv Example.timezones os.PathSeparator filepath.IsAbs
       (Example.with_TZ "/tmp/zones/America/Sao_Paulo" Example.bare)
     = (Ret "", [EvGetenv "TZ"; EvStat "/tmp/zones/America/Sao_Paulo"]).
Proof. split; [apply parseEnv_value | by vm_compute]. Qed.

Lemma parseFromConfigFile_probe (w : World) (paths : list string) :
  parseFromConfigFile paths w = (Ret (SpecConfig.probe w paths), EvReadFile <$> paths).
Proof. unfold parseFromConfigFile. by rewrite parseFromConfigFile_from. Qed.

(** X4: the entry point on Unix.  The name of the environment when there is one,
    with no error and nothing else read; otherwise the verdict of the
    resolver on the candidates of the configuration files, of the clock
    files and of [/etc/localtime], in this order, under
    [/usr/share/zoneinfo].  The probes return in every world: [Name] panics
    only where the resolver does. *)
Theorem Name_entry (w : World) :
  Name timezones w
  = (let tzenv := fst (SpecEnv.probe timezones w) in
     if bool_decide (tzenv <> "")
     then (Ret (tzenv, None), snd (SpecEnv.probe timezones w))
     else
       let verdict := resolveTimezones (SpecEntry.candidates w) "/usr/share/zoneinfo" w in
       (fst verdict,
        snd (SpecEnv.probe timezones w)
        ++ (EvReadFile <$> ["/etc/timezone"; "/var/db/zoneinfo"])
        ++ (EvOpen <$> ["/etc/sysconfig/clock"; "/etc/conf.d/clock"])
        ++ snd (SpecSymlink.probe w "/etc/localtime")
        ++ snd verdict)).
Proof.
  unfold Name. rewrite (bind_trace_ret _ _ w _ _ (parseEnv_value w)). cbn zeta.
  case_bool_decide as Henv; [by rewrite app_nil_r|].
  rewrite (bind_trace_ret _ _ w _ _
             (parseFromConfigFile_probe w ["/etc/timezone"; "/var/db/zoneinfo"])).
  rewrite (bind_trace_ret _ _ w _ _
             (parseFromClock_probe w ["/etc/sysconfig/clock"; "/etc/conf.d/clock"])).
  rewrite (bind_trace_ret _ _ w _ _ (parseSymlink_probe w "/etc/localtime")).
  cbn [fst snd app]. unfold SpecEntry.candidates. cbn zeta.
  destruct (decide (fst (SpecSymlink.probe w "/etc/localtime") = "")) as [Heq|Hne].
  - rewrite (bool_decide_true _ Heq), bool_decide_false by (by intros ?).
    by rewrite app_nil_r.
  - rewrite (bool_decide_false _ Hne), bool_decide_true by done.
    by rewrite <- (app_assoc (SpecConfig.probe w _)).
Qed.

End unix_entry.

(** The other platforms: [Name] fails on every call with the error that
    names the platform, and reads nothing of the world. *)
Theorem Name_not_implemented (GOOS : string) (w : World) :
  Other.Name GOOS w
  = (Ret ("", Some ("name not implemented for '" +:+ GOOS +:+ "'")), []).
Proof. reflexivity. Qed.

(** ** The candidates *)

Section candidates.

Lemma underscores_nil (s : string) : SpecConfig.underscores s = "" -> s = "".
Proof. by destruct s. Qed.

Lemma underscores_spaceless (s : string) :
  SpecClock.all (fun c => negb (Ascii.eqb c " ")) (SpecConfig.underscores s) = true.
Proof.
  induction s as [|c s IH]; [done|]. cbn [SpecConfig.underscores SpecClock.all].
  rewrite IH, andb_true_r. by destruct (Ascii.eqb_spec c " ") as [->|Hne]; [|apply negb_true_iff, Ascii.eqb_neq].
Qed.

Lemma underscores_raw (s : string) : s <> "" -> SpecEntry.raw (SpecConfig.underscores s).
Proof.
  intros Hne. split; [|apply underscores_spaceless].
  intros Heq. by apply underscores_nil in Heq.
Qed.

Lemma Forall_flat_map {A B} (P : B -> Prop) (f : A -> list B) (l : list A) :
  (forall x, Forall P (f x)) -> Forall P (flat_map f l).
Proof.
  intros Hf. induction l as [|x l IH]; cbn [flat_map]; [constructor|].
  apply Forall_app. by split.
Qed.

Lemma config_entry_raw (line : string) : Forall SpecEntry.raw (SpecConfig.entry line).
Proof.
  unfold SpecConfig.entry. cbn zeta. case_bool_decide; [constructor|].
  repeat constructor; by apply underscores_raw.
Qed.

Lemma clock_entry_raw (line : string) : Forall SpecEntry.raw (SpecClock.entry line).
Proof.
  unfold SpecClock.entry. destruct (SpecClock.setting line) as [[key value]|]; [|constructor].
  case_bool_decide; [constructor|]. repeat constructor; by apply underscores_raw.
Qed.

Lemma config_probe_raw (w : World) (paths : list string) :
  Forall SpecEntry.raw (SpecConfig.probe w paths).
Proof.
  apply Forall_flat_map. intros path. destruct (file_data w path); [|constructor].
  apply Forall_flat_map, config_entry_raw.
Qed.

Lemma clock_probe_raw (w : World) (paths : list string) :
  Forall SpecEntry.raw (SpecClock.probe w paths).
Proof.
  apply Forall_flat_map. intros path. destruct (open_data w path); [|constructor].
  apply Forall_flat_map, clock_entry_raw.
Qed.

Lemma symlink_probe_raw (w : World) (path : string) :
  fst (SpecSymlink.probe w path) <> "" -> SpecEntry.raw (fst (SpecSymlink.probe w path)).
Proof.
  intros Hparsed. split; [done|]. unfold SpecSymlink.probe.
  destruct (lstat_mode w path) as [mode|]; [|done].
  destruct (SpecSymlink.is_symlink mode); [|done].
  destruct (link_target w path) as [target|]; [|done].
  unfold SpecSymlink.zone_of_target. cbn [fst].
  destruct (strings.Cut target "zoneinfo/") as [[before after]|]; [|done].
  apply underscores_spaceless.
Qed.

(** X6: what the probes on Unix return are raw candidates, not empty and with
    no space in them, and so is every candidate that the entry point hands
    to the resolver. *)
Theorem candidates_raw (w : World) (paths : list string) (path : string) :
  (forall candidates trace,
     Unix.parseFromConfigFile paths w = (Ret candidates, trace) ->
     Forall SpecEntry.raw candidates)
  /\ (forall candidates trace,
        Unix.parseFromClock paths w = (Ret candidates, trace) ->
        Forall SpecEntry.raw candidates)
  /\ (forall candidate trace,
        Unix.parseSymlink path w = (Ret candidate, trace) ->
        candidate <> "" -> SpecEntry.raw candidate)
  /\ Forall SpecEntry.raw (SpecEntry.candidates w).
Proof.
  split; [|split; [|split]].
  - intros candidates trace. rewrite parseFromConfigFile_probe. intros [= <- _].
    apply config_probe_raw.
  - intros candidates trace. rewrite parseFromClock_probe. intros [= <- _].
    apply clock_probe_raw.
  - intros candidate trace. rewrite parseSymlink_probe. intros [= <- _].
    apply symlink_probe_raw.
  - unfold SpecEntry.candidates. rewrite !Forall_app.
    split; [apply config_probe_raw|]. split; [apply clock_probe_raw|].
    cbn zeta. case_bool_decide; [constructor|].
    apply Forall_cons. split; [by apply symlink_probe_raw | constructor].
Qed.

End candidates.

(** ** The environment probe on Windows *)

Section windows_env.

Context (timezones : gmap string string) (IsAbs : string -> bool).

Lemma Split_no_separator (s sep : string) :
  strings.Contains s sep = false -> strings.Split s sep = [s].
Proof.
  rewrite Contains_Cut. intros Hcut. apply bool_decide_eq_false in Hcut.
  unfold strings.Split, strings.SplitN. cbn [Z.eqb Z.ltb Z.compare].
  destruct (String.length s); cbn [strings.split_loop]; [done|].
  destruct (strings.Cut s sep) as [[before after]|]; [|done].
  destruct Hcut. by eexists.
Qed.

(** X7: on Windows a value of [TZ] that is no key of the table, that
    [filepath.IsAbs] takes for absolute, that exists, and that holds no
    backslash, as a path written with forward slashes, makes [parseEnv]
    panic: the path splits into one part, and the slice of the last two
    starts at -1. *)
Theorem Windows_parseEnv_forward_slashes (w : World) (tzenv : string) :
  env w "TZ" = tzenv ->
  tzenv <> "" ->
  timezones !! tzenv = None ->
  IsAbs tzenv = true ->
  stat_err w tzenv = None ->
  strings.Contains tzenv Windows.PathSeparator = false ->
  parseEnv timezones Windows.PathSeparator IsAbs w
  = (Panic, [EvGetenv "TZ"; EvStat tzenv]).
Proof.
  intros Henv Hne Hkey Habs Hstat Hsep.
  unfold parseEnv, bind. cbn [os.Getenv read]. rewrite Henv.
  rewrite bool_decide_false by done.
  rewrite bool_decide_false by (rewrite Hkey; by intros [? ?]).
  rewrite Habs. unfold fileExists, bind. cbn [os.Stat read ret]. rewrite Hstat.
  cbn [app]. rewrite Split_no_separator by done. done.
Qed.

End windows_env.

Lemma Windows_parseEnv_forward_slashes_witness :
  parseEnv Example.timezones Windows.PathSeparator (fun _ => true)
    (Example.with_TZ "C:/Windows" (Example.with_existing "C:/Windows" Example.bare))
  = (Panic, [EvGetenv "TZ"; EvStat "C:/Windows"]).
Proof.
  apply Windows_parseEnv_forward_slashes; try reflexivity. discriminate.
Defined.

(** ** Splitting and joining *)

Section split_join.

Import strings SpecPath.

Lemma Cut_free (c : ascii) (s : string) :
  free_of c s = true -> Cut s (String c "") = None.
Proof.
  induction s as [|a s IH]; [done|]. unfold free_of. cbn [SpecClock.all].
  intros [Ha Hs]%andb_true_iff. rewrite Cut_char_cons, Ascii.eqb_sym.
  apply negb_true_iff in Ha. rewrite Ha. by rewrite (IH Hs).
Qed.

Lemma split_loop_free (k : nat) (c : ascii) (s : string) :
  free_of c s = true -> split_loop k s (String c "") = [s].
Proof. intros Hs. destruct k; cbn [split_loop]; [done|]. by rewrite Cut_free. Qed.

Lemma split_loop_app (k : nat) (c : ascii) (e rest : string) :
  free_of c e = true ->
  split_loop (S k) (e +:+ String c rest) (String c "") = e :: split_loop k rest (String c "").
Proof.
  induction e as [|a e IH].
  - intros _. rewrite string_app_nil_l, split_loop_char_cons. by rewrite Ascii.eqb_refl.
  - unfold free_of. cbn [SpecClock.all]. intros [Ha He]%andb_true_iff.
    rewrite string_app_cons, split_loop_char_cons, Ascii.eqb_sym.
    apply negb_true_iff in Ha. rewrite Ha. by rewrite (IH He).
Qed.

(** Joining pieces that hold no separator and splitting again gives the
    pieces back. *)
Lemma split_loop_Join (c : ascii) (comps : list string) (k : nat) :
  comps <> [] -> (length comps <= S k)%nat ->
  Forall (fun e => free_of c e = true) comps ->
  split_loop k (Join comps (String c "")) (String c "") = comps.
Proof.
  revert k. induction comps as [|e comps IH]; [done|]. intros k _ Hlen Hfree.
  apply Forall_cons in Hfree as [He Hfree].
  destruct comps as [|e' comps]; [by apply split_loop_free|].
  rewrite Join_cons by done. destruct k as [|k]; [cbn in Hlen; lia|].
  rewrite string_app_cons, string_app_nil_l, split_loop_app by done.
  f_equal. apply IH; [done | cbn in *; lia | done].
Qed.

Lemma Join_length (c : ascii) (comps : list string) :
  (length comps <= S (String.length (Join comps (String c ""))))%nat.
Proof.
  induction comps as [|e [|e' comps] IH]; [cbn; lia | cbn; lia |].
  rewrite Join_cons by done. rewrite !string_length_app. cbn [String.length length] in *. lia.
Qed.

Lemma Split_Join (c : ascii) (comps : list string) :
  comps <> [] -> Forall (fun e => free_of c e = true) comps ->
  Split (Join comps (String c "")) (String c "") = comps.
Proof.
  intros Hne Hfree. unfold Split, SplitN. cbn [Z.eqb Z.ltb Z.compare].
  apply split_loop_Join; [done | apply Join_length | done].
Qed.

(** Splitting a text and joining the pieces by the separator gives the
    text back. *)
Lemma Join_split_loop (k : nat) (s sep : string) : Join (split_loop k s sep) sep = s.
Proof.
  revert s. induction k as [|k IH]; intros s; cbn [split_loop]; [done|].
  destruct (Cut s sep) as [[before after]|] eqn:Hcut; [|done].
  rewrite Join_cons by apply split_loop_nonempty. rewrite IH.
  symmetry. by apply Cut_app.
Qed.

Lemma Join_Split (s sep : string) : Join (Split s sep) sep = s.
Proof.
  unfold Split, SplitN. cbn [Z.eqb Z.ltb Z.compare]. apply Join_split_loop.
Qed.

Lemma Join_app (xs ys : list string) (sep : string) :
  xs <> [] -> ys <> [] -> Join (xs ++ ys) sep = Join xs sep +:+ sep +:+ Join ys sep.
Proof.
  intros Hxs Hys. induction xs as [|x xs IH]; [done|].
  destruct xs as [|x' xs].
  - cbn [app]. by rewrite Join_cons.
  - change ((x :: x' :: xs) ++ ys) with (x :: (x' :: xs) ++ ys).
    rewrite Join_cons by done. rewrite IH by done.
    rewrite (Join_cons x (x' :: xs)) by done. by rewrite !string_app_assoc.
Qed.

End split_join.

(** ** Clean paths *)

Section clean_paths.

Import strings SpecPath.

Lemma component_spec (e : string) :
  component e = true ->
  e <> "" /\ e <> "." /\ e <> ".." /\ free_of "/" e = true.
Proof.
  unfold component. intros [[[H1 H2]%andb_true_iff H3]%andb_true_iff H4]%andb_true_iff.
  apply negb_true_iff, String.eqb_neq in H1, H2, H3. done.
Qed.

Lemma components_free (comps : list string) :
  Forall (fun e => component e = true) comps ->
  Forall (fun e => free_of "/" e = true) comps.
Proof.
  intros Hall. eapply Forall_impl; [exact Hall|].
  intros e He. by apply component_spec in He as (_ & _ & _ & He).
Qed.

Lemma relative_comps (path : string) :
  relative path = true ->
  exists comps, comps <> [] /\ Forall (fun e => component e = true) comps
                /\ path = Join comps slash.
Proof.
  unfold relative. intros Hall. exists (Split path slash). split; [apply split_loop_nonempty|].
  split; [|by rewrite Join_Split].
  apply List.Forall_forall. intros e He. rewrite forallb_forall in Hall. by apply Hall.
Qed.

Lemma absolute_comps (path : string) :
  absolute path = true ->
  exists comps, comps <> [] /\ Forall (fun e => component e = true) comps
                /\ path = slash +:+ Join comps slash.
Proof.
  destruct path as [|c rest]; [done|]. cbn [absolute].
  intros [Hc Hrest]%andb_true_iff. apply Ascii.eqb_eq in Hc as ->.
  destruct (relative_comps rest Hrest) as (comps & Hne & Hall & ->). by exists comps.
Qed.

Lemma clean_elems_proper (rooted : bool) (comps out : list string) :
  Forall (fun e => component e = true) comps ->
  filepath.clean_elems rooted comps out = rev out ++ comps.
Proof.
  revert out. induction comps as [|e comps IH]; intros out Hall; cbn [filepath.clean_elems].
  - by rewrite app_nil_r.
  - apply Forall_cons in Hall as [He Hall].
    apply component_spec in He as (He1 & He2 & He3 & _).
    rewrite bool_decide_false by (by intros [?|?]).
    rewrite bool_decide_false by done.
    rewrite IH by done. cbn [rev]. by rewrite <- app_assoc.
Qed.

Lemma Split_rooted (comps : list string) :
  comps <> [] -> Forall (fun e => component e = true) comps ->
  Split (slash +:+ Join comps slash) slash = "" :: comps.
Proof.
  intros Hne Hall. rewrite <- (string_app_nil_l (slash +:+ Join comps slash)).
  rewrite <- (Join_cons "" comps slash) by done.
  apply (Split_Join "/"); [done|]. apply Forall_cons. split; [done|].
  by apply components_free.
Qed.

(** [filepath.Clean] leaves an absolute path of proper components as it
    is. *)
Lemma Clean_rooted (comps : list string) :
  comps <> [] -> Forall (fun e => component e = true) comps ->
  filepath.Clean (slash +:+ Join comps slash) = slash +:+ Join comps slash.
Proof.
  intros Hne Hall. unfold filepath.Clean. rewrite bool_decide_false by done.
  cbn zeta. rewrite Split_rooted by done.
  replace (HasPrefix (slash +:+ Join comps slash) slash) with true
    by (unfold slash; by rewrite string_app_cons, string_app_nil_l, HasPrefix_char).
  cbn [filepath.clean_elems].
  rewrite bool_decide_true by (by left). by rewrite clean_elems_proper.
Qed.

Lemma Join_under (root zone : string) :
  absolute root = true -> relative zone = true ->
  filepath.Join [root; zone] = root +:+ slash +:+ zone
  /\ exists rs zs,
       rs <> [] /\ zs <> []
       /\ Split root slash = "" :: rs
       /\ Split (root +:+ slash +:+ zone) slash = "" :: rs ++ zs
       /\ Join zs slash = zone.
Proof.
  intros (rs & Hrs & Hrs_all & ->)%absolute_comps (zs & Hzs & Hzs_all & ->)%relative_comps.
  assert (Forall (fun e => component e = true) (rs ++ zs)) as Hall
    by (apply Forall_app; done).
  assert ((slash +:+ Join rs slash) +:+ slash +:+ Join zs slash
          = slash +:+ Join (rs ++ zs) slash) as Hjoin.
  { rewrite Join_app by done. by rewrite !string_app_assoc. }
  split.
  - cbn [filepath.Join]. rewrite bool_decide_false by done.
    cbn [Join]. rewrite Hjoin. apply Clean_rooted; [|done]. by destruct rs.
  - exists rs, zs. split; [done|]. split; [done|].
    split; [by apply Split_rooted|]. split; [|done].
    rewrite Hjoin. apply Split_rooted; [|done]. by destruct rs.
Qed.

(** A zone file under the root, taken for its own real path, has the name
    of the zone as its identifier, and is deep enough. *)
Lemma identifier_under (root zone : string) :
  absolute root = true -> relative zone = true ->
  Spec.identifier root (root +:+ slash +:+ zone) = zone
  /\ ~ Spec.shallow root (root +:+ slash +:+ zone).
Proof.
  intros Hroot Hzone.
  destruct (Join_under root zone Hroot Hzone) as (_ & rs & zs & _ & _ & Hr & Hp & Hz).
  unfold Spec.identifier, Spec.shallow, Spec.depth. rewrite Hr, Hp. split.
  - cbn [length list.drop]. by rewrite drop_app_length.
  - cbn [length]. rewrite length_app. lia.
Qed.

End clean_paths.

(** ** The resolver on a zone database *)

Section resolver_database.

Import Unix Spec.

Lemma resolve_target (w : World) (root tz : string) (target : string -> option string) :
  SpecPath.absolute root = true ->
  SpecPath.relative tz = true ->
  match target tz with
  | Some zone => real_path w (root +:+ slash +:+ tz) = Ok (root +:+ slash +:+ zone)
  | None => exists e, real_path w (root +:+ slash +:+ tz) = Err e
  end ->
  resolve w root tz = (fun zone => root +:+ slash +:+ zone) <$> target tz.
Proof.
  intros Hroot Htz Hreal. unfold resolve.
  destruct (Join_under root tz Hroot Htz) as [-> _].
  destruct (target tz) as [zone|]; [by rewrite Hreal|].
  destruct Hreal as [e ->]. done.
Qed.

Lemma survivors_targets (w : World) (root : string) (tzs : list string)
    (target : string -> option string) :
  SpecPath.absolute root = true ->
  Forall (fun tz =>
            SpecPath.relative tz = true
            /\ match target tz with
               | Some zone =>
                   SpecPath.relative zone = true
                   /\ real_path w (root +:+ slash +:+ tz) = Ok (root +:+ slash +:+ zone)
               | None => exists e, real_path w (root +:+ slash +:+ tz) = Err e
               end) tzs ->
  Forall (fun path => ~ shallow root path) (survivors w root tzs)
  /\ identifier root <$> survivors w root tzs = omap target tzs.
Proof.
  intros Hroot Hall. unfold survivors.
  induction Hall as [|tz tzs [Htz Htarget] Hall [IH1 IH2]]; [done|].
  cbn [omap list_omap]. rewrite (resolve_target w root tz target Hroot Htz).
  2: { destruct (target tz); [by destruct Htarget | done]. }
  destruct (target tz) as [zone|]; cbn [fmap option_fmap option_map]; [|done].
  destruct Htarget as [Hzone _].
  destruct (identifier_under root zone Hroot Hzone) as [Hid Hdeep].
  rewrite fmap_cons, Hid, IH2. split; [|done]. by apply Forall_cons.
Qed.

(** X8: in a zone database under an absolute root, where every candidate is
    a zone name that does not resolve or resolves to a zone file under the
    root, its target, the identifiers that the loop holds are the distinct
    targets, in first-seen order: one target is returned with no error, two
    or more are a conflict, none is the empty string. *)
Theorem resolveTimezones_database (w : World) (root : string) (tzs : list string)
    (target : string -> option string) :
  SpecPath.absolute root = true ->
  (2 <= length tzs)%nat ->
  Forall (fun tz =>
            SpecPath.relative tz = true
            /\ match target tz with
               | Some zone =>
                   SpecPath.relative zone = true
                   /\ real_path w (root +:+ slash +:+ tz) = Ok (root +:+ slash +:+ zone)
               | None => exists e, real_path w (root +:+ slash +:+ tz) = Err e
               end) tzs ->
  fst (resolve_range tzs root w) = Ret (distinct (omap target tzs))
  /\ fst (resolveTimezones tzs root w)
     = Ret match distinct (omap target tzs) with
           | [] => ("", None)
           | [zone] => (zone, None)
           | zones => ("", Some (SpecMessage.conflict_message zones))
           end.
Proof.
  intros Hroot Hlen Hall.
  destruct (survivors_targets w root tzs target Hroot Hall) as [Hdeep Hids].
  assert (fst (resolve_range tzs root w) = Ret (distinct (omap target tzs))) as Hrange.
  { apply resolve_range_identifiers. split; [done|]. unfold identifiers. by rewrite Hids. }
  split; [done|]. rewrite resolveTimezones_value, Hrange.
  destruct tzs as [|tz [|tz' tzs]]; [cbn in Hlen; lia | cbn in Hlen; lia |].
  cbn [bind_exec]. by destruct (distinct _) as [|zone [|zone' zones]].
Qed.

End resolver_database.

Lemma resolveTimezones_database_witness :
  fst (Unix.resolve_range ["UTC"; "Etc/UTC"; "Asia/Nowhere"; "UTC"] "/usr/share/zoneinfo"
         Example.zonedb)
  = Ret ["Etc/UTC"]
  /\ fst (Unix.resolveTimezones ["UTC"; "Etc/UTC"; "Asia/Nowhere"; "UTC"] "/usr/share/zoneinfo"
            Example.zonedb)
     = Ret ("Etc/UTC", None).
Proof.
  pose (target := fun tz : string =>
                    if bool_decide (tz = "Asia/Nowhere") then None else Some "Etc/UTC").
  assert (2 <= length ["UTC"; "Etc/UTC"; "Asia/Nowhere"; "UTC"])%nat as Hlen
    by (simpl; lia).
  exact (resolveTimezones_database Example.zonedb "/usr/share/zoneinfo"
           ["UTC"; "Etc/UTC"; "Asia/Nowhere"; "UTC"] target eq_refl Hlen
           ltac:(repeat constructor; by exists ErrNotExist)).
Defined.

(** ** What the resolver reads, and the order of the candidates *)

Section resolver_reads.

Import Unix Spec.

Lemma for_range_trace {A S} (xs : list A) (acc : S) (body : S -> A -> IO S)
    (f : S -> A -> exec S) (ev : A -> Event) (w : World) :
  (forall acc x, body acc x w = (f acc x, [ev x])) ->
  fst (for_range xs acc body w) = for_exec xs acc f
  /\ snd (for_range xs acc body w) `prefix_of` (ev <$> xs)
  /\ (for_exec xs acc f <> Panic -> snd (for_range xs acc body w) = ev <$> xs).
Proof.
  intros Hbody. revert acc. induction xs as [|x xs IH]; intros acc.
  { cbn. split; [done|]. split; [apply prefix_nil | done]. }
  cbn [for_range for_exec]. unfold bind. rewrite Hbody.
  destruct (f acc x) as [acc'|]; cbn [bind_exec].
  - destruct (IH acc') as (Hfst & Hpre & Hall).
    destruct (for_range xs acc' body w) as [r t2]. cbn [fst snd] in *.
    split; [done|]. rewrite fmap_cons. split; [by apply prefix_cons|].
    intros Hr. by rewrite Hall.
  - cbn [fst snd]. split; [done|]. rewrite fmap_cons.
    split; [apply prefix_cons, prefix_nil | done].
Qed.

Lemma resolve_step_trace (w : World) (root : string) (filtered : list string) (tz : string) :
  (path <- realpath.Realpath (filepath.Join [root; tz]) ;;
   match path with
   | Err _ => ret filtered
   | Ok path =>
       parts <- lift (slice_from (strings.Split path os.PathSeparator)
                        (len (strings.Split root os.PathSeparator))) ;;
       ret (appendIfMissing filtered (strings.Join parts slash))
   end) w
  = (Value.resolve_step w root filtered tz, [EvRealpath (filepath.Join [root; tz])]).
Proof.
  unfold bind, Value.resolve_step, resolve. cbn [realpath.Realpath read].
  destruct (real_path w _) as [path|e]; [|done].
  cbn [lift]. unfold os.PathSeparator. by destruct (slice_from _ _).
Qed.

Lemma resolveTimezones_trace (w : World) (tz tz' : string) (tzs : list string) (root : string) :
  snd (resolveTimezones (tz :: tz' :: tzs) root w)
  = snd (resolve_range (tz :: tz' :: tzs) root w).
Proof.
  unfold resolveTimezones.
  rewrite bool_decide_false by (rewrite !len_cons; pose proof (len_nonneg tzs); lia).
  rewrite bool_decide_false by (rewrite !len_cons; pose proof (len_nonneg tzs); lia).
  unfold bind at 1. destruct (resolve_range _ _ w) as [[filtered|] t1]; [|done].
  repeat case_bool_decide; unfold bind, lift, ret; try destruct (index filtered 0);
    cbn [snd app]; by rewrite app_nil_r.
Qed.

Lemma resolve_range_reads (w : World) (tzs : list string) (root : string) :
  snd (resolve_range tzs root w)
    `prefix_of` ((fun tz => EvRealpath (filepath.Join [root; tz])) <$> tzs)
  /\ (fst (resolve_range tzs root w) <> Panic ->
      snd (resolve_range tzs root w)
      = (fun tz => EvRealpath (filepath.Join [root; tz])) <$> tzs).
Proof.
  assert (fst (resolve_range tzs root w) = for_exec tzs [] (Value.resolve_step w root)
          /\ snd (resolve_range tzs root w)
               `prefix_of` ((fun tz => EvRealpath (filepath.Join [root; tz])) <$> tzs)
          /\ (for_exec tzs [] (Value.resolve_step w root) <> Panic ->
              snd (resolve_range tzs root w)
              = (fun tz => EvRealpath (filepath.Join [root; tz])) <$> tzs))
    as (Hfst & Hpre & Hall).
  { unfold resolve_range. apply for_range_trace.
    intros filtered tzname. apply resolve_step_trace. }
  split; [done|]. rewrite Hfst. exact Hall.
Qed.

(** X9: the resolver reads nothing of the world but the real paths of the
    candidates joined under the root, each once and in the order of the
    list; with fewer than two candidates it reads nothing at all.  A run
    that panics has read the real paths up to the candidate it stopped
    at. *)
Theorem resolveTimezones_reads (w : World) (tzs : list string) (root : string) :
  snd (resolveTimezones tzs root w)
    `prefix_of` ((fun tz => EvRealpath (filepath.Join [root; tz])) <$> tzs)
  /\ ((length tzs < 2)%nat -> snd (resolveTimezones tzs root w) = [])
  /\ ((2 <= length tzs)%nat ->
      fst (resolveTimezones tzs root w) <> Panic ->
      snd (resolveTimezones tzs root w)
      = (fun tz => EvRealpath (filepath.Join [root; tz])) <$> tzs).
Proof.
  destruct tzs as [|tz [|tz' tzs]].
  - split; [apply prefix_nil|]. split; [done|]. cbn. lia.
  - split; [apply prefix_nil|]. split; [done|]. cbn. lia.
  - rewrite resolveTimezones_trace.
    destruct (resolve_range_reads w (tz :: tz' :: tzs) root) as [Hpre Hall].
    split; [exact Hpre|]. split; [cbn; lia|]. intros _ Hret. apply Hall.
    intros Hpanic. apply Hret. rewrite resolveTimezones_value.
    by rewrite Hpanic.
Qed.

Lemma distinct_Permutation (l l' : list string) : l ≡ₚ l' -> distinct l ≡ₚ distinct l'.
Proof.
  intros Hperm. apply NoDup_Permutation; [apply NoDup_distinct | apply NoDup_distinct |].
  intros x. rewrite !elem_of_distinct. by rewrite Hperm.
Qed.

(** X10: the verdict of the resolver does not depend on the order of the
    candidates.  Two lists with the same candidates, in any order, give the
    same name, both give an error or neither does, and one panics exactly
    when the other does. *)
Theorem resolveTimezones_order (w : World) (tzs tzs' : list string) (root : string) :
  tzs ≡ₚ tzs' ->
  match fst (resolveTimezones tzs root w), fst (resolveTimezones tzs' root w) with
  | Ret (name, err), Ret (name', err') => name = name' /\ (err = None <-> err' = None)
  | Panic, Panic => True
  | _, _ => False
  end.
Proof.
  intros Hperm. pose proof (Permutation_length Hperm) as Hlen.
  destruct tzs as [|tz [|tz2 tzs]].
  { apply Permutation_nil in Hperm as ->. done. }
  { apply Permutation_singleton_l in Hperm as <-. done. }
  destruct tzs' as [|tz' [|tz2' tzs']]; [done | done |].
  rewrite !resolveTimezones_value. clear Hlen.
  assert (survivors w root (tz :: tz2 :: tzs) ≡ₚ survivors w root (tz' :: tz2' :: tzs'))
    as Hsurv by (unfold survivors; by rewrite Hperm).
  rewrite !resolve_range_value.
  destruct (decide (Exists (shallow root) (survivors w root (tz :: tz2 :: tzs))))
    as [Hsh|Hdeep].
  - rewrite (resolve_steps_shallow w root (tz :: tz2 :: tzs)) by done.
    rewrite Hsurv in Hsh. by rewrite (resolve_steps_shallow w root (tz' :: tz2' :: tzs')).
  - apply not_Exists_Forall in Hdeep; [|apply _].
    rewrite (resolve_steps_deep w root (tz :: tz2 :: tzs)) by done.
    rewrite Hsurv in Hdeep.
    rewrite (resolve_steps_deep w root (tz' :: tz2' :: tzs')) by done.
    rewrite !foldl_appendIfMissing_nil. cbn [bind_exec].
    assert (distinct (identifier root <$> survivors w root (tz :: tz2 :: tzs))
            ≡ₚ distinct (identifier root <$> survivors w root (tz' :: tz2' :: tzs')))
      as Hids by (apply distinct_Permutation; by rewrite Hsurv).
    pose proof (Permutation_length Hids) as Hlen.
    destruct (distinct (identifier root <$> survivors w root (tz :: tz2 :: tzs)))
      as [|id [|id2 ids]].
    + apply Permutation_nil in Hids as ->. done.
    + apply Permutation_singleton_l in Hids as <-. done.
    + destruct (distinct _) as [|id' [|id2' ids']]; [done | done |]. done.
Qed.

End resolver_reads.

Lemma resolveTimezones_order_witness :
  match fst (Unix.resolveTimezones ["UTC"; "Etc/UTC"; "Asia/Nowhere"] "/usr/share/zoneinfo"
               Example.zonedb),
        fst (Unix.resolveTimezones ["Etc/UTC"; "Asia/Nowhere"; "UTC"] "/usr/share/zoneinfo"
               Example.zonedb) with
  | Ret (name, err), Ret (name', err') => name = name' /\ (err = None <-> err' = None)
  | Panic, Panic => True
  | _, _ => False
  end.
Proof.
  apply resolveTimezones_order.
  apply (Permutation_cons_append ["Etc/UTC"; "Asia/Nowhere"] "UTC").
Defined.

(** ** Names of zones as texts *)

Section zone_text.

Import strings SpecPath SpecZone.

Lemma all_app (p : ascii -> bool) (a b : string) :
  SpecClock.all p (a +:+ b) = SpecClock.all p a && SpecClock.all p b.
Proof.
  induction a as [|c a IH]; [done|]. rewrite string_app_cons. cbn [SpecClock.all].
  by rewrite IH, andb_assoc.
Qed.

Lemma all_impl (p q : ascii -> bool) (s : string) :
  (forall c, p c = true -> q c = true) ->
  SpecClock.all p s = true -> SpecClock.all q s = true.
Proof.
  intros Hpq. induction s as [|c s IH]; [done|]. cbn [SpecClock.all].
  intros [Hc Hs]%andb_true_iff. by rewrite (Hpq c Hc), IH.
Qed.

(** What a plain character is not. *)
Lemma plain_not (c : ascii) :
  plain c = true ->
  Ascii.eqb c " " = false /\ Ascii.eqb c "#" = false
  /\ Ascii.eqb c "010" = false /\ Ascii.eqb c "013" = false
  /\ in_cutset c (space +:+ TAB +:+ CR +:+ LF) = false
  /\ asciiSpace c = false
  /\ (33 <= nat_of_ascii c <= 126)%nat.
Proof.
  destruct c as [[] [] [] [] [] [] [] []]; intros Hc; vm_compute in Hc;
    try discriminate Hc; vm_compute; repeat split; lia.
Qed.

Lemma plain_free (c : ascii) (s : string) :
  (forall a, plain a = true -> Ascii.eqb a c = false) ->
  SpecClock.all plain s = true -> free_of c s = true.
Proof.
  intros Hc. apply all_impl. intros a Ha. by rewrite (Hc a Ha).
Qed.

Lemma space_size_plain (c : ascii) (s : string) : plain c = true -> space_size (String c s) = 0%nat.
Proof.
  intros (_ & _ & _ & _ & _ & Hspace & Hn)%plain_not. unfold space_size. rewrite Hspace.
  destruct s as [|b [|d s]]; [done | |].
  - destruct (Nat.eqb_spec (nat_of_ascii c) 194); [lia | done].
  - destruct (Nat.eqb_spec (nat_of_ascii c) 194); [lia|]. cbn [andb]. unfold space3.
    destruct (Nat.eqb_spec (nat_of_ascii c) 225); [lia|].
    destruct (Nat.eqb_spec (nat_of_ascii c) 226); [lia|].
    destruct (Nat.eqb_spec (nat_of_ascii c) 227); [lia|]. done.
Qed.

Lemma space_size_rev_plain (c : ascii) (r : string) :
  plain c = true -> space_size_rev (String c r) = 0%nat.
Proof.
  intros (_ & _ & _ & _ & _ & Hspace & Hn)%plain_not. unfold space_size_rev. rewrite Hspace.
  destruct r as [|b [|a r]]; [done | |].
  - destruct (Nat.eqb_spec (nat_of_ascii c) 133); [lia|].
    destruct (Nat.eqb_spec (nat_of_ascii c) 160); [lia|]. by rewrite andb_false_r.
  - destruct (Nat.eqb_spec (nat_of_ascii c) 133); [lia|].
    destruct (Nat.eqb_spec (nat_of_ascii c) 160); [lia|]. rewrite andb_false_r.
    unfold space3.
    destruct (Nat.eqb_spec (nat_of_ascii c) 128); [lia|].
    destruct (Nat.eqb_spec (nat_of_ascii c) 159); [lia|].
    destruct (Nat.eqb_spec (nat_of_ascii c) 168); [lia|].
    destruct (Nat.eqb_spec (nat_of_ascii c) 169); [lia|].
    destruct (Nat.eqb_spec (nat_of_ascii c) 175); [lia|].
    destruct (Nat.leb_spec 128 (nat_of_ascii c)); [lia|].
    by rewrite !andb_false_r.
Qed.

Lemma trim_spaces_none (size : string -> nat) (fuel : nat) (s : string) :
  size s = 0%nat -> trim_spaces size fuel s = s.
Proof. intros Hs. destruct fuel; cbn [trim_spaces]; [done|]. by rewrite Hs. Qed.

Lemma rev_app_rev_app (s a b : string) :
  String.rev_app (String.rev_app s a) b = String.rev_app a (s +:+ b).
Proof.
  revert a b. induction s as [|c s IH]; intros a b; [done|].
  cbn [String.rev_app]. by rewrite IH.
Qed.

Lemma rev_rev (s : string) : String.rev (String.rev s) = s.
Proof. unfold String.rev. rewrite rev_app_rev_app. cbn. apply string_app_nil_r. Qed.

Lemma all_rev_app (p : ascii -> bool) (s a : string) :
  SpecClock.all p (String.rev_app s a) = SpecClock.all p s && SpecClock.all p a.
Proof.
  revert a. induction s as [|c s IH]; intros a; [done|].
  cbn [String.rev_app SpecClock.all]. rewrite IH. cbn [SpecClock.all].
  by rewrite andb_assoc, (andb_comm (SpecClock.all p s)).
Qed.

(** [strings.TrimSpace] leaves a text of plain characters as it is. *)
Lemma TrimSpace_plain (s : string) : SpecClock.all plain s = true -> TrimSpace s = s.
Proof.
  intros Hs. unfold TrimSpace. cbn zeta.
  assert (trim_spaces space_size (String.length s) s = s) as ->.
  { destruct s as [|c s]; [done|]. apply trim_spaces_none, space_size_plain.
    by apply andb_true_iff in Hs as [Hc _]. }
  assert (SpecClock.all plain (String.rev s) = true) as Hrev.
  { unfold String.rev. by rewrite all_rev_app, Hs. }
  rewrite trim_spaces_none; [apply rev_rev|].
  destruct (String.rev s) as [|c r]; [done|]. apply space_size_rev_plain.
  by apply andb_true_iff in Hrev as [Hc _].
Qed.

Lemma before_free (c : ascii) (s : string) : free_of c s = true -> SpecConfig.before c s = s.
Proof.
  induction s as [|a s IH]; [done|]. unfold free_of. cbn [SpecClock.all SpecConfig.before].
  intros [Ha Hs]%andb_true_iff. apply negb_true_iff in Ha. rewrite Ha. by rewrite (IH Hs).
Qed.

Lemma underscores_free (s : string) : free_of " " s = true -> SpecConfig.underscores s = s.
Proof.
  induction s as [|a s IH]; [done|]. unfold free_of. cbn [SpecClock.all SpecConfig.underscores].
  intros [Ha Hs]%andb_true_iff. apply negb_true_iff in Ha. rewrite Ha. by rewrite (IH Hs).
Qed.

Lemma Cut_none_free (c : ascii) (rest s : string) :
  free_of c s = true -> Cut s (String c rest) = None.
Proof.
  induction s as [|a s IH]; [done|]. unfold free_of. cbn [SpecClock.all].
  intros [Ha Hs]%andb_true_iff. apply negb_true_iff in Ha. cbn [Cut HasPrefix].
  rewrite Ascii.eqb_sym, Ha. by rewrite (IH Hs).
Qed.

Lemma Split_free (c : ascii) (rest s : string) :
  free_of c s = true -> Split s (String c rest) = [s].
Proof.
  intros Hs. apply Split_no_separator. rewrite Contains_Cut, Cut_none_free by done.
  apply bool_decide_eq_false. by intros [? ?].
Qed.

(** Trimming *)

Lemma TrimRight_cutset (tail cutset : string) :
  SpecClock.all (fun c => in_cutset c cutset) tail = true -> TrimRight tail cutset = "".
Proof.
  induction tail as [|c tail IH]; [done|]. cbn [SpecClock.all TrimRight].
  intros [Hc Htail]%andb_true_iff. by rewrite (IH Htail), Hc.
Qed.

Lemma TrimRight_keep (a b cutset : string) :
  TrimRight b cutset <> "" -> TrimRight (a +:+ b) cutset = a +:+ TrimRight b cutset.
Proof.
  intros Hb. induction a as [|c a IH]; [done|]. rewrite !string_app_cons.
  cbn [TrimRight]. rewrite IH. destruct (a +:+ TrimRight b cutset) eqn:Heq; [|done].
  destruct a; [|done]. by rewrite string_app_nil_l in Heq.
Qed.

Lemma TrimRight_last (a : string) (c : ascii) (tail cutset : string) :
  in_cutset c cutset = false ->
  SpecClock.all (fun c => in_cutset c cutset) tail = true ->
  TrimRight (a +:+ String c tail) cutset = a +:+ String c "".
Proof.
  intros Hc Htail.
  assert (TrimRight (String c tail) cutset = String c "") as Hlast
    by (cbn [TrimRight]; by rewrite TrimRight_cutset, Hc).
  rewrite TrimRight_keep; by rewrite Hlast.
Qed.

Lemma TrimLeft_cutset (head s cutset : string) :
  SpecClock.all (fun c => in_cutset c cutset) head = true ->
  TrimLeft (head +:+ s) cutset = TrimLeft s cutset.
Proof.
  induction head as [|c head IH]; [done|]. cbn [SpecClock.all].
  intros [Hc Hhead]%andb_true_iff. rewrite string_app_cons. cbn [TrimLeft].
  by rewrite Hc, IH.
Qed.

End zone_text.

(** ** A zone name through the probes *)

Section zone_probes.

Import strings SpecPath SpecZone Unix.

Lemma last_char (c0 : ascii) (e : string) :
  e <> "" -> free_of c0 e = true ->
  exists a c, e = a +:+ String c "" /\ Ascii.eqb c c0 = false.
Proof.
  induction e as [|x e IH]; [done|]. intros _. unfold free_of. cbn [SpecClock.all].
  intros [Hx He]%andb_true_iff. apply negb_true_iff in Hx.
  destruct e as [|y e]; [by exists "", x|].
  destruct (IH ltac:(done) He) as (a & c & Heq & Hc).
  exists (String x a), c. by rewrite Heq.
Qed.

Lemma Join_last (comps : list string) :
  comps <> [] -> Forall (fun e => component e = true) comps ->
  exists a c, Join comps slash = a +:+ String c "" /\ Ascii.eqb c "/" = false.
Proof.
  induction comps as [|e comps IH]; [done|]. intros _ [He Hall]%Forall_cons.
  destruct comps as [|e' comps].
  - apply component_spec in He as (He & _ & _ & Hfree). by apply last_char.
  - destruct (IH ltac:(done) Hall) as (a & c & Heq & Hc).
    exists (e +:+ slash +:+ a), c. rewrite Join_cons by done.
    by rewrite Heq, !string_app_assoc.
Qed.

Lemma plain_not_cut (c : ascii) :
  plain c = true -> Ascii.eqb c "/" = false -> in_cutset c SpecZone.trim_cutset = false.
Proof.
  intros (_ & _ & _ & _ & Hcut & _)%plain_not Hslash.
  change SpecZone.trim_cutset with (String "/" (space +:+ TAB +:+ CR +:+ LF)).
  cbn [in_cutset]. by rewrite Hslash, Hcut.
Qed.

(** The shape of a zone name: of plain characters, with a first and a last
    character that no trimming takes away. *)
Lemma name_shape (zone : string) :
  name zone = true ->
  SpecClock.all plain zone = true
  /\ relative zone = true
  /\ (exists c s, zone = String c s /\ in_cutset c SpecZone.trim_cutset = false)
  /\ (exists a c, zone = a +:+ String c "" /\ in_cutset c SpecZone.trim_cutset = false).
Proof.
  unfold name. intros [Hrel Hplain]%andb_true_iff. split; [done|]. split; [done|].
  destruct (relative_comps zone Hrel) as (comps & Hne & Hall & Heq). split.
  - destruct comps as [|e comps]; [done|].
    pose proof Hall as [He _]%Forall_cons.
    apply component_spec in He as (He & _ & _ & Hfree).
    destruct e as [|c e]; [done|]. unfold free_of in Hfree. cbn [SpecClock.all] in Hfree.
    apply andb_true_iff in Hfree as [Hc%negb_true_iff _].
    assert (exists s, zone = String c s) as [s ->].
    { rewrite Heq. destruct comps; [by eexists|]. rewrite Join_cons by done.
      rewrite string_app_cons. by eexists. }
    exists c, s. split; [done|]. apply plain_not_cut; [|done].
    cbn [SpecClock.all] in Hplain. by apply andb_true_iff in Hplain as [? _].
  - destruct (Join_last comps Hne Hall) as (a & c & Hlast & Hc). rewrite <- Heq in Hlast.
    exists a, c. split; [done|]. apply plain_not_cut; [|done].
    rewrite Hlast, all_app in Hplain. cbn [SpecClock.all] in Hplain.
    apply andb_true_iff in Hplain as [_ Hplain]. by apply andb_true_iff in Hplain as [? _].
Qed.

Lemma name_nonempty (zone : string) : name zone = true -> zone <> "".
Proof. intros (_ & _ & (c & s & -> & _) & _)%name_shape. done. Qed.

Lemma name_free (zone : string) (c : ascii) :
  (forall a, plain a = true -> Ascii.eqb a c = false) ->
  name zone = true -> free_of c zone = true.
Proof. intros Hc (Hplain & _)%name_shape. by apply plain_free. Qed.

Lemma name_spaceless (zone : string) : name zone = true -> free_of " " zone = true.
Proof. apply name_free. intros a Ha. by apply plain_not in Ha as (? & _). Qed.

Lemma stripped_name (head zone tail : string) :
  name zone = true ->
  SpecClock.all (fun c => in_cutset c SpecZone.trim_cutset) head = true ->
  SpecClock.all (fun c => in_cutset c SpecZone.trim_cutset) tail = true ->
  SpecConfig.stripped (head +:+ zone +:+ tail) = zone.
Proof.
  intros (_ & _ & (c & s & Hfirst & Hc) & (a & d & Hlast & Hd))%name_shape Hhead Htail.
  unfold SpecConfig.stripped, Trim. fold SpecZone.trim_cutset.
  assert (TrimRight (head +:+ zone +:+ tail) SpecZone.trim_cutset = head +:+ zone) as ->.
  { rewrite Hlast, !string_app_assoc. rewrite string_app_cons, string_app_nil_l.
    rewrite <- (string_app_assoc head a). rewrite TrimRight_last by done.
    by rewrite string_app_assoc. }
  rewrite TrimLeft_cutset by done. rewrite Hfirst. cbn [TrimLeft]. by rewrite Hc.
Qed.

Lemma entries_name (head zone tail : string) :
  name zone = true ->
  SpecClock.all (fun c => in_cutset c SpecZone.trim_cutset) head = true ->
  SpecClock.all (fun c => in_cutset c SpecZone.trim_cutset) tail = true ->
  SpecConfig.entries (head +:+ zone +:+ tail) = [zone].
Proof.
  intros Hname Hhead Htail. unfold SpecConfig.entries. rewrite stripped_name by done.
  unfold SpecConfig.lines, ReplaceAll.
  replace (String.eqb (CR +:+ LF) LF) with false by done.
  assert (free_of "013" zone = true) as HCR.
  { apply name_free; [|done]. intros a Ha. by apply plain_not in Ha as (_ & _ & _ & ? & _). }
  assert (free_of "010" zone = true) as HLF.
  { apply name_free; [|done]. intros a Ha. by apply plain_not in Ha as (_ & _ & ? & _). }
  assert (free_of "#" zone = true) as Hhash.
  { apply name_free; [|done]. intros a Ha. by apply plain_not in Ha as (_ & ? & _). }
  pose proof (name_spaceless zone Hname) as Hspace.
  change (CR +:+ LF) with (String "013" LF). rewrite Split_free by done.
  cbn [Join]. unfold LF at 1. rewrite Split_free by done.
  cbn [flat_map]. rewrite app_nil_r. unfold SpecConfig.entry.
  rewrite !before_free by (by rewrite ?before_free). cbn zeta.
  rewrite TrimSpace_plain by (by apply name_shape in Hname as (? & _)).
  rewrite bool_decide_false by (by apply name_nonempty).
  by rewrite underscores_free.
Qed.

(** X11: a configuration file that holds the name of a zone, with slashes
    or white space before it and after it or with none, gives that name and
    nothing else. *)
Theorem parseFromConfigFile_zone_name (w : World) (path head zone tail : string) :
  name zone = true ->
  SpecClock.all (fun c => in_cutset c (slash +:+ space +:+ TAB +:+ CR +:+ LF)) head = true ->
  SpecClock.all (fun c => in_cutset c (slash +:+ space +:+ TAB +:+ CR +:+ LF)) tail = true ->
  file_data w path = Ok (head +:+ zone +:+ tail) ->
  parseFromConfigFile [path] w = (Ret [zone], [EvReadFile path]).
Proof.
  intros Hname Hhead Htail Hdata. rewrite parseFromConfigFile_probe.
  unfold SpecConfig.probe. cbn [flat_map]. rewrite Hdata, app_nil_r.
  by rewrite entries_name.
Qed.

End zone_probes.

Lemma parseFromConfigFile_zone_name_witness :
  Unix.parseFromConfigFile ["/etc/timezone"]
    (Example.with_file "/etc/timezone" ("Europe/Berlin" +:+ LF) Example.bare)
  = (Ret ["Europe/Berlin"], [EvReadFile "/etc/timezone"]).
Proof.
  apply (parseFromConfigFile_zone_name _ "/etc/timezone" "" "Europe/Berlin" LF);
    reflexivity.
Defined.

(** ** The link to the file of a zone *)

Section zone_link.

Import strings SpecPath SpecZone Unix.

Lemma HasPrefix_long (l a b : string) :
  (String.length l <= String.length a)%nat -> HasPrefix (a +:+ b) l = HasPrefix a l.
Proof.
  revert a. induction l as [|d l IH]; intros a Hlen.
  - destruct a; [rewrite string_app_nil_l; by destruct b | done].
  - destruct a as [|c a]; [cbn in Hlen; lia|]. rewrite string_app_cons. cbn [HasPrefix].
    destruct (Ascii.eqb d c); [|done]. apply IH. cbn in Hlen. lia.
Qed.

Lemma Cut_prefix (s sep : string) :
  HasPrefix s sep = true -> Cut s sep = Some ("", strings.drop (String.length sep) s).
Proof. intros Hs. destruct s; cbn [Cut]; by rewrite Hs. Qed.

(** The first instance of a separator is the one after a prefix in which
    none begins. *)
Lemma Cut_at (prefix sep0 : string) (d : ascii) (rest : string) :
  Contains (prefix +:+ sep0) (sep0 +:+ String d "") = false ->
  Cut (prefix +:+ (sep0 +:+ String d "") +:+ rest) (sep0 +:+ String d "")
  = Some (prefix, rest).
Proof.
  rewrite Contains_Cut. intros Hnone%bool_decide_eq_false.
  induction prefix as [|c prefix IH].
  - rewrite string_app_nil_l, Cut_prefix by apply HasPrefix_app_l.
    by rewrite drop_app_l.
  - rewrite string_app_cons in *. cbn [Cut] in *.
    assert (HasPrefix (String c (prefix +:+ (sep0 +:+ String d "") +:+ rest))
              (sep0 +:+ String d "")
            = HasPrefix (String c (prefix +:+ sep0)) (sep0 +:+ String d "")) as ->.
    { replace (String c (prefix +:+ (sep0 +:+ String d "") +:+ rest))
        with (String c (prefix +:+ sep0) +:+ String d rest)
        by (by rewrite string_app_cons, !string_app_assoc).
      apply HasPrefix_long. cbn [String.length]. rewrite !string_length_app.
      cbn [String.length]. lia. }
    destruct (HasPrefix (String c (prefix +:+ sep0)) (sep0 +:+ String d "")).
    { destruct Hnone. by eexists. }
    rewrite IH; [done|]. intros [x Hx]. apply Hnone. rewrite Hx. destruct x. by eexists.
Qed.

Lemma zone_of_target_link (prefix zone : string) :
  Contains (prefix +:+ "zoneinfo") "zoneinfo/" = false ->
  free_of " " zone = true ->
  SpecSymlink.zone_of_target (prefix +:+ "zoneinfo/" +:+ zone) = zone.
Proof.
  intros Hfirst Hzone. unfold SpecSymlink.zone_of_target.
  pose proof (Cut_at prefix "zoneinfo" "/" zone Hfirst) as Hcut.
  change ("zoneinfo" +:+ "/") with "zoneinfo/" in Hcut. rewrite Hcut.
  by apply underscores_free.
Qed.

(** X12: a symbolic link whose target is a path to the file of a zone under
    a directory [zoneinfo], the first of that name in the target, gives the
    name of the zone. *)
Theorem parseSymlink_zone_link (w : World) (path prefix zone : string) (mode : Z) :
  lstat_mode w path = Ok mode ->
  Z.testbit mode 27 = true ->
  link_target w path = Ok (prefix +:+ "zoneinfo/" +:+ zone) ->
  Contains (prefix +:+ "zoneinfo") "zoneinfo/" = false ->
  free_of " " zone = true ->
  parseSymlink path w = (Ret zone, [EvLstat path; EvReadlink path]).
Proof.
  intros Hlstat Hmode Hlink Hfirst Hzone. rewrite parseSymlink_probe.
  unfold SpecSymlink.probe, SpecSymlink.is_symlink. rewrite Hlstat, Hmode, Hlink.
  cbn [fst snd]. by rewrite zone_of_target_link.
Qed.

End zone_link.

Lemma parseSymlink_zone_link_witness :
  Unix.parseSymlink "/etc/localtime"
    (Example.with_link "/etc/localtime" "/var/db/timezone/zoneinfo/Europe/Berlin"
       Example.bare)
  = (Ret "Europe/Berlin", [EvLstat "/etc/localtime"; EvReadlink "/etc/localtime"]).
Proof.
  apply (parseSymlink_zone_link _ "/etc/localtime" "/var/db/timezone/" "Europe/Berlin"
           (Z.lor os.ModeSymlink 511)); reflexivity.
Defined.

(** ** The clock file of a zone *)

Section zone_clock.

Import strings regexp SpecPath SpecZone SpecClock Unix.

Lemma Cut_free_app (c : ascii) (e rest : string) :
  free_of c e = true -> Cut (e +:+ String c rest) (String c "") = Some (e, rest).
Proof.
  induction e as [|a e IH].
  - intros _. rewrite string_app_nil_l, Cut_char_cons. by rewrite Ascii.eqb_refl.
  - unfold free_of. cbn [SpecClock.all]. intros [Ha He]%andb_true_iff.
    apply negb_true_iff in Ha. rewrite string_app_cons, Cut_char_cons, Ascii.eqb_sym, Ha.
    by rewrite (IH He).
Qed.

Lemma raw_lines_loop_nil (fuel : nat) : raw_lines_loop fuel "" = [].
Proof. by destruct fuel. Qed.

Lemma dropCR_last (a : string) (c : ascii) :
  Ascii.eqb c "013" = false -> bufio.dropCR (a +:+ String c "") = a +:+ String c "".
Proof.
  intros Hc. induction a as [|x a IH].
  - rewrite string_app_nil_l. cbn [bufio.dropCR]. by rewrite Hc.
  - rewrite string_app_cons. cbn [bufio.dropCR]. rewrite IH.
    by destruct (a +:+ String c "") eqn:Heq; [destruct a|].
Qed.

Lemma dropCR_CR (a : string) : bufio.dropCR (a +:+ CR) = a.
Proof.
  induction a as [|x a IH]; [done|]. rewrite string_app_cons. cbn [bufio.dropCR].
  rewrite IH. by destruct (a +:+ CR) eqn:Heq; [destruct a|].
Qed.

Lemma free_not_nl (s : string) : free_of "010" s = true -> all any_char_not_nl s = true.
Proof.
  apply all_impl. intros c.
  destruct c as [[] [] [] [] [] [] [] []]; vm_compute; done.
Qed.

(** A line with a setting, as it stands in a file. *)
Lemma setting_line (key zone : string) :
  key = "TIMEZONE" \/ key = "ZONE" ->
  zone <> "" -> free_of "010" zone = true -> free_of " " zone = true ->
  entry (key +:+ "=" +:+ quote +:+ zone +:+ quote) = [zone].
Proof.
  intros Hkey Hne HLF Hspace. unfold entry.
  assert (setting (key +:+ "=" +:+ quote +:+ zone +:+ quote) = Some (key, zone)) as ->.
  { apply setting_matches. exists "", "", "". split; [done|]. split; [done|].
    split; [done|]. split; [done|]. split; [done|]. by apply free_not_nl. }
  rewrite bool_decide_false by done. by rewrite underscores_free.
Qed.

Lemma delivered_line (line eol : string) :
  free_of "010" line = true ->
  (strings.len line < 65535)%Z ->
  (exists a c, line = a +:+ String c "" /\ Ascii.eqb c "013" = false) ->
  eol = "" \/ eol = LF \/ eol = CR +:+ LF ->
  delivered (line +:+ eol) = [line].
Proof.
  intros Hfree Hlen (a & c & Hlast & Hc) Heol. unfold delivered, raw_lines.
  assert (fits line = true) as Hfits.
  { unfold fits, bufio.MaxScanTokenSize. apply Z.ltb_lt. lia. }
  destruct Heol as [-> | [-> | ->]].
  - rewrite string_app_nil_r. cbn [raw_lines_loop]. unfold LF. rewrite Cut_free by done.
    rewrite bool_decide_false by (rewrite Hlast; by destruct a).
    cbn [fitting]. rewrite Hfits. cbn [fmap list_fmap]. rewrite Hlast at 1.
    rewrite dropCR_last by done. by rewrite Hlast.
  - cbn [raw_lines_loop]. unfold LF. rewrite Cut_free_app by done.
    rewrite raw_lines_loop_nil. cbn [fitting]. rewrite Hfits. cbn [fmap list_fmap].
    rewrite Hlast at 1. rewrite dropCR_last by done. by rewrite Hlast.
  - cbn [raw_lines_loop]. unfold LF, CR.
    rewrite string_app_cons, string_app_nil_l.
    change (String "013" (String "010" "")) with (String "013" "" +:+ String "010" "").
    rewrite <- string_app_assoc. rewrite Cut_free_app.
    2: { unfold free_of. rewrite all_app. fold (free_of "010" line). by rewrite Hfree. }
    rewrite raw_lines_loop_nil. cbn [fitting].
    assert (fits (line +:+ String "013" "") = true) as ->.
    { unfold fits, bufio.MaxScanTokenSize, strings.len in *. apply Z.ltb_lt.
      rewrite string_length_app. cbn [String.length]. lia. }
    cbn [fmap list_fmap]. fold CR. by rewrite dropCR_CR.
Qed.

(** X13: a clock file that holds one setting, the key TIMEZONE or ZONE, the
    equals sign, and between double quotes a value that is not empty, with
    no space and no line feed in it and shorter than 65000 bytes, gives the
    value and nothing else; the line may end with the file, with a line
    feed, or with a carriage return and a line feed. *)
Theorem parseFromClock_zone_setting (w : World) (path key zone eol : string) :
  key = "TIMEZONE" \/ key = "ZONE" ->
  zone <> "" ->
  free_of "010" zone = true ->
  free_of " " zone = true ->
  (strings.len zone < 65000)%Z ->
  eol = "" \/ eol = LF \/ eol = CR +:+ LF ->
  open_data w path = Ok (key +:+ "=" +:+ quote +:+ zone +:+ quote +:+ eol) ->
  parseFromClock [path] w = (Ret [zone], [EvOpen path]).
Proof.
  intros Hkey Hne HLF Hspace Hlen Heol Hdata. rewrite parseFromClock_probe.
  unfold probe. cbn [flat_map]. rewrite Hdata, app_nil_r.
  replace (key +:+ "=" +:+ quote +:+ zone +:+ quote +:+ eol)
    with ((key +:+ "=" +:+ quote +:+ zone +:+ quote) +:+ eol)
    by (by rewrite !string_app_assoc).
  rewrite delivered_line; [| | | |done].
  - cbn [flat_map]. rewrite app_nil_r. by rewrite setting_line.
  - unfold free_of in *. rewrite !all_app, HLF.
    by destruct Hkey as [-> | ->].
  - unfold strings.len in *. rewrite !string_length_app.
    destruct Hkey as [-> | ->]; cbn [String.length quote]; lia.
  - exists (key +:+ "=" +:+ quote +:+ zone), "034"%char. split; [|done].
    by rewrite !string_app_assoc.
Qed.

End zone_clock.

Lemma parseFromClock_zone_setting_witness :
  Unix.parseFromClock ["/etc/sysconfig/clock"]
    (Example.with_file "/etc/sysconfig/clock"
       ("ZONE=" +:+ quote +:+ "Europe/Berlin" +:+ quote +:+ CR +:+ LF) Example.bare)
  = (Ret ["Europe/Berlin"], [EvOpen "/etc/sysconfig/clock"]).
Proof.
  apply (parseFromClock_zone_setting _ "/etc/sysconfig/clock" "ZONE" "Europe/Berlin"
           (CR +:+ LF)); try reflexivity.
  - by right.
  - discriminate.
  - by right; right.
Defined.

(** ** The entry point on a machine whose sources agree *)

Section consistent.

Import strings SpecPath SpecZone Unix.

Context (timezones : gmap string string).

(** X14: on a machine where [TZ] is not set, [/etc/timezone] holds the name
    of a zone, [/etc/localtime] is a link to the file of that zone in
    [/usr/share/zoneinfo], the other files are missing, and the file of the
    zone resolves to a zone file of the database, [Name] returns the name of
    that file, the zone itself when its file is its own real path, with no
    error.  It resolves the same path twice, once for each source. *)
Theorem Name_sources_agree (w : World) (zone target : string) (mode : Z)
    (e1 e2 e3 : oserror) :
  name zone = true ->
  relative target = true ->
  env w "TZ" = "" ->
  file_data w "/etc/timezone" = Ok (zone +:+ LF) ->
  file_data w "/var/db/zoneinfo" = Err e1 ->
  open_data w "/etc/sysconfig/clock" = Err e2 ->
  open_data w "/etc/conf.d/clock" = Err e3 ->
  lstat_mode w "/etc/localtime" = Ok mode ->
  Z.testbit mode 27 = true ->
  link_target w "/etc/localtime" = Ok ("/usr/share/zoneinfo/" +:+ zone) ->
  real_path w ("/usr/share/zoneinfo/" +:+ zone) = Ok ("/usr/share/zoneinfo/" +:+ target) ->
  Name timezones w
  = (Ret (target, None),
     [EvGetenv "TZ"; EvReadFile "/etc/timezone"; EvReadFile "/var/db/zoneinfo";
      EvOpen "/etc/sysconfig/clock"; EvOpen "/etc/conf.d/clock";
      EvLstat "/etc/localtime"; EvReadlink "/etc/localtime";
      EvRealpath ("/usr/share/zoneinfo/" +:+ zone);
      EvRealpath ("/usr/share/zoneinfo/" +:+ zone)]).
Proof.
  intros Hname Htarget Henv Htimezone Hdb Hclock1 Hclock2 Hlstat Hmode Hlink Hreal.
  pose proof Hname as (_ & Hzone & _)%name_shape.
  assert (SpecEnv.probe timezones w = ("", [EvGetenv "TZ"])) as Hprobe.
  { unfold SpecEnv.probe. rewrite Henv. by rewrite bool_decide_true. }
  assert (SpecConfig.probe w ["/etc/timezone"; "/var/db/zoneinfo"] = [zone]) as Hconfig.
  { unfold SpecConfig.probe. cbn [flat_map]. rewrite Htimezone, Hdb.
    rewrite <- (string_app_nil_l (zone +:+ LF)). by rewrite entries_name. }
  assert (SpecClock.probe w ["/etc/sysconfig/clock"; "/etc/conf.d/clock"] = []) as Hclock.
  { unfold SpecClock.probe. cbn [flat_map]. by rewrite Hclock1, Hclock2. }
  assert (SpecSymlink.probe w "/etc/localtime"
          = (zone, [EvLstat "/etc/localtime"; EvReadlink "/etc/localtime"])) as Hsymlink.
  { unfold SpecSymlink.probe, SpecSymlink.is_symlink. rewrite Hlstat, Hmode, Hlink.
    change ("/usr/share/zoneinfo/" +:+ zone) with ("/usr/share/" +:+ "zoneinfo/" +:+ zone).
    rewrite zone_of_target_link; [done | done | by apply name_spaceless]. }
  unfold Name.
  rewrite (bind_trace_ret _ _ w _ _ (parseEnv_value timezones w)), Hprobe. cbn [fst snd].
  rewrite bool_decide_false by (by intros ?).
  rewrite (bind_trace_ret _ _ w _ _
             (parseFromConfigFile_probe w ["/etc/timezone"; "/var/db/zoneinfo"])).
  rewrite (bind_trace_ret _ _ w _ _
             (parseFromClock_probe w ["/etc/sysconfig/clock"; "/etc/conf.d/clock"])).
  rewrite (bind_trace_ret _ _ w _ _ (parseSymlink_probe w "/etc/localtime")).
  rewrite Hconfig, Hclock, Hsymlink. cbn [fst snd app fmap list_fmap].
  rewrite bool_decide_true by (by apply name_nonempty).
  assert (filepath.Join ["/usr/share/zoneinfo"; zone] = "/usr/share/zoneinfo/" +:+ zone)
    as Hjoin by (by destruct (Join_under "/usr/share/zoneinfo" zone eq_refl Hzone)).
  destruct (identifier_under "/usr/share/zoneinfo" target eq_refl Htarget) as [Hid Hdeep].
  change ("/usr/share/zoneinfo" +:+ slash +:+ target)
    with ("/usr/share/zoneinfo/" +:+ target) in Hid, Hdeep.
  assert (Spec.survivors w "/usr/share/zoneinfo" [zone; zone]
          = ["/usr/share/zoneinfo/" +:+ target; "/usr/share/zoneinfo/" +:+ target])
    as Hsurv.
  { unfold Spec.survivors, Spec.resolve. cbn [omap list_omap]. by rewrite Hjoin, Hreal. }
  assert (fst (resolve_range [zone; zone] "/usr/share/zoneinfo" w) = Ret [target]) as Hrange.
  { apply resolve_range_identifiers. rewrite Hsurv. split; [by repeat constructor|].
    unfold Spec.identifiers. rewrite Hsurv. cbn [fmap list_fmap Spec.distinct].
    rewrite Hid. cbn [filter list_filter]. by rewrite decide_False by (by intros []). }
  f_equal.
  - cbn [fst]. change ([] ++ [zone]) with [zone]. cbn [app].
    by rewrite resolveTimezones_value, Hrange.
  - cbn [snd]. f_equal. f_equal. f_equal. f_equal. f_equal. f_equal. f_equal.
    change (([] ++ [zone]) ++ [] ++ [zone]) with [zone; zone].
    rewrite resolveTimezones_trace.
    destruct (resolve_range_reads w [zone; zone] "/usr/share/zoneinfo") as [_ Hall].
    rewrite Hall by (by rewrite Hrange). cbn [fmap list_fmap]. by rewrite Hjoin.
Qed.

End consistent.

Lemma Name_sources_agree_witness :
  fst (Unix.Name Example.timezones
         (Example.with_link "/etc/localtime" "/usr/share/zoneinfo/America/Sao_Paulo"
            (Example.with_file "/etc/timezone" ("America/Sao_Paulo" +:+ LF)
               Example.zonedb)))
  = Ret ("America/Sao_Paulo", None)
  /\ fst (Unix.Name Example.timezones
            (Example.with_link "/etc/localtime" "/usr/share/zoneinfo/UTC"
               (Example.with_file "/etc/timezone" ("UTC" +:+ LF) Example.zonedb)))
     = Ret ("Etc/UTC", None).
Proof.
  split.
  - by rewrite (Name_sources_agree Example.timezones _ "America/Sao_Paulo"
                  "America/Sao_Paulo" (Z.lor os.ModeSymlink 511)
                  ErrNotExist ErrNotExist ErrNotExist).
  - by rewrite (Name_sources_agree Example.timezones _ "UTC" "Etc/UTC"
                  (Z.lor os.ModeSymlink 511) ErrNotExist ErrNotExist ErrNotExist).
Defined.

(** ** The environment probe, on every platform *)

Section env_probe.

Context (timezones : gmap string string).
Context (PathSeparator : string) (IsAbs : string -> bool).

(** X15: whatever the separator and the notion of an absolute path of the
    platform, a name that the environment probe returns, when it is not the
    empty string, is a key of the table of the time zones, and [TZ] is
    set: no value of [TZ] reaches the caller unchecked. *)
Theorem parseEnv_validated (w : World) (name : string) :
  fst (parseEnv timezones PathSeparator IsAbs w) = Ret name ->
  name <> "" ->
  is_Some (timezones !! name) /\ env w "TZ" <> "".
Proof.
  unfold parseEnv. rewrite bind_value. cbn [os.Getenv read fst bind_exec].
  case_bool_decide as Hempty; [by intros [= <-]|].
  case_bool_decide as Hkey; [by intros [= <-]|].
  rewrite bind_value.
  destruct (fst ((if IsAbs (env w "TZ") then fileExists (env w "TZ") else ret false) w))
    as [[|]|]; cbn [bind_exec]; [|by intros [= <-] | done].
  rewrite bind_value. cbn [lift fst].
  destruct (slice_from _ _) as [last_two|]; cbn [bind_exec]; [|done].
  case_bool_decide as Hjoined; [by intros [= <-]|].
  rewrite bind_value. cbn [lift fst].
  destruct (index _ _) as [last|]; cbn [bind_exec]; [|done].
  case_bool_decide as Hlast; [by intros [= <-] | by intros [= <-]].
Qed.

End env_probe.

Lemma parseEnv_validated_witness :
  is_Some (Example.timezones !! "UTC")
  /\ env (Example.with_TZ "C:\zones\UTC" (Example.with_existing "C:\zones\UTC" Example.bare))
       "TZ" <> "".
Proof.
  apply (parseEnv_validated Example.timezones Windows.PathSeparator (fun _ => true)
           (Example.with_TZ "C:\zones\UTC" (Example.with_existing "C:\zones\UTC" Example.bare))
           "UTC"); [reflexivity | discriminate].
Defined.

(** ** The registry, on Windows *)

Section windows_registry.

Import strings.

Context (timezones windowsTimezones : gmap string string) (IsAbs : string -> bool).

Lemma ReplaceAll_remove (c : ascii) (s : string) :
  ReplaceAll s (String c "") "" = SpecRegistry.without c s.
Proof.
  unfold ReplaceAll, Split, SplitN. cbn [String.eqb Z.eqb Z.ltb Z.compare].
  assert (forall k, (String.length s <= k)%nat ->
            Join (split_loop k s (String c "")) "" = SpecRegistry.without c s) as Hk;
    [|by apply Hk].
  induction s as [|a s IH]; intros k Hlen.
  - by destruct k.
  - destruct k as [|k]; [cbn in Hlen; lia|]. cbn [String.length] in Hlen.
    rewrite split_loop_char_cons. cbn [SpecRegistry.without]. rewrite Ascii.eqb_sym.
    destruct (Ascii.eqb a c).
    + rewrite Join_cons by apply split_loop_nonempty.
      rewrite !string_app_nil_l. apply IH. lia.
    + rewrite Join_cons_first by apply split_loop_nonempty. f_equal. apply IH. lia.
Qed.

(** X5: on Windows, when [TZ] is not set, [Name] opens the key of the time
    zone information and reads its value [TimeZoneKeyName]; a key that does
    not open and a value that cannot be read are the two errors of the
    registry.  The NUL bytes of the value do not count, wherever they
    stand; the name found in the table as it is goes before the name with
    [Standard Time] after it, and the error of a name that is not found
    names the latter. *)
Theorem Windows_Name_registry (w : World) :
  env w "TZ" = "" ->
  Windows.Name timezones windowsTimezones IsAbs w
  = match registry_key w Windows.key_path with
    | Err _ =>
        (Ret ("", Some "failed to open registry key"),
         [EvGetenv "TZ"; EvOpenKey Windows.key_path])
    | Ok _ =>
        (Ret match registry_string w Windows.key_path "TimeZoneKeyName" with
             | Err _ => ("", Some "can not find windows timezone configuration")
             | Ok value => SpecRegistry.zone_of windowsTimezones value
             end,
         [EvGetenv "TZ"; EvOpenKey Windows.key_path;
          EvGetStringValue Windows.key_path "TimeZoneKeyName"])
    end.
Proof.
  intros Henv. unfold Windows.Name.
  assert (parseEnv timezones Windows.PathSeparator IsAbs w = (Ret "", [EvGetenv "TZ"]))
    as Hprobe.
  { unfold parseEnv, bind. cbn [os.Getenv read]. rewrite Henv.
    by rewrite bool_decide_true. }
  rewrite (bind_trace_ret _ _ w _ _ Hprobe).
  rewrite bool_decide_false by (by intros ?).
  unfold bind. cbn [registry.OpenKey registry.GetStringValue read fst snd].
  destruct (registry_key w Windows.key_path) as [key|e]; [|done].
  destruct (registry_string w Windows.key_path "TimeZoneKeyName") as [value|e]; [|done].
  unfold SpecRegistry.zone_of. cbn zeta.
  change (ReplaceAll value Windows.NUL "") with (ReplaceAll value (String "000" "") "").
  rewrite ReplaceAll_remove.
  destruct (windowsTimezones !! SpecRegistry.without "000" value) as [tz|]; [done|].
  destruct (windowsTimezones !! _) as [tz|]; [done|].
  cbn [ret fst snd app]. by rewrite string_app_assoc.
Qed.

End windows_registry.

Lemma Windows_Name_registry_witness :
  Windows.Name Example.timezones Example.windowsTimezones (fun _ => false)
    (Example.with_registry "TimeZoneKeyName"
       (String "W" (String "000" (String "." (String "000" " Europe"))))
       Example.bare)
  = (Ret ("Europe/Berlin", None),
     [EvGetenv "TZ"; EvOpenKey Windows.key_path;
      EvGetStringValue Windows.key_path "TimeZoneKeyName"]).
Proof.
  apply (Windows_Name_registry Example.timezones Example.windowsTimezones (fun _ => false)
           (Example.with_registry "TimeZoneKeyName"
              (String "W" (String "000" (String "." (String "000" " Europe"))))
              Example.bare)).
  reflexivity.
Defined.

(** ** The errors of the entry point, on Unix *)

Section unix_errors.

Import strings Unix Spec.

Context (timezones : gmap string string).

Lemma Name_value (w : World) :
  fst (Name timezones w)
  = if bool_decide (fst (SpecEnv.probe timezones w) <> "")
    then Ret (fst (SpecEnv.probe timezones w), None)
    else fst (resolveTimezones (SpecEntry.candidates w) "/usr/share/zoneinfo" w).
Proof.
  unfold Name. rewrite bind_value, parseEnv_value. cbn [fst bind_exec].
  case_bool_decide as Henv; [done|].
  rewrite bind_value, parseFromConfigFile_probe. cbn [fst bind_exec].
  rewrite bind_value, parseFromClock_probe. cbn [fst bind_exec].
  rewrite bind_value, parseSymlink_probe. cbn [fst bind_exec app].
  unfold SpecEntry.candidates. cbn zeta.
  destruct (decide (fst (SpecSymlink.probe w "/etc/localtime") = "")) as [Heq|Hne].
  - rewrite (bool_decide_true _ Heq), bool_decide_false by (by intros ?).
    by rewrite app_nil_r.
  - rewrite (bool_decide_false _ Hne), bool_decide_true by done.
    by rewrite <- (app_assoc (SpecConfig.probe w _)).
Qed.

(** X16: the one error that [Name] returns on Unix is the conflict.  When
    it returns an error the name is empty, [TZ] gave nothing, the probes
    gave two or more candidates, and the candidates resolve to two or more
    distinct identifiers, which the message lists. *)
Theorem Name_error_is_conflict (w : World) (name message : string) :
  fst (Name timezones w) = Ret (name, Some message) ->
  name = ""
  /\ fst (SpecEnv.probe timezones w) = ""
  /\ (2 <= length (SpecEntry.candidates w))%nat
  /\ exists ids,
       fst (resolve_range (SpecEntry.candidates w) "/usr/share/zoneinfo" w) = Ret ids
       /\ (2 <= length ids)%nat
       /\ NoDup ids
       /\ message = SpecMessage.conflict_message ids.
Proof.
  rewrite Name_value. case_bool_decide as Henv; [done|].
  rewrite resolveTimezones_value.
  destruct (SpecEntry.candidates w) as [|tz [|tz' tzs]] eqn:Hcandidates; [done | done |].
  destruct (fst (resolve_range _ _ w)) as [ids|] eqn:Hrange; [|done]. cbn [bind_exec].
  destruct ids as [|id [|id' ids]]; [done | done |]. intros [= <- <-].
  split; [done|]. split; [done|]. split; [cbn; lia|].
  exists (id :: id' :: ids). split; [done|]. split; [cbn; lia|]. split; [|done].
  apply resolve_range_identifiers in Hrange as [_ ->]. apply NoDup_distinct.
Qed.

End unix_errors.

Lemma Name_error_is_conflict_witness :
  "" = ""
  /\ fst (SpecEnv.probe Example.timezones Example.disagreeing) = ""
  /\ (2 <= length (SpecEntry.candidates Example.disagreeing))%nat
  /\ exists ids,
       fst (Unix.resolve_range (SpecEntry.candidates Example.disagreeing)
              "/usr/share/zoneinfo" Example.disagreeing) = Ret ids
       /\ (2 <= length ids)%nat
       /\ NoDup ids
       /\ SpecMessage.conflict_message ["America/Sao_Paulo"; "Africa/Harare"]
          = SpecMessage.conflict_message ids.
Proof.
  apply (Name_error_is_conflict Example.timezones Example.disagreeing
           "" (SpecMessage.conflict_message ["America/Sao_Paulo"; "Africa/Harare"])).
  vm_compute. reflexivity.
Defined.

(** ** The text of the conflict *)

Section conflict_text.

Import strings SpecPath Unix Spec.

Lemma Contains_app (a s b : string) : Contains (a +:+ s +:+ b) s = true.
Proof.
  rewrite Contains_Cut. apply bool_decide_eq_true. induction a as [|c a IH].
  - rewrite string_app_nil_l, Cut_prefix by apply HasPrefix_app_l. by eexists.
  - rewrite string_app_cons. cbn [Cut].
    destruct (HasPrefix _ s); [by eexists|]. destruct IH as [[before after] ->]. by eexists.
Qed.

Lemma listing_Contains (ids : list string) (id : string) :
  id ∈ ids -> exists a b, SpecMessage.listing ids = a +:+ (id +:+ LF) +:+ b.
Proof.
  induction ids as [|v ids IH]; [by intros ?%elem_of_nil|].
  intros [-> | Hin]%elem_of_cons; cbn [SpecMessage.listing].
  - exists "", (SpecMessage.listing ids). by rewrite string_app_nil_l, string_app_assoc.
  - destruct (IH Hin) as (a & b & ->). exists (v +:+ LF +:+ a), b.
    by rewrite !string_app_assoc.
Qed.

Lemma conflict_message_Join (ids : list string) :
  SpecMessage.conflict_message ids
  = Join ("multiple conflicting time zone configurations found:" :: ids ++ [conflict_advice])
      LF.
Proof.
  unfold SpecMessage.conflict_message. rewrite Join_cons by (by destruct ids).
  f_equal. f_equal. induction ids as [|v ids IH]; [done|].
  cbn [SpecMessage.listing app]. rewrite Join_cons by (by destruct ids).
  by rewrite !string_app_assoc, IH.
Qed.

(** X17: the text of the error of the resolver.  It holds the header with
    its line feed, every identifier in conflict followed by a line feed,
    and the advice; and when no identifier holds a line feed, its lines are
    the header, the identifiers in the order of the loop, and the advice:
    a caller reads the identifiers off the message. *)
Theorem resolveTimezones_conflict_text (w : World) (tzs : list string) (root : string)
    (name message : string) :
  fst (resolveTimezones tzs root w) = Ret (name, Some message) ->
  exists ids,
    fst (resolve_range tzs root w) = Ret ids
    /\ (2 <= length ids)%nat
    /\ Contains message conflict_header = true
    /\ (forall id, id ∈ ids -> Contains message (id +:+ LF) = true)
    /\ Contains message conflict_advice = true
    /\ (Forall (fun id => free_of "010" id = true) ids ->
        Split message LF
        = "multiple conflicting time zone configurations found:" :: ids ++ [conflict_advice]).
Proof.
  rewrite resolveTimezones_value. destruct tzs as [|tz [|tz' tzs]]; [done | done |].
  destruct (fst (resolve_range _ _ w)) as [ids|]; [|done]. cbn [bind_exec].
  destruct ids as [|id [|id' ids]]; [done | done |]. intros [= <- <-].
  exists (id :: id' :: ids). split; [done|]. split; [cbn; lia|].
  split; [|split; [|split]].
  - replace (SpecMessage.conflict_message (id :: id' :: ids))
      with ("" +:+ conflict_header
            +:+ (SpecMessage.listing (id :: id' :: ids) +:+ conflict_advice))
      by (unfold SpecMessage.conflict_message, conflict_header, conflict_advice;
          by rewrite string_app_nil_l, !string_app_assoc).
    apply Contains_app.
  - intros v Hv. destruct (listing_Contains _ v Hv) as (a & b & Heq).
    replace (SpecMessage.conflict_message (id :: id' :: ids))
      with ((conflict_header +:+ a) +:+ (v +:+ LF) +:+ (b +:+ conflict_advice))
      by (unfold SpecMessage.conflict_message, conflict_header, conflict_advice;
          rewrite Heq; by rewrite !string_app_assoc).
    apply Contains_app.
  - replace (SpecMessage.conflict_message (id :: id' :: ids))
      with ((conflict_header +:+ SpecMessage.listing (id :: id' :: ids))
            +:+ conflict_advice +:+ "")
      by (unfold SpecMessage.conflict_message, conflict_header, conflict_advice;
          by rewrite string_app_nil_r, !string_app_assoc).
    apply Contains_app.
  - intros Hfree. rewrite conflict_message_Join. apply (Split_Join "010"); [done|].
    apply Forall_cons. split; [done|]. apply Forall_app. split; [done|].
    by apply Forall_singleton.
Qed.

End conflict_text.

Lemma resolveTimezones_conflict_text_witness :
  exists ids,
    fst (Unix.resolve_range ["America/Sao_Paulo"; "America/Los_Angeles"; "Africa/Harare"]
           "/usr/share/zoneinfo" Example.zonedb) = Ret ids
    /\ (2 <= length ids)%nat
    /\ strings.Contains
         (SpecMessage.conflict_message
            ["America/Sao_Paulo"; "America/Los_Angeles"; "Africa/Harare"])
         Unix.conflict_header = true
    /\ (forall id, id ∈ ids ->
        strings.Contains
          (SpecMessage.conflict_message
             ["America/Sao_Paulo"; "America/Los_Angeles"; "Africa/Harare"])
          (id +:+ LF) = true)
    /\ strings.Contains
         (SpecMessage.conflict_message
            ["America/Sao_Paulo"; "America/Los_Angeles"; "Africa/Harare"])
         Unix.conflict_advice = true
    /\ (Forall (fun id => SpecPath.free_of "010" id = true) ids ->
        strings.Split
          (SpecMessage.conflict_message
             ["America/Sao_Paulo"; "America/Los_Angeles"; "Africa/Harare"]) LF
        = "multiple conflicting time zone configurations found:"
          :: ids ++ [Unix.conflict_advice]).
Proof.
  apply (resolveTimezones_conflict_text Example.zonedb
           ["America/Sao_Paulo"; "America/Los_Angeles"; "Africa/Harare"]
           "/usr/share/zoneinfo" "").
  vm_compute. reflexivity.
Defined.

(** ** [appendIfMissing] *)

Section append_if_missing.

Import Unix.

(** X18: [appendIfMissing] keeps a slice a list without duplicates.  The
    result holds the elements of the slice and the new one, begins with
    the slice, has no duplicate when the slice has none, and is the slice
    itself when the element is in it already; appending the same element
    twice is appending it once. *)
Theorem appendIfMissing_set (slice : list string) (s : string) :
  (forall x, x ∈ appendIfMissing slice s <-> x ∈ slice \/ x = s)
  /\ slice `prefix_of` appendIfMissing slice s
  /\ (NoDup slice -> NoDup (appendIfMissing slice s))
  /\ (s ∈ slice -> appendIfMissing slice s = slice)
  /\ appendIfMissing (appendIfMissing slice s) s = appendIfMissing slice s.
Proof.
  rewrite (appendIfMissing_spec (appendIfMissing slice s)), appendIfMissing_spec.
  destruct (decide (s ∈ slice)) as [Hin|Hout].
  - rewrite decide_True by done. split; [|by repeat split].
    intros x. split; [by left | by intros [? | ->]].
  - rewrite decide_True by (apply elem_of_app; right; by apply list_elem_of_singleton).
    split; [|split; [|split; [|split]]].
    + intros x. rewrite elem_of_app, list_elem_of_singleton. done.
    + by apply prefix_app_r.
    + intros Hnodup. apply NoDup_app. split; [done|]. split; [|apply NoDup_singleton].
      intros x Hx ->%list_elem_of_singleton. done.
    + done.
    + done.
Qed.

End append_if_missing.

(** ** When the environment probe panics on Windows *)

Section windows_panic.

Import strings.

Context (timezones : gmap string string) (IsAbs : string -> bool).

Lemma Split_separator (c : ascii) (s : string) :
  Contains s (String c "") = true -> (2 <= length (Split s (String c "")))%nat.
Proof.
  rewrite Contains_Cut. intros [[before after] Hcut]%bool_decide_eq_true.
  unfold Split, SplitN. cbn [Z.eqb Z.ltb Z.compare].
  destruct s as [|a s]; [done|]. cbn [String.length split_loop]. rewrite Hcut.
  pose proof (split_loop_nonempty (String.length s) after (String c "")) as Hne.
  destruct (split_loop _ after _); [done|]. cbn. lia.
Qed.

Lemma fileExists_value (w : World) (fp : string) :
  fst (fileExists fp w)
  = Ret match stat_err w fp with
        | None => true
        | Some e => os.IsExist e
        end.
Proof. unfold fileExists. rewrite bind_value. done. Qed.

(** X19: on Windows the environment probe panics in one situation only,
    and always in it: [TZ] is set to a text that is no key of the table, that
    is an absolute path and exists, and that holds no backslash. *)
Theorem Windows_parseEnv_panics_exactly (w : World) :
  fst (parseEnv timezones Windows.PathSeparator IsAbs w) = Panic <->
    env w "TZ" <> ""
    /\ timezones !! env w "TZ" = None
    /\ IsAbs (env w "TZ") = true
    /\ (stat_err w (env w "TZ") = None \/ stat_err w (env w "TZ") = Some ErrExist)
    /\ Contains (env w "TZ") Windows.PathSeparator = false.
Proof.
  unfold parseEnv. rewrite bind_value. cbn [os.Getenv read fst bind_exec].
  case_bool_decide as Hempty; [split; [done | by intros [? _]]|].
  case_bool_decide as Hkey.
  { split; [done|]. intros (_ & Hnone & _). rewrite Hnone in Hkey. by destruct Hkey. }
  assert (timezones !! env w "TZ" = None) as Hnone
    by (destruct (timezones !! env w "TZ"); [destruct Hkey; by eexists | done]).
  rewrite bind_value. destruct (IsAbs (env w "TZ")) eqn:Habs.
  2: { cbn. split; [done | by intros (_ & _ & ? & _)]. }
  rewrite fileExists_value. cbn [bind_exec].
  assert ((match stat_err w (env w "TZ") with
           | None => true
           | Some e => os.IsExist e
           end) = true
          <-> stat_err w (env w "TZ") = None \/ stat_err w (env w "TZ") = Some ErrExist)
    as Hexists.
  { destruct (stat_err w (env w "TZ")) as [[]|]; cbn; split;
      try done; try (by left); try (by right); by intros [?|?]. }
  destruct (match stat_err w (env w "TZ") with None => true | Some e => os.IsExist e end).
  2: { cbn. split; [done|]. intros (_ & _ & _ & Hex & _). by apply Hexists in Hex. }
  rewrite bind_value. cbn [lift fst].
  destruct (Contains (env w "TZ") Windows.PathSeparator) eqn:Hsep.
  - pose proof (Split_separator "\" (env w "TZ") Hsep) as Hlen.
    fold Windows.PathSeparator in Hlen.
    rewrite slice_from_last_two by done. cbn [bind_exec].
    case_bool_decide; [split; [done | by intros (_ & _ & _ & _ & ?)]|].
    rewrite bind_value. cbn [lift fst]. rewrite index_last by lia. cbn [bind_exec].
    case_bool_decide; (split; [done | by intros (_ & _ & _ & _ & ?)]).
  - rewrite Split_no_separator by done. split; [|done]. intros _.
    split; [done|]. split; [done|]. split; [done|]. split; [by apply Hexists | done].
Qed.

End windows_panic.

(** ** Host names and comments in a configuration file *)

Section first_word.

Import strings SpecPath SpecZone Unix.

Lemma all_TrimRight (p : ascii -> bool) (s cutset : string) :
  SpecClock.all p s = true -> SpecClock.all p (TrimRight s cutset) = true.
Proof.
  induction s as [|a s IH]; [done|]. cbn [SpecClock.all TrimRight].
  intros [Ha Hs]%andb_true_iff. specialize (IH Hs).
  destruct (TrimRight s cutset) as [|b r].
  - destruct (in_cutset a cutset); [done|]. cbn. by rewrite Ha.
  - cbn [SpecClock.all] in *. by rewrite Ha, IH.
Qed.

Lemma TrimRight_cons_shape (p : ascii -> bool) (c : ascii) (rest cutset : string) :
  SpecClock.all p rest = true ->
  TrimRight (String c rest) cutset = ""
  \/ exists rest', TrimRight (String c rest) cutset = String c rest'
                   /\ SpecClock.all p rest' = true.
Proof.
  intros Hrest. pose proof (all_TrimRight p rest cutset Hrest) as Hall.
  cbn [TrimRight]. destruct (TrimRight rest cutset) as [|b r].
  - destruct (in_cutset c cutset); [by left|]. right. by exists "".
  - right. by eexists.
Qed.

Lemma TrimRight_app_nil (a b cutset : string) :
  TrimRight b cutset = "" -> TrimRight (a +:+ b) cutset = TrimRight a cutset.
Proof.
  intros Hb. induction a as [|x a IH]; [done|]. rewrite string_app_cons.
  cbn [TrimRight]. by rewrite IH.
Qed.

Lemma Contains_CRLF_free (s : string) :
  free_of "010" s = true -> Contains s (CR +:+ LF) = false.
Proof.
  intros Hs. rewrite Contains_Cut. apply bool_decide_eq_false. intros [x Hx].
  revert x Hx. induction s as [|a s IH]; intros x; [done|].
  unfold free_of in Hs. cbn [SpecClock.all] in Hs. apply andb_true_iff in Hs as [_ Hs].
  change (CR +:+ LF) with (String "013" (String "010" "")) in *. cbn [Cut HasPrefix].
  destruct (Ascii.eqb "013" a).
  - destruct s as [|b s]; [done|]. cbn [HasPrefix].
    unfold free_of in Hs. cbn [SpecClock.all] in Hs.
    pose proof Hs as [Hb%negb_true_iff _]%andb_true_iff.
    rewrite Ascii.eqb_sym, Hb.
    destruct (Cut (String b s) _) as [[before after]|] eqn:Hcut; [|done].
    intros _. by apply (IH Hs (before, after)).
  - destruct (Cut s _) as [[before after]|] eqn:Hcut; [|done].
    intros _. by apply (IH Hs (before, after)).
Qed.

Lemma before_app (c : ascii) (a b : string) :
  free_of c a = true -> SpecConfig.before c (a +:+ b) = a +:+ SpecConfig.before c b.
Proof.
  induction a as [|x a IH]; [done|]. unfold free_of. cbn [SpecClock.all].
  intros [Hx Ha]%andb_true_iff. apply negb_true_iff in Hx.
  rewrite !string_app_cons. cbn [SpecConfig.before]. by rewrite Hx, (IH Ha).
Qed.

Lemma entry_name (zone : string) : name zone = true -> SpecConfig.entry zone = [zone].
Proof.
  intros Hname. unfold SpecConfig.entry.
  assert (free_of "#" zone = true) as Hhash.
  { apply name_free; [|done]. intros a Ha. by apply plain_not in Ha as (_ & ? & _). }
  pose proof (name_spaceless zone Hname) as Hspace.
  rewrite !before_free by (by rewrite ?before_free). cbn zeta.
  rewrite TrimSpace_plain by (by apply name_shape in Hname as (? & _)).
  rewrite bool_decide_false by (by apply name_nonempty).
  by rewrite underscores_free.
Qed.

Lemma entry_first_word (zone : string) (c : ascii) (rest : string) :
  name zone = true -> c = " "%char \/ c = "#"%char ->
  SpecConfig.entry (zone +:+ String c rest) = [zone].
Proof.
  intros Hname Hc. unfold SpecConfig.entry.
  assert (free_of "#" zone = true) as Hhash.
  { apply name_free; [|done]. intros a Ha. by apply plain_not in Ha as (_ & ? & _). }
  pose proof (name_spaceless zone Hname) as Hspace.
  assert (SpecConfig.before "#" (SpecConfig.before " " (zone +:+ String c rest)) = zone)
    as ->.
  { rewrite before_app by done. destruct Hc as [-> | ->].
    - cbn [SpecConfig.before Ascii.eqb Bool.eqb]. rewrite string_app_nil_r.
      by apply before_free.
    - cbn [SpecConfig.before Ascii.eqb Bool.eqb]. rewrite before_app by done.
      cbn [SpecConfig.before Ascii.eqb Bool.eqb]. apply string_app_nil_r. }
  cbn zeta. rewrite TrimSpace_plain by (by apply name_shape in Hname as (? & _)).
  rewrite bool_decide_false by (by apply name_nonempty).
  by rewrite underscores_free.
Qed.

(** X20: host definitions and comments.  A configuration file of one line
    that holds the name of a zone and, after a space or a number sign,
    any text gives the name of the zone and nothing else. *)
Theorem parseFromConfigFile_first_word (w : World) (path zone : string) (c : ascii)
    (rest : string) :
  name zone = true ->
  c = " "%char \/ c = "#"%char ->
  free_of "010" rest = true ->
  file_data w path = Ok (zone +:+ String c rest) ->
  parseFromConfigFile [path] w = (Ret [zone], [EvReadFile path]).
Proof.
  intros Hname Hc Hrest Hdata. rewrite parseFromConfigFile_probe.
  unfold SpecConfig.probe. cbn [flat_map]. rewrite Hdata, app_nil_r.
  pose proof Hname as (_ & _ & (x & s & Hfirst & Hx) & (a & d & Hlast & Hd))%name_shape.
  assert (free_of "010" zone = true) as HLF.
  { apply name_free; [|done]. intros b Hb. by apply plain_not in Hb as (_ & _ & ? & _). }
  assert (TrimRight zone trim_cutset = zone) as Hzone.
  { rewrite Hlast. rewrite <- (TrimRight_last a d "" trim_cutset) at 2; done. }
  unfold SpecConfig.entries.
  assert (exists t, SpecConfig.stripped (zone +:+ String c rest) = zone +:+ t
                    /\ free_of "010" t = true
                    /\ (t = "" \/ exists rest', t = String c rest')) as (t & -> & Ht & Hshape).
  { unfold SpecConfig.stripped, Trim. fold trim_cutset.
    destruct (TrimRight_cons_shape (fun a => negb (Ascii.eqb a "010")) c rest trim_cutset
                Hrest) as [Hnil | (rest' & Hcons & Hrest')].
    - exists "". rewrite TrimRight_app_nil, Hzone by done. rewrite string_app_nil_r.
      split; [|split; [done | by left]]. rewrite Hfirst. cbn [TrimLeft]. by rewrite Hx.
    - exists (String c rest'). rewrite TrimRight_keep by (by rewrite Hcons). rewrite Hcons.
      split; [|split; [|right; by eexists]].
      + rewrite Hfirst, string_app_cons. cbn [TrimLeft]. by rewrite Hx.
      + unfold free_of. cbn [SpecClock.all]. rewrite Hrest'.
        by destruct Hc as [-> | ->]. }
  assert (free_of "010" (zone +:+ t) = true) as Hline.
  { unfold free_of in *. by rewrite all_app, HLF, Ht. }
  unfold SpecConfig.lines, ReplaceAll.
  replace (String.eqb (CR +:+ LF) LF) with false by done.
  rewrite (Split_no_separator _ (CR +:+ LF)) by (by apply Contains_CRLF_free).
  cbn [Join]. unfold LF at 1. rewrite Split_free by done.
  cbn [flat_map]. rewrite app_nil_r.
  destruct Hshape as [-> | [rest' ->]].
  - by rewrite string_app_nil_r, entry_name.
  - by rewrite entry_first_word.
Qed.

End first_word.

Lemma parseFromConfigFile_first_word_witness :
  Unix.parseFromConfigFile ["/etc/timezone"]
    (Example.with_file "/etc/timezone" "Europe/Berlin my-host  # set by the installer  "
       Example.bare)
  = (Ret ["Europe/Berlin"], [EvReadFile "/etc/timezone"]).
Proof.
  apply (parseFromConfigFile_first_word _ "/etc/timezone" "Europe/Berlin" " "
           "my-host  # set by the installer  "); try reflexivity.
  by left.
Defined.

(** ** One candidate alone *)

Section lone_candidate.

Import Unix.

Context (timezones : gmap string string).

Lemma Name_outcome (w : World) :
  fst (SpecEnv.probe timezones w) = "" ->
  Name timezones w
  = (fst (resolveTimezones (SpecEntry.candidates w) "/usr/share/zoneinfo" w),
     snd (SpecEnv.probe timezones w)
     ++ (EvReadFile <$> ["/etc/timezone"; "/var/db/zoneinfo"])
     ++ (EvOpen <$> ["/etc/sysconfig/clock"; "/etc/conf.d/clock"])
     ++ snd (SpecSymlink.probe w "/etc/localtime")
     ++ snd (resolveTimezones (SpecEntry.candidates w) "/usr/share/zoneinfo" w)).
Proof.
  intros Henv. unfold Name.
  rewrite (bind_trace_ret _ _ w _ _ (parseEnv_value timezones w)). rewrite Henv.
  rewrite bool_decide_false by (by intros ?).
  rewrite (bind_trace_ret _ _ w _ _
             (parseFromConfigFile_probe w ["/etc/timezone"; "/var/db/zoneinfo"])).
  rewrite (bind_trace_ret _ _ w _ _
             (parseFromClock_probe w ["/etc/sysconfig/clock"; "/etc/conf.d/clock"])).
  rewrite (bind_trace_ret _ _ w _ _ (parseSymlink_probe w "/etc/localtime")).
  cbn [fst snd app]. unfold SpecEntry.candidates. cbn zeta.
  destruct (decide (fst (SpecSymlink.probe w "/etc/localtime") = "")) as [Heq|Hne].
  - rewrite (bool_decide_true _ Heq), bool_decide_false by (by intros ?).
    by rewrite app_nil_r.
  - rewrite (bool_decide_false _ Hne), bool_decide_true by done.
    by rewrite <- (app_assoc (SpecConfig.probe w _)).
Qed.

(** X21: one candidate alone is returned unchecked.  When [TZ] gives
    nothing and the probes give one candidate, [Name] returns it as it is
    with no error: the resolver is not asked for a real path, and nothing
    says that the candidate names a zone. *)
Theorem Name_lone_candidate (w : World) (candidate : string) :
  fst (SpecEnv.probe timezones w) = "" ->
  SpecEntry.candidates w = [candidate] ->
  Name timezones w
  = (Ret (candidate, None),
     snd (SpecEnv.probe timezones w)
     ++ [EvReadFile "/etc/timezone"; EvReadFile "/var/db/zoneinfo";
         EvOpen "/etc/sysconfig/clock"; EvOpen "/etc/conf.d/clock"]
     ++ snd (SpecSymlink.probe w "/etc/localtime")).
Proof.
  intros Henv Hcandidates. rewrite Name_outcome by done. rewrite Hcandidates.
  cbn [fst snd fmap list_fmap app]. by rewrite app_nil_r.
Qed.

End lone_candidate.

Lemma Name_lone_candidate_witness :
  Unix.Name Example.timezones
    (Example.with_file "/etc/timezone" ("Mars/Olympus_Mons" +:+ LF) Example.bare)
  = (Ret ("Mars/Olympus_Mons", None),
     [EvGetenv "TZ"; EvReadFile "/etc/timezone"; EvReadFile "/var/db/zoneinfo";
      EvOpen "/etc/sysconfig/clock"; EvOpen "/etc/conf.d/clock"; EvLstat "/etc/localtime"]).
Proof.
  apply (Name_lone_candidate Example.timezones
           (Example.with_file "/etc/timezone" ("Mars/Olympus_Mons" +:+ LF) Example.bare)
           "Mars/Olympus_Mons"); reflexivity.
Defined.

(** ** The panic of the resolver at the entry point, on Unix *)

Section unix_panic.

Import Unix Spec.

Context (timezones : gmap string string).

(** X22: the panic of the resolver reaches the caller of [Name].  When
    [TZ] gives no name, the probes give two or more candidates, and one of
    them resolves to a real path with fewer components than
    [/usr/share/zoneinfo] has segments, as when that directory is a link to
    a directory nearer the root, [Name] panics. *)
Theorem Name_panics_on_shallow_path (w : World) :
  fst (SpecEnv.probe timezones w) = "" ->
  (2 <= length (SpecEntry.candidates w))%nat ->
  Exists (shallow "/usr/share/zoneinfo")
    (survivors w "/usr/share/zoneinfo" (SpecEntry.candidates w)) ->
  fst (Name timezones w) = Panic.
Proof.
  intros Henv Hlen Hshallow. rewrite Name_value.
  rewrite bool_decide_false by (by intros ?).
  rewrite resolveTimezones_value, resolve_range_value.
  rewrite resolve_steps_shallow by done.
  destruct (SpecEntry.candidates w) as [|tz [|tz' tzs]];
    [simpl in Hlen; lia | simpl in Hlen; lia | done].
Qed.

End unix_panic.

Lemma Name_panics_on_shallow_path_witness :
  fst (Unix.Name Example.timezones
         (Example.with_link "/etc/localtime" "/usr/share/zoneinfo/Etc/UTC"
            (Example.with_file "/etc/timezone" ("UTC" +:+ LF) Example.linked)))
  = Panic.
Proof.
  apply Name_panics_on_shallow_path.
  - reflexivity.
  - vm_compute. lia.
  - apply (bool_decide_unpack _). vm_compute. exact I.
Defined.

(** ** A path in [TZ] *)

Section env_path.

Import strings SpecPath.

Context (timezones : gmap string string) (IsAbs : string -> bool).

Lemma split_loop_empty (k : nat) (sep : string) :
  sep <> "" -> split_loop k "" sep = [""].
Proof. intros Hsep. destruct k; [done|]. cbn. by destruct sep. Qed.

Lemma cons_first_app (a : ascii) (pieces more : list string) :
  pieces <> [] -> Value.cons_first a (pieces ++ more) = Value.cons_first a pieces ++ more.
Proof. by destruct pieces. Qed.

(** The pieces of a split do not depend on the fuel, once there is enough
    of it. *)
Lemma split_loop_fuel (c : ascii) (s : string) (k k' : nat) :
  (String.length s <= k)%nat -> (String.length s <= k')%nat ->
  split_loop k s (String c "") = split_loop k' s (String c "").
Proof.
  revert k k'. induction s as [|a s IH]; intros k k' Hk Hk'.
  - by rewrite !split_loop_empty.
  - destruct k as [|k]; [cbn in Hk; lia|]. destruct k' as [|k']; [cbn in Hk'; lia|].
    cbn [String.length] in Hk, Hk'. rewrite !split_loop_char_cons.
    destruct (Ascii.eqb c a).
    + f_equal. apply IH; lia.
    + f_equal. apply IH; lia.
Qed.

Lemma split_loop_snoc (c : ascii) (b s : string) (k : nat) :
  free_of c b = true -> (String.length s <= k)%nat ->
  split_loop (S k) (s +:+ String c b) (String c "") = split_loop k s (String c "") ++ [b].
Proof.
  intros Hb. revert k. induction s as [|a s IH]; intros k Hk.
  - rewrite string_app_nil_l, split_loop_char_cons, Ascii.eqb_refl.
    by rewrite split_loop_free, split_loop_empty.
  - destruct k as [|k]; [cbn in Hk; lia|]. cbn [String.length] in Hk.
    rewrite string_app_cons, !split_loop_char_cons. destruct (Ascii.eqb c a).
    + rewrite IH by lia. done.
    + rewrite IH by lia. apply cons_first_app, split_loop_nonempty.
Qed.

(** The last piece of a split is the text after the last separator. *)
Lemma Split_snoc (c : ascii) (s b : string) :
  free_of c b = true ->
  Split (s +:+ String c b) (String c "") = Split s (String c "") ++ [b].
Proof.
  intros Hb. unfold Split, SplitN. cbn [Z.eqb Z.ltb Z.compare].
  rewrite string_length_app. cbn [String.length].
  rewrite Nat.add_succ_r, split_loop_snoc by (done || lia).
  f_equal. apply split_loop_fuel; lia.
Qed.

(** X23: on every platform whose path separator is one character, a value
    of [TZ] that is no key of the table and is the absolute path of an
    existing file gives the last two components of the path joined by a
    slash when they are a key, else the last component when that is one,
    else nothing; the components are the pieces between separators. *)
Theorem parseEnv_path (sep : ascii) (w : World) (dir a b : string) :
  env w "TZ" = dir +:+ String sep a +:+ String sep b ->
  free_of sep a = true ->
  free_of sep b = true ->
  timezones !! env w "TZ" = None ->
  IsAbs (env w "TZ") = true ->
  stat_err w (env w "TZ") = None ->
  parseEnv timezones (String sep "") IsAbs w
  = (Ret (if bool_decide (is_Some (timezones !! (a +:+ "/" +:+ b))) then a +:+ "/" +:+ b
          else if bool_decide (is_Some (timezones !! b)) then b
          else ""),
     [EvGetenv "TZ"; EvStat (env w "TZ")]).
Proof.
  intros Henv Ha Hb Hkey Habs Hstat.
  assert (Split (env w "TZ") (String sep "") = Split dir (String sep "") ++ [a; b])
    as Hparts.
  { rewrite Henv, <- string_app_assoc. rewrite !Split_snoc by done.
    by rewrite <- app_assoc. }
  assert (env w "TZ" <> "") as Hne by (rewrite Henv; by destruct dir).
  unfold parseEnv, bind. cbn [os.Getenv read].
  rewrite bool_decide_false by done.
  rewrite bool_decide_false by (rewrite Hkey; by intros [? ?]).
  rewrite Habs. unfold fileExists, bind. cbn [os.Stat read ret]. rewrite Hstat.
  cbn [app]. rewrite Hparts.
  assert (2 <= length (Split dir (String sep "") ++ [a; b]))%nat as Hlen
    by (rewrite length_app; cbn; lia).
  unfold lift. rewrite slice_from_last_two by done.
  replace (list.drop (length (Split dir (String sep "") ++ [a; b]) - 2)
             (Split dir (String sep "") ++ [a; b]))
    with [a; b].
  2: { rewrite length_app. cbn [length].
       replace (length (Split dir (String sep "")) + 2 - 2)%nat
         with (length (Split dir (String sep ""))) by lia.
       by rewrite drop_app_length. }
  cbn [Join]. change (a +:+ slash +:+ b) with (a +:+ "/" +:+ b).
  case_bool_decide; [done|].
  rewrite index_last by lia. rewrite last_app. cbn [last default id].
  by case_bool_decide.
Qed.

End env_path.

Lemma parseEnv_path_witness :
  parseEnv Example.timezones Windows.PathSeparator (fun _ => true)
    (Example.with_TZ "C:\Temp\America\Sao_Paulo"
       (Example.with_existing "C:\Temp\America\Sao_Paulo" Example.bare))
  = (Ret "America/Sao_Paulo", [EvGetenv "TZ"; EvStat "C:\Temp\America\Sao_Paulo"])
  /\ parseEnv Example.timezones os.PathSeparator filepath.IsAbs
       (Example.with_TZ "/tmp/zones/UTC/UTC"
          (Example.with_existing "/tmp/zones/UTC/UTC" Example.bare))
     = (Ret "UTC", [EvGetenv "TZ"; EvStat "/tmp/zones/UTC/UTC"]).
Proof.
  split.
  - apply (parseEnv_path Example.timezones (fun _ => true) "\"
             (Example.with_TZ "C:\Temp\America\Sao_Paulo"
                (Example.with_existing "C:\Temp\America\Sao_Paulo" Example.bare))
             "C:\Temp" "America" "Sao_Paulo"); reflexivity.
  - apply (parseEnv_path Example.timezones filepath.IsAbs "/"
             (Example.with_TZ "/tmp/zones/UTC/UTC"
                (Example.with_existing "/tmp/zones/UTC/UTC" Example.bare))
             "/tmp/zones" "UTC" "UTC"); reflexivity.
Defined.
